(** * JobBot: the resilient-interaction and convergence-polling engine

    A shallow embedding of the two browser-automation scripts
    [Job_Bot_Nvidia_main.py] and [bot_Job_IAI_main.py].

    The scripts drive a live browser through Selenium.  The browser is
    modelled as an explicit [driver] state: every call of the scripts on
    the driver is a computation in a small state-and-exception monad, the
    answers of the browser (which elements a locator finds, whether a click
    goes through, what a page shows at each poll, how long a query takes)
    are data of the driver state, and every call leaves an event in the
    driver's trace.  Time is wall-clock time in milliseconds. *)

From Stdlib Require Import ZArith Lia String Ascii List Bool.
From stdpp Require Import base tactics option list strings pretty gmap sets.

Set Warnings "-register-all".

Local Open Scope Z_scope.

(** ** Exceptions and the state-and-exception monad *)

(** The exception classes the modelled code raises or meets.  All of them
    derive from Python's [Exception]; [WebDriverException] stands for any
    other error of the driver (stale element, dead session, ...). *)
Inductive exn : Type :=
  | TimeoutException
  | NoSuchElementException
  | WebDriverException
  | RuntimeError
  | ValueError
  | IndexError.

Global Instance exn_eq_dec : EqDecision exn.
Proof. solve_decision. Defined.

(** [except C:] clauses: which exceptions a clause catches. *)
Definition any_Exception (e : exn) : bool := true.

Definition is_TimeoutException (e : exn) : bool :=
  match e with TimeoutException => true | _ => false end.

Inductive result (A : Type) : Type :=
  | Ok (a : A)
  | Raise (e : exn).
Arguments Ok {A} a.
Arguments Raise {A} e.

(** A computation over a state [S] that returns an [A] or raises. *)
Definition M (S A : Type) : Type := S -> result A * S.

Definition ret {S A} (a : A) : M S A := fun s => (Ok a, s).

Definition raise {S A} (e : exn) : M S A := fun s => (Raise e, s).

Definition bind {S A B} (m : M S A) (k : A -> M S B) : M S B :=
  fun s =>
    match m s with
    | (Ok a, s') => k a s'
    | (Raise e, s') => (Raise e, s')
    end.

(** [try: m  except C: h]: the handler runs in the state the body left. *)
Definition try_except {S A} (m : M S A) (catches : exn -> bool) (h : M S A)
  : M S A :=
  fun s =>
    match m s with
    | (Ok a, s') => (Ok a, s')
    | (Raise e, s') => if catches e then h s' else (Raise e, s')
    end.

Definition get {S} : M S S := fun s => (Ok s, s).
Definition modify {S} (f : S -> S) : M S unit := fun s => (Ok tt, f s).

(** A call whose outcome the browser decides: [None] is success. *)
Definition outcome {S} (o : option exn) : M S unit :=
  match o with
  | None => ret tt
  | Some e => raise e
  end.

(** Sequencing of plain results (queries that may raise). *)
Definition rbind {A B} (r : result A) (k : A -> result B) : result B :=
  match r with
  | Ok a => k a
  | Raise e => Raise e
  end.

(** [try: v = r  except Exception: pass] around a variable preset to the
    empty string. *)
Definition or_empty (r : result string) : string :=
  match r with
  | Ok s => s
  | Raise _ => EmptyString
  end.

Declare Scope monad_scope.
Delimit Scope monad_scope with monad.
Notation "x <~ r ;; k" := (rbind r (fun x => k))
  (at level 100, r at next level, right associativity) : monad_scope.
Notation "x <- m ;; k" := (bind m (fun x => k))
  (at level 100, m at next level, right associativity) : monad_scope.
Notation "m ;;; k" := (bind m (fun _ => k))
  (at level 100, right associativity) : monad_scope.
Notation "'try' m 'except' c '=>' h" := (try_except m c h)
  (at level 100, m at level 99, c at level 9, h at level 100) : monad_scope.

Local Open Scope monad_scope.

(** ** Python string helpers *)

(** [needle in hay] for [str]. *)
Fixpoint starts_with (p s : string) : bool :=
  match p, s with
  | EmptyString, _ => true
  | String a p', String b s' =>
      if Ascii.eqb a b then starts_with p' s' else false
  | String _ _, EmptyString => false
  end.

Fixpoint contains (needle hay : string) : bool :=
  starts_with needle hay ||
  match hay with
  | EmptyString => false
  | String _ hay' => contains needle hay'
  end.

(** Truthiness of a [str]. *)
Definition nonempty (s : string) : bool :=
  match s with EmptyString => false | _ => true end.

Lemma nonempty_true_iff (s : string) :
  nonempty s = true <-> s <> EmptyString.
Proof. destruct s; simpl; split; congruence. Qed.

(** [a or b] where [a] may be [None]. *)
Definition or_str (a : option string) (b : string) : string :=
  match a with
  | Some s => if nonempty s then s else b
  | None => b
  end.

(** The characters [str.strip()] removes (ASCII range). *)
Definition is_space (c : ascii) : bool :=
  let n := nat_of_ascii c in
  ((9 <=? n)%nat && (n <=? 13)%nat) || ((28 <=? n)%nat && (n <=? 32)%nat).

Fixpoint lstrip (s : string) : string :=
  match s with
  | String c s' => if is_space c then lstrip s' else s
  | EmptyString => EmptyString
  end.

Fixpoint rstrip (s : string) : string :=
  match s with
  | EmptyString => EmptyString
  | String c s' =>
      match rstrip s' with
      | EmptyString => if is_space c then EmptyString else String c EmptyString
      | t => String c t
      end
  end.

Definition strip (s : string) : string := rstrip (lstrip s).

(** The first element of a list that passes a test, with its index. *)
Fixpoint find_first {A} (P : A -> bool) (l : list A) : option (nat * A) :=
  match l with
  | [] => None
  | x :: rest =>
      if P x then Some (0%nat, x)
      else match find_first P rest with
           | Some (k, y) => Some (S k, y)
           | None => None
           end
  end.

Lemma find_first_Some {A} (P : A -> bool) (l : list A) (k : nat) (x : A) :
  find_first P l = Some (k, x) <->
  l !! k = Some x /\ P x = true /\
  (forall j y, (j < k)%nat -> l !! j = Some y -> P y = false).
Proof.
  revert k. induction l as [|a l IH]; intros k; simpl.
  - split; [done|]. by intros [? _].
  - destruct (P a) eqn:Ha.
    + split.
      * intros [= <- <-]. repeat split; [done|]. intros j y Hj. lia.
      * intros (Hk & Hx & Hmin). destruct k as [|k].
        -- simpl in Hk. by simplify_eq.
        -- specialize (Hmin 0%nat a). rewrite Hmin in Ha; [done|lia|done].
    + destruct (find_first P l) as [[k' y]|].
      * split.
        -- intros [= <- <-].
           destruct (proj1 (IH k') eq_refl) as (Hk & Hx & Hmin).
           repeat split; [done..|]. intros [|j] z Hj Hz; simpl in Hz.
           ++ by simplify_eq.
           ++ apply (Hmin j); [lia|done].
        -- intros (Hk & Hx & Hmin). destruct k as [|k]; simpl in Hk.
           ++ simplify_eq. congruence.
           ++ assert (Some (k', y) = Some (k, x)) as Hk'; [|congruence].
              apply IH. repeat split; [done..|]. intros j z Hj Hz.
              apply (Hmin (S j)); [lia|done].
      * split; [done|]. intros (Hk & Hx & Hmin).
        destruct k as [|k]; simpl in Hk.
        -- simplify_eq. congruence.
        -- assert (None = Some (k, x)) as Hk'; [|done].
           apply IH. repeat split; [done..|]. intros j z Hj Hz.
           apply (Hmin (S j)); [lia|done].
Qed.

Lemma find_first_None {A} (P : A -> bool) (l : list A) :
  find_first P l = None <-> forall x, x ∈ l -> P x = false.
Proof.
  induction l as [|a l IH]; simpl.
  - split; [|done]. intros _ x Hx. by apply elem_of_nil in Hx.
  - destruct (P a) eqn:Ha.
    + split; [done|]. intros Hall. rewrite Hall in Ha; [done|left].
    + destruct (find_first P l) as [[k y]|].
      * split; [done|]. intros Hall.
        assert (Some (k, y) = None) as Hn; [|done].
        apply IH. intros x Hx. apply Hall. by right.
      * split; [|done]. intros _ x Hx. apply elem_of_cons in Hx as [->|Hx].
        -- done.
        -- by apply (proj1 IH).
Qed.

Lemma find_first_app {A} (P : A -> bool) (l1 l2 : list A) :
  find_first P (l1 ++ l2)
  = match find_first P l1 with
    | Some r => Some r
    | None =>
        match find_first P l2 with
        | Some (k, y) => Some ((length l1 + k)%nat, y)
        | None => None
        end
    end.
Proof.
  induction l1 as [|a l1 IH]; simpl.
  - by destruct (find_first P l2) as [[k y]|].
  - destruct (P a); [done|]. rewrite IH.
    destruct (find_first P l1) as [[k y]|]; [done|].
    by destruct (find_first P l2) as [[k y]|].
Qed.

(** Selenium locators: [(By.X, "selector")]. *)
Inductive by_ : Type := CSS_SELECTOR | XPATH | TAG_NAME | ID.

Global Instance by_eq_dec : EqDecision by_.
Proof. solve_decision. Defined.

Definition locator : Type := by_ * string.

(** * The Workday bot ([Job_Bot_Nvidia_main.py]) *)

Module Nvidia.

(** ** The browser behind the driver *)

(** A [WebElement].  [el_displayed] and [el_enabled] answer
    [is_displayed()] and the clickability condition; the four [option exn]
    fields say how the element answers each way of clicking it ([None]: the
    call returns, [Some e]: it raises [e]). *)
Record element : Type := {
  el_id : nat;
  el_displayed : bool;
  el_enabled : bool;
  native_click : option exn;      (* element.click() *)
  scroll_center : option exn;     (* execute_script(scrollIntoView...) *)
  js_click : option exn;          (* execute_script(arguments[0].click()) *)
  action_click : option exn;      (* ActionChains(...).click().perform() *)
  typing : option exn;            (* clear() and send_keys(...) *)
  action_space : option exn       (* ActionChains(...).send_keys(SPACE)... *)
}.

(** A document with the elements its locators find and its iframes. *)
Inductive frame : Type :=
  | Frame (content : locator -> option element) (subframes : list frame).

Definition content (f : frame) : locator -> option element :=
  match f with Frame c _ => c end.

Definition subframes (f : frame) : list frame :=
  match f with Frame _ fs => fs end.

(** The document a browsing context designates: the path of iframe
    indexes from the top-level document. *)
Fixpoint frame_at (f : frame) (path : list nat) : option frame :=
  match path with
  | [] => Some f
  | i :: rest =>
      match subframes f !! i with
      | Some g => frame_at g rest
      | None => None
      end
  end.

(** The signals of the results page, as the queries of
    [get_pagination_state] see them.  Any query may raise. *)
Record button : Type := {
  aria_label : result (option string);
  btn_text : result string
}.

Record nav : Type := { active_btns : result (list button) }.

Record job_link : Type := {
  link_displayed : result bool;
  href : result (option string)
}.

Record page : Type := {
  navs : result (list nav);
  job_out_of_text : result string;
  job_links : result (list job_link)
}.

(** One observation of the results page: what it shows and how long the
    queries took (milliseconds). *)
Record observation : Type := { obs_page : page; obs_cost : N }.

Inductive event : Type :=
  | EvSwitchDefault
  | EvSwitchFrame (i : nat)
  | EvWait (ctx : list nat) (l : locator)
  | EvGet (url : string)
  | EvClear (id : nat)
  | EvType (id : nat) (text : string)
  | EvEnter (id : nat)
  | EvActionSpace (id : nat)
  | EvUrlChanges (url : string)
  | EvNativeClick (id : nat)
  | EvScroll (id : nat)
  | EvJsClick (id : nat)
  | EvActionChain (id : nat)
  | EvSleep (ms : Z)
  | EvSnapshot (k : nat).

Global Instance event_eq_dec : EqDecision event.
Proof. solve_decision. Defined.

Record driver : Type := {
  dom : frame;                  (* the loaded document *)
  url_changes : bool;           (* does the URL change after signing in *)
  context : list nat;           (* the frame the driver is switched to *)
  feed : nat -> observation;    (* the k-th observation of the results *)
  polls : nat;                  (* observations made so far *)
  clock : Z;                    (* time.time(), in ms *)
  trace : list event            (* calls made so far, oldest first *)
}.

(** The driver switched to context [c], with trace [t]. *)
Definition upd (d : driver) (c : list nat) (t : list event) : driver :=
  {| dom := dom d; url_changes := url_changes d; context := c;
     feed := feed d; polls := polls d; clock := clock d; trace := t |}.

Definition with_trace (d : driver) (t : list event) : driver :=
  upd d (context d) t.

Definition log (e : event) : M driver unit :=
  modify (fun d => with_trace d (trace d ++ [e])).

Definition set_context (c : list nat) : M driver unit :=
  modify (fun d => upd d c (trace d)).

Definition advance (ms : Z) : M driver unit :=
  modify (fun d => {| dom := dom d; url_changes := url_changes d;
                      context := context d; feed := feed d;
                      polls := polls d; clock := clock d + ms;
                      trace := trace d |}).

Definition count_poll : M driver unit :=
  modify (fun d => {| dom := dom d; url_changes := url_changes d;
                      context := context d; feed := feed d;
                      polls := S (polls d); clock := clock d;
                      trace := trace d |}).

(** ** Driver calls on the document *)

Definition current_frame (d : driver) : option frame :=
  frame_at (dom d) (context d).

Definition switch_to_default_content : M driver unit :=
  log EvSwitchDefault ;;; set_context [].

(** [driver.switch_to.frame(f)], with [f] the [i]-th iframe of the current
    document. *)
Definition switch_to_frame (i : nat) : M driver unit :=
  log (EvSwitchFrame i) ;;;
  d <- get ;;
  match frame_at (dom d) (context d ++ [i]) with
  | Some _ => set_context (context d ++ [i])
  | None => raise WebDriverException
  end.

(** [driver.find_elements(By.TAG_NAME, "iframe")]: handles on the iframes
    of the current document. *)
Definition find_iframes : M driver (list nat) :=
  d <- get ;;
  match current_frame d with
  | Some f => ret (seq 0 (length (subframes f)))
  | None => raise WebDriverException
  end.

(** [WebDriverWait(driver, t).until(EC.presence_of_element_located(loc))]:
    the element the locator finds in the current document, or
    [TimeoutException]. *)
Definition presence_of_element_located (loc : locator) : M driver element :=
  d <- get ;;
  log (EvWait (context d) loc) ;;;
  match current_frame d with
  | Some f =>
      match content f loc with
      | Some el => ret el
      | None => raise TimeoutException
      end
  | None => raise WebDriverException
  end.

(** [WebDriverWait(driver, t).until(EC.element_to_be_clickable(loc))]. *)
Definition element_to_be_clickable (loc : locator) : M driver element :=
  d <- get ;;
  log (EvWait (context d) loc) ;;;
  match current_frame d with
  | Some f =>
      match content f loc with
      | Some el =>
          if el_displayed el && el_enabled el then ret el
          else raise TimeoutException
      | None => raise TimeoutException
      end
  | None => raise WebDriverException
  end.

(** ** switch_to_frame_containing *)

(** The inner [for f2 in ...] loop; [true] means the function returned. *)
Fixpoint search_f2 (loc : locator) (f1 : nat) (f2s : list nat)
  : M driver bool :=
  match f2s with
  | [] => ret false
  | f2 :: rest =>
      switch_to_default_content ;;;
      switch_to_frame f1 ;;;
      switch_to_frame f2 ;;;
      found <- (try (presence_of_element_located loc ;;; ret true)
                except is_TimeoutException => ret false) ;;
      if found then ret true else search_f2 loc f1 rest
  end.

(** The outer [for f1 in ...] loop. *)
Fixpoint search_f1 (loc : locator) (f1s : list nat) : M driver bool :=
  match f1s with
  | [] => ret false
  | f1 :: rest =>
      switch_to_default_content ;;;
      switch_to_frame f1 ;;;
      found <- (try (presence_of_element_located loc ;;; ret true)
                except is_TimeoutException =>
                  (f2s <- find_iframes ;; search_f2 loc f1 f2s)) ;;
      if found then ret true else search_f1 loc rest
  end.

Definition switch_to_frame_containing (loc : locator) : M driver unit :=
  switch_to_default_content ;;;
  found <- (try (presence_of_element_located loc ;;; ret true)
            except is_TimeoutException => ret false) ;;
  if found then ret tt else
  f1s <- find_iframes ;;
  found <- search_f1 loc f1s ;;
  if found then ret tt else
  switch_to_default_content ;;;
  raise NoSuchElementException.

(** ** robust_click *)

Definition click (el : element) : M driver unit :=
  log (EvNativeClick (el_id el)) ;;; outcome (native_click el).

Definition execute_script_scrollIntoView (el : element) : M driver unit :=
  log (EvScroll (el_id el)) ;;; outcome (scroll_center el).

Definition execute_script_click (el : element) : M driver unit :=
  log (EvJsClick (el_id el)) ;;; outcome (js_click el).

Definition action_chain_click (el : element) : M driver unit :=
  log (EvActionChain (el_id el)) ;;; outcome (action_click el).

Definition robust_click (el : element) : M driver bool :=
  try (click el ;;; ret true) except any_Exception =>
  try (execute_script_scrollIntoView el ;;;
       execute_script_click el ;;;
       ret true) except any_Exception =>
  try (action_chain_click el ;;; ret true) except any_Exception =>
  ret false.

(** The three stages of the chain, and what the trace shows of each. *)
Inductive stage : Type := Native | Synthetic | Pointer.

Definition stage_ok (el : element) (s : stage) : bool :=
  match s with
  | Native => bool_decide (native_click el = None)
  | Synthetic =>
      bool_decide (scroll_center el = None) && bool_decide (js_click el = None)
  | Pointer => bool_decide (action_click el = None)
  end.

(** The first call a stage makes on the driver. *)
Definition stage_mark (el : element) (s : stage) : event :=
  match s with
  | Native => EvNativeClick (el_id el)
  | Synthetic => EvScroll (el_id el)
  | Pointer => EvActionChain (el_id el)
  end.

Definition earlier (s : stage) : list stage :=
  match s with
  | Native => []
  | Synthetic => [Native]
  | Pointer => [Native; Synthetic]
  end.

Definition attempted (new : list event) (el : element) (s : stage) : bool :=
  bool_decide (stage_mark el s ∈ new).

(** ** get_pagination_state and the wait after the next-page click *)

(** (current_page_label, outof_text, first_job_href) *)
Definition pagination_state : Type := string * string * string.

Definition current_page_label (p : page) : string :=
  or_empty
    (rbind (navs p) (fun ns =>
       match last ns with
       | None => Ok EmptyString
       | Some nv =>
           rbind (active_btns nv) (fun bs =>
             match bs with
             | [] => Ok EmptyString
             | b :: _ =>
                 rbind (aria_label b) (fun a =>
                   match a with
                   | Some s =>
                       if nonempty s then Ok s
                       else rbind (btn_text b) (fun t => Ok (strip t))
                   | None => rbind (btn_text b) (fun t => Ok (strip t))
                   end)
             end)
       end)).

Definition outof_text (p : page) : string :=
  or_empty (rbind (job_out_of_text p) (fun t => Ok (strip t))).

(** [[a for a in links if a.is_displayed()]] *)
Fixpoint displayed_links (ls : list job_link) : result (list job_link) :=
  match ls with
  | [] => Ok []
  | a :: rest =>
      rbind (link_displayed a) (fun shown =>
        rbind (displayed_links rest) (fun rest' =>
          Ok (if shown then a :: rest' else rest')))
  end.

Definition first_job_href (p : page) : string :=
  or_empty
    (rbind (job_links p) (fun ls =>
       rbind (displayed_links ls) (fun shown =>
         match shown with
         | [] => Ok EmptyString
         | a :: _ => rbind (href a) (fun h => Ok (or_str h EmptyString))
         end))).

Definition state_of_page (p : page) : pagination_state :=
  (current_page_label p, outof_text p, first_job_href p).

Definition time_time : M driver Z := d <- get ;; ret (clock d).

Definition time_sleep (ms : Z) : M driver unit :=
  log (EvSleep ms) ;;; advance ms.

(** One call of [get_pagination_state()]: the next observation of the
    page, which takes [obs_cost] milliseconds. *)
Definition get_pagination_state : M driver pagination_state :=
  d <- get ;;
  let o := feed d (polls d) in
  log (EvSnapshot (polls d)) ;;;
  count_poll ;;;
  advance (Z.of_N (obs_cost o)) ;;;
  ret (state_of_page (obs_page o)).

(** [b and a and (a != b)] on one signal. *)
Definition signal_changed (b a : string) : bool :=
  nonempty b && nonempty a && negb (String.eqb a b).

(** The [while time.time() - start < 20] loop; [None]: out of fuel. *)
Fixpoint wait_loop (fuel : nat) (start : Z) (before_state : pagination_state)
  : M driver (option bool) :=
  match fuel with
  | O => ret None
  | S fuel' =>
      now <- time_time ;;
      if now - start <? 20000 then
        time_sleep 600 ;;;
        after_state <- get_pagination_state ;;
        if signal_changed before_state.1.1 after_state.1.1
        then ret (Some true) else
        if signal_changed before_state.1.2 after_state.1.2
        then ret (Some true) else
        if signal_changed before_state.2 after_state.2
        then ret (Some true) else
        wait_loop fuel' start before_state
      else ret (Some false)
  end.

(** The end of [go_to_next_results_page_if_any], after the click: wait up
    to 20 s for a real change of state.  Every turn of the loop takes at
    least 0.6 s, so 35 turns always suffice (see [wait_loop_fuel]). *)
Definition wait_for_page_change (before_state : pagination_state)
  : M driver bool :=
  start <- time_time ;;
  r <- wait_loop 35 start before_state ;;
  match r with
  | Some b => ret b
  | None => ret false
  end.

(** ** safe_click and the ordered locator lists *)

Definition safe_click (loc : locator) : M driver bool :=
  try (el <- element_to_be_clickable loc ;; robust_click el)
  except any_Exception => ret false.


(** The [for loc in sign_in_locators] loop of [part1_login]: the element
    of the first locator that is present and displayed. *)
Fixpoint find_sign_in (locs : list locator) : M driver (option element) :=
  match locs with
  | [] => ret None
  | loc :: rest =>
      r <- (try (el <- presence_of_element_located loc ;;
                 if el_displayed el then ret (Some el) else ret None)
            except is_TimeoutException => ret None) ;;
      match r with
      | Some el => ret (Some el)
      | None => find_sign_in rest
      end
  end.

(** ** part1_login *)

Definition LOGIN_URL : string :=
  "https://nvidia.wd5.myworkdayjobs.com/en-US/NVIDIAExternalCareerSite/login".
Definition ROOT_URL : string :=
  "https://nvidia.wd5.myworkdayjobs.com/en-US/NVIDIAExternalCareerSite".

Record Credentials : Type := { email : string; password : string }.

(** A double quote, and the CSS attribute test [[name="value"]]. *)
Definition dq : string := String (ascii_of_nat 34) EmptyString.
Definition attr (name value : string) : string :=
  "[" +:+ name +:+ "=" +:+ dq +:+ value +:+ dq +:+ "]".

Definition cookie_loc : locator :=
  (XPATH, "//button[contains(., 'Accept') or contains(., 'Accepter')"
          +:+ " or contains(., 'OK')]").
Definition email_loc : locator :=
  (CSS_SELECTOR, "input" +:+ attr "data-automation-id" "email").
Definition pwd_loc : locator :=
  (CSS_SELECTOR, "input" +:+ attr "data-automation-id" "password").
Definition sign_in_locators : list locator :=
  [ (CSS_SELECTOR, "div" +:+ attr "role" "button"
                   +:+ attr "aria-label" "Sign In");
    (XPATH, "//div[@role=" +:+ dq +:+ "button" +:+ dq +:+ " and @aria-label="
            +:+ dq +:+ "Sign In" +:+ dq +:+ "]");
    (CSS_SELECTOR, "div" +:+ attr "data-automation-id" "click_filter"
                   +:+ attr "role" "button" +:+ attr "aria-label" "Sign In");
    (XPATH, "//*[(@role='button') and (@aria-label='Sign In')"
            +:+ " and not(@aria-hidden='true')]") ].

(** [driver.get(url)]: the new page is loaded in the top-level context. *)
Definition driver_get (url : string) : M driver unit :=
  log (EvGet url) ;;; set_context [].

Definition clear (el : element) : M driver unit :=
  log (EvClear (el_id el)) ;;; outcome (typing el).

Definition send_keys (el : element) (text : string) : M driver unit :=
  log (EvType (el_id el) text) ;;; outcome (typing el).

Definition send_keys_ENTER (el : element) : M driver unit :=
  log (EvEnter (el_id el)) ;;; outcome (typing el).

Definition action_chain_space (el : element) : M driver unit :=
  log (EvActionSpace (el_id el)) ;;; outcome (action_space el).

(** [wait.until(EC.url_changes(url))]. *)
Definition wait_url_changes (url : string) : M driver unit :=
  log (EvUrlChanges url) ;;;
  d <- get ;;
  if url_changes d then ret tt else raise TimeoutException.

Definition part1_login (creds : Credentials) : M driver unit :=
  driver_get LOGIN_URL ;;;
  (try (el <- element_to_be_clickable cookie_loc ;; click el)
   except is_TimeoutException => ret tt) ;;;
  switch_to_frame_containing email_loc ;;;
  email_el <- presence_of_element_located email_loc ;;
  clear email_el ;;; send_keys email_el (email creds) ;;;
  pwd_el <- presence_of_element_located pwd_loc ;;
  clear pwd_el ;;; send_keys pwd_el (password creds) ;;;
  (try (send_keys_ENTER pwd_el) except any_Exception => ret tt) ;;;
  sign_el <- find_sign_in sign_in_locators ;;
  match sign_el with
  | None => raise NoSuchElementException
  | Some sign_el =>
      clicked <- robust_click sign_el ;;
      (if clicked then ret tt
       else try (action_chain_space sign_el)
            except any_Exception => raise RuntimeError) ;;;
      (try (wait_url_changes LOGIN_URL)
       except is_TimeoutException => ret tt) ;;;
      switch_to_default_content ;;;
      driver_get ROOT_URL
  end.

End Nvidia.

(** * The IAI bot ([bot_Job_IAI_main.py]) *)

Module IAI.

Definition BASE_LIST_URL : string := "https://jobs.iai.co.il/jobs/?pr=41".
Definition THANK_YOU_PATH : string := "/thank-you/".

(** ** The standard-library functions the script imports

    [urllib.parse.urlparse], [parse_qs], [urlencode], [urlunparse] and the
    builtins [int] and [str] are not code of this repository: the script is
    modelled over any implementation of them.  A query dictionary is an
    association list in insertion order. *)

Record ParseResult : Type := {
  scheme : string;
  netloc : string;
  path : string;
  params : string;
  query : string;
  fragment : string
}.

Class UrlLib : Type := {
  urlparse : string -> result ParseResult;
  parse_qs : string -> result (list (string * list string));
  urlencode : list (string * string) -> result string;
  urlunparse : ParseResult -> string;
  py_int : string -> result Z;
  py_str : Z -> string
}.

(** [d.get(k)], [d[k] = v] and [v[0]]. *)
Fixpoint dict_get {V} (k : string) (d : list (string * V)) : option V :=
  match d with
  | [] => None
  | (k', v) :: rest => if String.eqb k' k then Some v else dict_get k rest
  end.

Fixpoint dict_set {V} (k : string) (v : V) (d : list (string * V))
  : list (string * V) :=
  match d with
  | [] => [(k, v)]
  | (k', v') :: rest =>
      if String.eqb k' k then (k', v) :: rest
      else (k', v') :: dict_set k v rest
  end.

Definition first {A} (l : list A) : result A :=
  match l with
  | x :: _ => Ok x
  | [] => Raise IndexError
  end.

(** [{k: v[0] for k, v in qs.items()}] *)
Fixpoint first_values (qs : list (string * list string))
  : result (list (string * string)) :=
  match qs with
  | [] => Ok []
  | (k, v) :: rest =>
      x <~ first v ;;
      rest' <~ first_values rest ;;
      Ok ((k, x) :: rest')
  end.

(** [try: ... return u  except Exception: return None] *)
Definition or_None {A} (r : result (option A)) : option A :=
  match r with
  | Ok o => o
  | Raise _ => None
  end.

(** ** The browser behind the driver *)

(** A tab as [switch_to.window(h)] and then [current_url] answer. *)
Record tab : Type := {
  handle : string;
  switch_to_window : option exn;
  tab_url : result (option string)
}.

(** What the browser shows at one moment, and how long reading it takes
    (milliseconds). *)
Record view : Type := {
  current_url : result (option string);
  window_handles : result (list tab);
  recaptcha_iframes : result nat;   (* iframe[src*='recaptcha'] found *)
  recaptcha_boxes : result nat;     (* .g-recaptcha, ... found *)
  located : locator -> result nat;  (* what a presence wait answers *)
  current_window_handle : string;
  view_cost : N
}.

Inductive pause : Type := CaptchaPause.

Inductive event : Type :=
  | EvGet (url : string)
  | EvVisited (url : string)          (* visited_urls.add(url) *)
  | EvSleep (ms : Z)
  | EvScrollPage (steps : Z)
  | EvInput (why : pause) (at_moment : nat)
  | EvSwitchWindow (h : string)
  | EvProcessPage (n : nat).

Record bot : Type := {
  start_page : Z;
  max_pages : Z;
  main_handle : option string;
  last_list_url : option string;
  visited_urls : gset string;
  (* the browser *)
  feed : nat -> view;                 (* what it shows at each moment *)
  moment : nat;
  clock : Z;                          (* time.time(), in ms *)
  address : string;                   (* current_url of the list tab *)
  landing : nat -> string -> string;  (* where the n-th driver.get ends *)
  processing : nat -> string -> result string;
                                      (* the n-th page of offers: the list
                                         tab's URL afterwards, or an error *)
  loads : nat;                        (* driver.get calls so far *)
  trace : list event
}.

Definition set_browser (b : bot) (m : nat) (c : Z) (a : string) (n : nat)
    (t : list event) : bot :=
  {| start_page := start_page b; max_pages := max_pages b;
     main_handle := main_handle b; last_list_url := last_list_url b;
     visited_urls := visited_urls b; feed := feed b; moment := m;
     clock := c; address := a; landing := landing b;
     processing := processing b; loads := n; trace := t |}.

Definition set_bot (b : bot) (mh : option string) (l : option string)
    (v : gset string) : bot :=
  {| start_page := start_page b; max_pages := max_pages b;
     main_handle := mh; last_list_url := l; visited_urls := v;
     feed := feed b; moment := moment b; clock := clock b;
     address := address b; landing := landing b;
     processing := processing b; loads := loads b; trace := trace b |}.

Definition log (e : event) : M bot unit :=
  modify (fun b => set_browser b (moment b) (clock b) (address b) (loads b)
                     (trace b ++ [e])).

(** Time passes: the browser moves on to its next moment. *)
Definition elapse (ms : Z) : M bot unit :=
  modify (fun b => set_browser b (S (moment b)) (clock b + ms) (address b)
                     (loads b) (trace b)).

(** Time spent without the page moving on. *)
Definition spend (ms : Z) : M bot unit :=
  modify (fun b => set_browser b (moment b) (clock b + ms) (address b)
                     (loads b) (trace b)).

Definition now_view : M bot view := b <- get ;; ret (feed b (moment b)).

Definition time_time : M bot Z := b <- get ;; ret (clock b).

Definition time_sleep (ms : Z) : M bot unit :=
  log (EvSleep ms) ;;; elapse ms.

(** [input()]: the operator acts, then presses Enter. *)
Definition input (why : pause) : M bot unit :=
  b <- get ;; log (EvInput why (moment b)) ;;; elapse 0.

Definition lift {A} (r : result A) : M bot A :=
  match r with
  | Ok a => ret a
  | Raise e => raise e
  end.

(** [(x or "")] *)
Definition or_blank (o : option string) : string := or_str o EmptyString.

(** ** safe_find *)

Definition wait_presence (loc : locator) : M bot nat :=
  v <- now_view ;; lift (located v loc).

Definition safe_find (loc : locator) : M bot (option nat) :=
  try (el <- wait_presence loc ;; ret (Some el))
  except is_TimeoutException => ret None.

(** ** _wait_for_thank_you_redirect *)

(** The [for h in handles] loop; [true] means the function returned
    [True]. *)
Fixpoint check_tabs (hs : list tab) : M bot bool :=
  match hs with
  | [] => ret false
  | h :: rest =>
      found <- (try (log (EvSwitchWindow (handle h)) ;;;
                     outcome (switch_to_window h) ;;;
                     u <- lift (tab_url h) ;;
                     ret (contains THANK_YOU_PATH (or_blank u)))
                except any_Exception => ret false) ;;
      if found then ret true else check_tabs rest
  end.

(** The body of the [while] loop; [true] means [return True]. *)
Definition poll_thank_you : M bot bool :=
  v <- now_view ;;
  spend (Z.of_N (view_cost v)) ;;;
  try (cur_url <- lift (current_url v) ;;
       if contains THANK_YOU_PATH (or_blank cur_url) then ret true else
       handles <- lift (window_handles v) ;;
       found <- check_tabs handles ;;
       if found then ret true else
       time_sleep 1000 ;;; ret false)
  except any_Exception => (time_sleep 1000 ;;; ret false).

Fixpoint thank_you_loop (fuel : nat) (start max_wait : Z)
  : M bot (option bool) :=
  match fuel with
  | O => ret None
  | S fuel' =>
      now <- time_time ;;
      if now - start <? 1000 * max_wait then
        found <- poll_thank_you ;;
        if found then ret (Some true)
        else thank_you_loop fuel' start max_wait
      else ret (Some false)
  end.

(** Back to the list tab when the wait gave up; the query of the window
    handles, made when the handle of the list tab is known, and the switch
    take the time of reading the view. *)
Definition return_to_main_handle : M bot unit :=
  b <- get ;;
  match main_handle b with
  | None => ret tt
  | Some mh =>
      if negb (nonempty mh) then ret tt else
      v <- now_view ;;
      spend (Z.of_N (view_cost v)) ;;;
      hs <- lift (window_handles v) ;;
      if bool_decide (mh ∈ map handle hs) then
        try (log (EvSwitchWindow mh) ;;;
             match find (fun h => String.eqb (handle h) mh) hs with
             | Some h => outcome (switch_to_window h)
             | None => ret tt
             end)
        except any_Exception => ret tt
      else ret tt
  end.

(** Every turn of the loop that does not return sleeps one second, so
    [max_wait + 1] turns always suffice (see [thank_you_loop_fuel]). *)
Definition _wait_for_thank_you_redirect (max_wait : Z) : M bot bool :=
  start <- time_time ;;
  r <- thank_you_loop (S (Z.to_nat max_wait)) start max_wait ;;
  match r with
  | Some true => ret true
  | _ => return_to_main_handle ;;; ret false
  end.

(** ** _recaptcha_visible *)

Definition _recaptcha_visible : M bot bool :=
  v <- now_view ;;
  try (cur_url <- lift (current_url v) ;;
       if contains THANK_YOU_PATH (or_blank cur_url) then ret false else
       iframes <- lift (recaptcha_iframes v) ;;
       if (0 <? iframes)%nat then ret true else
       boxes <- lift (recaptcha_boxes v) ;;
       ret (0 <? boxes)%nat)
  except any_Exception => ret false.

(** ** _submit_with_captcha_and_wait_thank_you, after the click *)

Definition await_thank_you_after_click (wait_total : Z) : M bot bool :=
  let initial_wait := Z.min 12 wait_total in
  success <- _wait_for_thank_you_redirect initial_wait ;;
  if success then ret true else
  captcha <- _recaptcha_visible ;;
  (if captcha then input CaptchaPause else ret tt) ;;;
  let remaining := Z.max 0 (wait_total - initial_wait) in
  _wait_for_thank_you_redirect remaining.

(** ** goto_list_url and run *)

Definition driver_get (url : string) : M bot unit :=
  log (EvGet url) ;;;
  modify (fun b => set_browser b (S (moment b)) (clock b)
                     (landing b (loads b) url) (S (loads b)) (trace b)).

(** [gentle_scroll_page(steps)]: [steps] scroll scripts, each followed by
    a pause of 0.4 s; the function swallows the driver's errors. *)
Definition gentle_scroll_page (steps : Z) : M bot unit :=
  log (EvScrollPage steps) ;;; spend (400 * steps).

Definition goto_list_url (url : string) : M bot unit :=
  driver_get url ;;;
  v <- now_view ;;
  modify (fun b => set_bot b (Some (current_window_handle v))
                     (last_list_url b) (visited_urls b)) ;;;
  safe_find (CSS_SELECTOR, ".vue-jobs .jobs-wrap"%string) ;;;
  gentle_scroll_page 8 ;;;
  b <- get ;;
  log (EvVisited (address b)) ;;;
  modify (fun b => set_bot b (main_handle b) (Some (address b))
                     ({[ address b ]} ∪ visited_urls b)).

(** [scrape_jobs_on_page] then [apply_to_jobs_on_page]: the offers of the
    page are handled in other tabs; the run loop sees only the list tab's
    URL afterwards (or the error that escaped). *)
Definition process_page : M bot unit :=
  b <- get ;;
  log (EvProcessPage (loads b)) ;;;
  a <- lift (processing b (loads b) (address b)) ;;
  modify (fun b => set_browser b (S (moment b)) (clock b) a (loads b)
                     (trace b)).

(** ["/jobs/" in u and "pr=41" in u] *)
Definition is_list_url (u : string) : bool :=
  contains "/jobs/" u && contains "pr=41" u.

Inductive stop : Type := NoNextUrl | PageLimit | AlreadyVisited.

Section WithUrlLib.
Context `{UrlLib}.

Definition compute_next_list_url (current_url : string) : option string :=
  or_None
    (parsed <~ urlparse current_url ;;
     base <~ urlparse BASE_LIST_URL ;;
     if negb (String.eqb (netloc parsed) (netloc base)) then Ok None else
     if negb (String.eqb (path parsed) "/jobs/") then Ok None else
     qs <~ parse_qs (query parsed) ;;
     pr <~ match dict_get "pr" qs with
           | Some v => x <~ first v ;; Ok (Some x)
           | None => Ok None
           end ;;
     if negb (bool_decide (pr = Some "41"%string)) then Ok None else
     match
       match dict_get "pg" qs with
       | None => Some 2
       | Some v =>
           match (s <~ first v ;; py_int s) with
           | Raise _ => None
           | Ok x => if (x <? 1) || (x >? 1000) then None else Some (x + 1)
           end
       end
     with
     | None => Ok None
     | Some next_pg =>
         let qs' := dict_set "pg" [py_str next_pg] qs in
         d <~ first_values qs' ;;
         new_query <~ urlencode d ;;
         Ok (Some (urlunparse
                     {| scheme := scheme parsed; netloc := netloc parsed;
                        path := path parsed; params := EmptyString;
                        query := new_query; fragment := EmptyString |}))
     end).

(** The [while True] loop of [run]; [None]: still running when the fuel
    ran out. *)
Fixpoint run_loop (fuel : nat) : M bot (option stop) :=
  match fuel with
  | O => ret None
  | S fuel' =>
      process_page ;;;
      b <- get ;;
      let cur_url := address b in
      match compute_next_list_url cur_url with
      | None => ret (Some NoNextUrl)
      | Some next_url =>
          if negb (nonempty next_url) then ret (Some NoNextUrl) else
          let pages_done :=
            Z.of_nat (size (filter (fun u => is_list_url u = true)
                              (visited_urls b))) in
          if (max_pages b >? 0)
             && (pages_done >=? max_pages b + (start_page b - 1))
          then ret (Some PageLimit) else
          if bool_decide (next_url ∈ visited_urls b)
          then ret (Some AlreadyVisited) else
          modify (fun b => set_bot b (main_handle b) (Some next_url)
                             (visited_urls b)) ;;;
          goto_list_url next_url ;;;
          run_loop fuel'
      end
  end.

(** [IAIApplicationBot(start_page, max_pages)] in front of a browser. *)
Definition IAIApplicationBot (start max : Z) (browser : bot) : bot :=
  {| start_page := Z.max 1 start; max_pages := Z.max 0 max;
     main_handle := None; last_list_url := None; visited_urls := ∅;
     feed := feed browser; moment := moment browser; clock := clock browser;
     address := address browser; landing := landing browser;
     processing := processing browser; loads := loads browser;
     trace := trace browser |}.

Definition run (fuel : nat) : M bot (option stop) :=
  b <- get ;;
  let initial_url :=
    if start_page b <=? 1 then BASE_LIST_URL
    else BASE_LIST_URL +:+ "&pg=" +:+ py_str (start_page b) in
  goto_list_url initial_url ;;;
  run_loop fuel.

End WithUrlLib.

End IAI.

(** * Properties of the Workday bot *)

Module NvidiaSpec.
Import Nvidia.

(** *** Scoped frame search *)

(** Does the document at [path] hold an element for [loc]? *)
Definition holds (dm : frame) (loc : locator) (path : list nat) : bool :=
  match frame_at dm path with
  | Some f => match content f loc with Some _ => true | None => false end
  | None => false
  end.

(** The [i]-th top-level iframe, then its own iframes. *)
Definition below (dm : frame) (i : nat) : list (list nat) :=
  [i] :: match subframes dm !! i with
         | Some g => map (fun j => [i; j]) (seq 0 (length (subframes g)))
         | None => []
         end.

(** The contexts in the order the code visits them: the top-level
    document, then each iframe followed at once by its own iframes. *)
Definition search_order (dm : frame) : list (list nat) :=
  [] :: flat_map (below dm) (seq 0 (length (subframes dm))).

(** The order the specification words describe: level by level. *)
Definition breadth_first_order (dm : frame) : list (list nat) :=
  [] :: map (fun i => [i]) (seq 0 (length (subframes dm)))
     ++ flat_map (fun i => tail (below dm i)) (seq 0 (length (subframes dm))).

(** The calls one attempt makes: back to the top-level document, down the
    path, one wait. *)
Definition probe (loc : locator) (path : list nat) : list event :=
  EvSwitchDefault :: map EvSwitchFrame path ++ [EvWait path loc].

Definition first_holding (dm : frame) (loc : locator)
    (order : list (list nat)) : option (nat * list nat) :=
  find_first (holds dm loc) order.

Lemma probe_depth1 {A} (k : M driver A) (d : driver) (f1 : nat) (g : frame) :
  subframes (dom d) !! f1 = Some g ->
  (switch_to_default_content ;;; switch_to_frame f1 ;;; k) d
  = k (upd d [f1] (trace d ++ [EvSwitchDefault; EvSwitchFrame f1])).
Proof.
  intros Hg. destruct d as [dm uc cx fd pl ck tr]; simpl in *.
  unfold bind, switch_to_default_content, switch_to_frame, log, set_context,
    modify, get, bind, upd; simpl.
  rewrite Hg; simpl. rewrite <- (assoc_L (++)). reflexivity.
Qed.

Lemma probe_depth2 {A} (k : M driver A) (d : driver) (f1 f2 : nat)
    (g h : frame) :
  subframes (dom d) !! f1 = Some g ->
  subframes g !! f2 = Some h ->
  (switch_to_default_content ;;; switch_to_frame f1 ;;;
   switch_to_frame f2 ;;; k) d
  = k (upd d [f1; f2]
         (trace d ++ [EvSwitchDefault; EvSwitchFrame f1; EvSwitchFrame f2])).
Proof.
  intros Hg Hh. destruct d as [dm uc cx fd pl ck tr]; simpl in *.
  unfold bind, switch_to_default_content, switch_to_frame, log, set_context,
    modify, get, bind, upd; simpl.
  rewrite Hg; simpl. rewrite Hg, Hh; simpl.
  rewrite <- !(assoc_L (++)). reflexivity.
Qed.

Lemma try_presence {A} (loc : locator) (h : M driver bool)
    (k : bool -> M driver A) (d : driver) (f : frame) :
  current_frame d = Some f ->
  (found <- (try (presence_of_element_located loc ;;; ret true)
             except is_TimeoutException => h) ;; k found) d
  = match content f loc with
    | Some _ =>
        k true (upd d (context d) (trace d ++ [EvWait (context d) loc]))
    | None =>
        (found <- h ;; k found)
          (upd d (context d) (trace d ++ [EvWait (context d) loc]))
    end.
Proof.
  intros Hf. destruct d as [dm uc cx fd pl ck tr].
  unfold current_frame in Hf; simpl in *.
  unfold bind, try_except, presence_of_element_located, log, modify, get,
    bind, current_frame, upd; simpl.
  rewrite Hf. destruct (content f loc); reflexivity.
Qed.

Lemma bind_ret {S A B} (a : A) (k : A -> M S B) (s : S) :
  (x <- ret a ;; k x) s = k a s.
Proof. reflexivity. Qed.

Lemma upd_same (d : driver) : upd d (context d) (trace d ++ []) = d.
Proof. destruct d; unfold upd; simpl. by rewrite app_nil_r. Qed.

Lemma first_holding_cons dm loc p ps :
  first_holding dm loc (p :: ps)
  = if holds dm loc p then Some (0%nat, p)
    else match first_holding dm loc ps with
         | Some (k, q) => Some (S k, q)
         | None => None
         end.
Proof. reflexivity. Qed.

Lemma search_f2_run (loc : locator) (f1 : nat) (g : frame) (f2s : list nat) :
  forall d : driver,
    subframes (dom d) !! f1 = Some g ->
    Forall (fun j => (j < length (subframes g))%nat) f2s ->
    exists c,
      search_f2 loc f1 f2s d =
        match first_holding (dom d) loc (map (fun j => [f1; j]) f2s) with
        | Some (k, path) =>
            (Ok true,
             upd d path
               (trace d ++ flat_map (probe loc)
                             (take (S k) (map (fun j => [f1; j]) f2s))))
        | None =>
            (Ok false,
             upd d c
               (trace d ++ flat_map (probe loc) (map (fun j => [f1; j]) f2s)))
        end.
Proof.
  induction f2s as [|f2 rest IH]; intros d Hg Hall.
  - exists (context d). simpl. unfold ret. by rewrite upd_same.
  - apply Forall_cons in Hall as [Hf2 Hrest].
    destruct (lookup_lt_is_Some_2 (subframes g) f2 Hf2) as [h Hh].
    cbn [search_f2 map]. rewrite (probe_depth2 _ d f1 f2 g h Hg Hh).
    rewrite first_holding_cons.
    set (d1 := upd d [f1; f2] _).
    assert (Hcur : current_frame d1 = Some h).
    { unfold current_frame, d1; simpl. by rewrite Hg, Hh. }
    rewrite (try_presence loc _ _ d1 h Hcur).
    unfold holds; simpl. rewrite Hg, Hh.
    destruct (content h loc) as [el|].
    + exists []. unfold ret, d1, upd, probe; simpl.
      rewrite ?app_nil_r, <- ?(assoc_L (++)). reflexivity.
    + destruct (IH (upd d1 (context d1)
                      (trace d1 ++ [EvWait (context d1) loc])))
        as [c Hc]; [done|done|].
      exists c. rewrite bind_ret. cbv iota.
      simpl in Hc. rewrite Hc. clear Hc IH.
      destruct (first_holding (dom d) loc (map (fun j => [f1; j]) rest))
        as [[k path]|]; simpl; unfold upd, probe; simpl;
        rewrite <- !(assoc_L (++)); reflexivity.
Qed.

Lemma first_holding_app dm loc l1 l2 :
  first_holding dm loc (l1 ++ l2)
  = match first_holding dm loc l1 with
    | Some r => Some r
    | None =>
        match first_holding dm loc l2 with
        | Some (k, q) => Some ((length l1 + k)%nat, q)
        | None => None
        end
    end.
Proof. apply find_first_app. Qed.

Lemma first_holding_lt dm loc l k p :
  first_holding dm loc l = Some (k, p) -> (k < length l)%nat.
Proof.
  intros H. apply find_first_Some in H as (H & _ & _).
  by apply lookup_lt_Some in H.
Qed.

Lemma find_iframes_run {A} (k : list nat -> M driver A) (d : driver)
    (f : frame) :
  current_frame d = Some f ->
  (fs <- find_iframes ;; k fs) d = k (seq 0 (length (subframes f))) d.
Proof.
  intros Hf. unfold bind, find_iframes, get, bind; simpl. by rewrite Hf.
Qed.

Lemma seq_below_length (n : nat) : 
  Forall (fun j => (j < n)%nat) (seq 0 n).
Proof. apply Forall_forall. intros j Hj. apply elem_of_seq in Hj. lia. Qed.

Lemma search_f1_run (loc : locator) (f1s : list nat) :
  forall d : driver,
    Forall (fun i => (i < length (subframes (dom d)))%nat) f1s ->
    exists c,
      search_f1 loc f1s d =
        match first_holding (dom d) loc (flat_map (below (dom d)) f1s) with
        | Some (k, path) =>
            (Ok true,
             upd d path
               (trace d ++ flat_map (probe loc)
                             (take (S k) (flat_map (below (dom d)) f1s))))
        | None =>
            (Ok false,
             upd d c
               (trace d ++ flat_map (probe loc)
                             (flat_map (below (dom d)) f1s)))
        end.
Proof.
  induction f1s as [|f1 rest IH]; intros d Hall.
  - exists (context d). simpl. unfold ret. by rewrite upd_same.
  - apply Forall_cons in Hall as [Hf1 Hrest].
    destruct (lookup_lt_is_Some_2 (subframes (dom d)) f1 Hf1) as [g Hg].
    cbn [search_f1 flat_map]. rewrite (probe_depth1 _ d f1 g Hg).
    set (d1 := upd d [f1] _).
    assert (Hcur : current_frame d1 = Some g).
    { unfold current_frame, d1; simpl. by rewrite Hg. }
    rewrite (try_presence loc _ _ d1 g Hcur).
    unfold below at 1 3 5. rewrite Hg.
    set (inner := map (fun j => [f1; j]) (seq 0 (length (subframes g)))).
    change (([f1] :: inner) ++ flat_map (below (dom d)) rest)
      with ([f1] :: (inner ++ flat_map (below (dom d)) rest)).
    rewrite first_holding_cons. unfold holds at 1; simpl frame_at.
    rewrite Hg. destruct (content g loc) as [el|].
    + exists []. unfold ret, d1, upd, probe; simpl.
      rewrite <- ?(assoc_L (++)). reflexivity.
    + set (d2 := upd d1 _ _).
      assert (Hcur2 : current_frame d2 = Some g).
      { unfold current_frame, d2, d1; simpl. by rewrite Hg. }
      unfold bind at 1. rewrite (find_iframes_run _ d2 g Hcur2).
      destruct (search_f2_run loc f1 g (seq 0 (length (subframes g))) d2)
        as [c2 Hc2]; [done|apply seq_below_length|].
      rewrite Hc2. fold inner. change (dom d2) with (dom d).
      rewrite first_holding_app.
      destruct (first_holding (dom d) loc inner) as [[k path]|] eqn:Hin.
      * exists []. simpl.
        apply first_holding_lt in Hin.
        rewrite take_app_le by lia.
        unfold ret, d2, d1, upd, probe; simpl.
        rewrite <- ?(assoc_L (++)). reflexivity.
      * destruct (IH (upd d2 c2 (trace d2 ++ flat_map (probe loc) inner)))
          as [c Hc]; [done|].
        exists c. cbv iota. simpl in Hc. simpl. rewrite Hc. clear Hc IH.
        destruct (first_holding (dom d) loc (flat_map (below (dom d)) rest))
          as [[k path]|]; simpl.
        -- replace (S (length inner + k)) with (length inner + S k)%nat by lia.
           rewrite take_app_add.
           unfold upd, probe; simpl.
           rewrite !flat_map_app, <- ?(assoc_L (++)). reflexivity.
        -- unfold upd, probe; simpl.
           rewrite !flat_map_app, <- ?(assoc_L (++)). reflexivity.
Qed.

Lemma probe_depth0 {A} (k : M driver A) (d : driver) :
  (switch_to_default_content ;;; k) d
  = k (upd d [] (trace d ++ [EvSwitchDefault])).
Proof. reflexivity. Qed.

(** What [switch_to_frame_containing] does on every document. *)
Lemma switch_to_frame_containing_run (loc : locator) (d : driver) :
  switch_to_frame_containing loc d =
    match first_holding (dom d) loc (search_order (dom d)) with
    | Some (k, path) =>
        (Ok tt,
         upd d path
           (trace d ++ flat_map (probe loc)
                         (take (S k) (search_order (dom d)))))
    | None =>
        (Raise NoSuchElementException,
         upd d []
           (trace d ++ flat_map (probe loc) (search_order (dom d))
                   ++ [EvSwitchDefault]))
    end.
Proof.
  unfold switch_to_frame_containing, search_order.
  rewrite probe_depth0. set (d1 := upd d [] _).
  assert (Hcur : current_frame d1 = Some (dom d)) by reflexivity.
  rewrite (try_presence loc _ _ d1 (dom d) Hcur).
  rewrite first_holding_cons. unfold holds at 1; simpl frame_at.
  destruct (content (dom d) loc) as [el|] eqn:Hel; simpl in Hel; rewrite ?Hel.
  - unfold ret, d1, upd, probe; simpl.
    rewrite <- ?(assoc_L (++)). reflexivity.
  - rewrite bind_ret. cbv iota. set (d2 := upd d1 _ _).
    assert (Hcur2 : current_frame d2 = Some (dom d)) by reflexivity.
    rewrite (find_iframes_run _ d2 (dom d) Hcur2).
    destruct (search_f1_run loc (seq 0 (length (subframes (dom d)))) d2)
      as [c Hc]; [apply seq_below_length|].
    change (dom d2) with (dom d) in Hc.
    unfold bind at 1. rewrite Hc.
    destruct (first_holding (dom d) loc
                (flat_map (below (dom d)) (seq 0 (length (subframes (dom d))))))
      as [[k path]|]; simpl.
    + unfold ret, upd, probe; simpl. rewrite <- ?(assoc_L (++)). reflexivity.
    + rewrite probe_depth0. unfold raise, upd, probe; simpl.
      rewrite <- ?(assoc_L (++)). reflexivity.
Qed.

Lemma elem_of_flat_map {A B} (f : A -> list B) (l : list A) (y : B) :
  y ∈ flat_map f l <-> exists x, x ∈ l /\ y ∈ f x.
Proof.
  rewrite list_elem_of_In, in_flat_map.
  split; intros (x & H1 & H2); exists x; by rewrite ?list_elem_of_In in *.
Qed.

(** [search_order] lists exactly the contexts nested at most two deep. *)
Lemma search_order_complete (dm : frame) (path : list nat) :
  path ∈ search_order dm <->
  (length path <= 2)%nat /\ is_Some (frame_at dm path).
Proof.
  unfold search_order. rewrite elem_of_cons. split.
  - intros [->|Hin]; [split; [simpl; lia | by eexists]|].
    apply elem_of_flat_map in Hin as (i & Hi & Hin).
    apply elem_of_seq in Hi. unfold below in Hin.
    destruct (lookup_lt_is_Some_2 (subframes dm) i) as [g Hg]; [lia|].
    rewrite Hg in Hin. apply elem_of_cons in Hin as [->|Hin].
    + split; [simpl; lia|]. simpl. rewrite Hg. by eexists.
    + apply list_elem_of_fmap in Hin as (j & -> & Hj).
      apply elem_of_seq in Hj.
      destruct (lookup_lt_is_Some_2 (subframes g) j) as [h Hh]; [lia|].
      split; [simpl; lia|]. simpl. rewrite Hg, Hh. by eexists.
  - intros [Hlen [f Hf]].
    destruct path as [|i [|j [|? ?]]]; [by left| | |simpl in Hlen; lia].
    + right. simpl in Hf. destruct (subframes dm !! i) as [g|] eqn:Hg; [|done].
      apply elem_of_flat_map. exists i. split.
      * apply elem_of_seq. apply lookup_lt_Some in Hg. lia.
      * unfold below. left.
    + right. simpl in Hf. destruct (subframes dm !! i) as [g|] eqn:Hg; [|done].
      destruct (subframes g !! j) as [h|] eqn:Hh; [|done].
      apply elem_of_flat_map. exists i. split.
      * apply elem_of_seq. apply lookup_lt_Some in Hg. lia.
      * unfold below. rewrite Hg. right.
        apply list_elem_of_fmap. exists j. split; [done|].
        apply elem_of_seq. apply lookup_lt_Some in Hh. lia.
Qed.

(** C4 (amended).  The search looks in the top-level document first and
    descends only when the target is not there; it visits exactly the
    contexts nested at most two deep, in depth-first order (each top-level
    iframe is followed at once by its own iframes, before the next
    top-level iframe); every attempt starts by going back to the top-level
    document; the search stops in the first context of that order that
    holds the target, and it raises [NoSuchElementException], back in the
    top-level document, exactly when no context up to depth 2 holds it. *)
Theorem frame_search_depth_first (loc : locator) (d : driver) :
  head (search_order (dom d)) = Some []
  /\ (forall path, path ∈ search_order (dom d) <->
                   (length path <= 2)%nat /\ is_Some (frame_at (dom d) path))
  /\ switch_to_frame_containing loc d =
       match first_holding (dom d) loc (search_order (dom d)) with
       | Some (k, path) =>
           (Ok tt,
            upd d path
              (trace d ++ flat_map (probe loc)
                            (take (S k) (search_order (dom d)))))
       | None =>
           (Raise NoSuchElementException,
            upd d []
              (trace d ++ flat_map (probe loc) (search_order (dom d))
                      ++ [EvSwitchDefault]))
       end
  /\ (fst (switch_to_frame_containing loc d) = Raise NoSuchElementException
      <-> forall path, (length path <= 2)%nat ->
                       holds (dom d) loc path = false).
Proof.
  split; [reflexivity|]. split; [apply search_order_complete|].
  split; [apply switch_to_frame_containing_run|].
  rewrite switch_to_frame_containing_run.
  destruct (first_holding (dom d) loc (search_order (dom d)))
    as [[k path]|] eqn:Hfind; simpl.
  - split; [done|]. intros Hnone.
    apply find_first_Some in Hfind as (Hk & Hp & _).
    apply list_elem_of_lookup_2 in Hk.
    apply search_order_complete in Hk as [Hlen _].
    rewrite (Hnone path Hlen) in Hp. done.
  - split; [|done]. intros _ path Hlen.
    destruct (holds (dom d) loc path) eqn:Hh; [|done].
    unfold first_holding in Hfind.
    rewrite find_first_None in Hfind. rewrite Hfind in Hh; [done|].
    apply search_order_complete. split; [done|].
    unfold holds in Hh. destruct (frame_at (dom d) path); [by eexists|done].
Qed.

(** *** A concrete browser *)

Definition plain_element (n : nat) : element :=
  {| el_id := n; el_displayed := true; el_enabled := true;
     native_click := None; scroll_center := None; js_click := None;
     action_click := None; typing := None; action_space := None |}.

Definition nothing : locator -> option element := fun _ => None.

Definition only (loc : locator) (el : element) : locator -> option element :=
  fun l => if decide (l = loc) then Some el else None.

Definition blank_page : page :=
  {| navs := Ok []; job_out_of_text := Raise NoSuchElementException;
     job_links := Ok [] |}.

Definition browser (dm : frame) : driver :=
  {| dom := dm; url_changes := false; context := [];
     feed := fun _ => {| obs_page := blank_page; obs_cost := 0 |};
     polls := 0; clock := 0; trace := [] |}.

(** The login form sits two levels deep in the first iframe and also
    directly in the second iframe. *)
Definition nested_site : frame :=
  Frame nothing
    [ Frame nothing [ Frame (only email_loc (plain_element 7)) [] ];
      Frame (only email_loc (plain_element 8)) [] ].

(** C4 (counterexample).  Level by level, the second top-level iframe
    would be reached before anything nested two deep; the code ends in the
    iframe nested inside the first one and never looks into the second. *)
Lemma frame_search_is_not_breadth_first :
  first_holding nested_site email_loc (breadth_first_order nested_site)
    = Some (2%nat, [1%nat])
  /\ fst (switch_to_frame_containing email_loc (browser nested_site)) = Ok tt
  /\ context (snd (switch_to_frame_containing email_loc (browser nested_site)))
     = [0%nat; 0%nat]
  /\ trace (snd (switch_to_frame_containing email_loc (browser nested_site)))
     = [ EvSwitchDefault; EvWait [] email_loc;
         EvSwitchDefault; EvSwitchFrame 0; EvWait [0%nat] email_loc;
         EvSwitchDefault; EvSwitchFrame 0; EvSwitchFrame 0;
         EvWait [0%nat; 0%nat] email_loc ].
Proof. vm_compute. repeat split. Qed.

(** The calls [robust_click] makes, as a function of the element's
    answers. *)
Definition calls_of (el : element) : list event :=
  EvNativeClick (el_id el) ::
  (if stage_ok el Native then [] else
     EvScroll (el_id el) ::
     (if bool_decide (scroll_center el = None)
      then [EvJsClick (el_id el)] else []) ++
     (if stage_ok el Synthetic then [] else [EvActionChain (el_id el)])).

Lemma robust_click_run (el : element) (d : driver) :
  robust_click el d =
    (Ok (stage_ok el Native || stage_ok el Synthetic || stage_ok el Pointer),
     with_trace d (trace d ++ calls_of el)).
Proof.
  destruct d as [dm uc cx fd pl ck tr], el as [i dsp en n sc js ac ty sp].
  unfold robust_click, with_trace, calls_of; simpl.
  destruct n, sc, js, ac; cbn; rewrite <- ?(assoc_L (++)); reflexivity.
Qed.

Local Ltac decide_stages :=
  simpl; rewrite ?Forall_cons, ?Forall_nil, ?elem_of_cons, ?elem_of_nil;
  intuition congruence.

(** C3.  Whatever the element answers to each way of clicking it,
    [robust_click] never raises; the calls it makes are, in this order, a
    selection of native click, scroll-into-center, synthetic click and
    pointer sequence; a stage is attempted exactly when every earlier
    stage failed (so none is attempted after a success); the result is
    [True] exactly when some stage succeeds and [False] exactly when all
    three fail. *)
Theorem robust_click_fallback_chain (el : element) (d : driver) :
  exists (b : bool) (new : list event),
    robust_click el d = (Ok b, with_trace d (trace d ++ new))
    /\ sublist new [EvNativeClick (el_id el); EvScroll (el_id el);
                    EvJsClick (el_id el); EvActionChain (el_id el)]
    /\ (forall s, attempted new el s = true <->
                  forall s', s' ∈ earlier s -> stage_ok el s' = false)
    /\ (b = true <-> exists s, stage_ok el s = true)
    /\ (b = false <-> forall s, stage_ok el s = false).
Proof.
  eexists; eexists; split; [apply robust_click_run|].
  unfold calls_of, attempted, stage_ok, stage_mark.
  destruct (native_click el), (scroll_center el), (js_click el),
    (action_click el); simpl.
  all: split;
    [repeat first [apply sublist_nil | apply sublist_skip
                  | apply sublist_cons]|].
  all: split;
    [intros s; rewrite bool_decide_eq_true, <- Forall_forall;
     destruct s; decide_stages|].
  all: split; split.
  all: try done.
  all: try (intros [[] H]; simpl in H; done).
  all: try (intros _; first [by exists Native | by exists Synthetic
                            | by exists Pointer]).
  all: try (intros _ []; done).
  all: try (intros H; pose proof (H Native); pose proof (H Synthetic);
            pose proof (H Pointer); done).
Qed.

(** *** Ordered locator lists *)

(** The element a presence wait finds in the current document. *)
Definition lookup_el (d : driver) (loc : locator) : option element :=
  match current_frame d with
  | Some f => content f loc
  | None => None
  end.


Definition click_goes_through (el : element) : bool :=
  stage_ok el Native || stage_ok el Synthetic || stage_ok el Pointer.

(** The locator resolves to a clickable element and the click goes
    through. *)
Definition safe_click_succeeds (d : driver) (loc : locator) : bool :=
  match lookup_el d loc with
  | Some el => el_displayed el && el_enabled el && click_goes_through el
  | None => false
  end.

Definition is_wait (e : event) : bool :=
  match e with EvWait _ _ => true | _ => false end.

(** The locators a list was asked for, in order. *)
Definition waits (new : list event) : list event := List.filter is_wait new.




Lemma waits_calls_of (el : element) : waits (calls_of el) = [].
Proof.
  unfold calls_of, stage_ok.
  destruct (native_click el), (scroll_center el), (js_click el); reflexivity.
Qed.


Lemma safe_click_run (loc : locator) (d : driver) :
  exists new,
    safe_click loc d =
      (Ok (safe_click_succeeds d loc),
       with_trace d (trace d ++ EvWait (context d) loc :: new))
    /\ waits new = [].
Proof.
  destruct d as [dm uc cx fd pl ck tr].
  unfold safe_click, safe_click_succeeds, lookup_el, try_except, bind,
    element_to_be_clickable, get, bind, log, modify, current_frame; simpl.
  destruct (frame_at dm cx) as [f|]; [|by exists []].
  destruct (content f loc) as [el|]; [|by exists []].
  destruct (el_displayed el && el_enabled el) eqn:Hok; simpl;
    [|by exists []].
  unfold ret at 1; simpl. rewrite robust_click_run; simpl.
  exists (calls_of el). split; [|apply waits_calls_of].
  unfold with_trace; simpl. rewrite <- (assoc_L (++)). reflexivity.
Qed.










(** *** The convergence wait *)

(** Some signal, non-empty on both sides, differs. *)
Definition changed (b a : pagination_state) : bool :=
  signal_changed b.1.1 a.1.1 || signal_changed b.1.2 a.1.2
  || signal_changed b.2 a.2.

(** What the [k]-th poll from now will see. *)
Definition snapshot_at (d : driver) (k : nat) : pagination_state :=
  state_of_page (obs_page (feed d (polls d + k))).

(** Time from now until the loop condition is evaluated for the [k]-th
    time ([k = 0]: at once): each turn sleeps 0.6 s and then takes the
    time of its snapshot. *)
Fixpoint elapsed (d : driver) (k : nat) : Z :=
  match k with
  | O => 0
  | S k' => elapsed d k' + 600 + Z.of_N (obs_cost (feed d (polls d + k')))
  end.

(** The driver after one turn of the loop, and after [k] turns. *)
Definition after_poll (d : driver) : driver :=
  {| dom := dom d; url_changes := url_changes d; context := context d;
     feed := feed d; polls := S (polls d);
     clock := clock d + 600 + Z.of_N (obs_cost (feed d (polls d)));
     trace := trace d ++ [EvSleep 600; EvSnapshot (polls d)] |}.

Fixpoint after_polls (d : driver) (k : nat) : driver :=
  match k with
  | O => d
  | S k' => after_polls (after_poll d) k'
  end.

Lemma wait_loop_step (fuel : nat) (start : Z) (before : pagination_state)
    (d : driver) :
  wait_loop (S fuel) start before d =
    if clock d - start <? 20000 then
      if changed before (snapshot_at d 0)
      then (Ok (Some true), after_poll d)
      else wait_loop fuel start before (after_poll d)
    else (Ok (Some false), d).
Proof.
  destruct d as [dm uc cx fd pl ck tr]. destruct before as [[b1 b2] b3].
  cbn [wait_loop]. unfold changed, snapshot_at, after_poll; simpl.
  unfold bind at 1, time_time, get, bind at 1, ret at 1; simpl.
  destruct (ck - start <? 20000); [|reflexivity].
  unfold bind, time_sleep, get_pagination_state, log, advance, count_poll,
    modify, get, bind, ret; simpl.
  rewrite Nat.add_0_r, <- !(assoc_L (++)), <- Z.add_assoc; simpl.
  destruct (signal_changed b1 _); [reflexivity|].
  destruct (signal_changed b2 _); [reflexivity|].
  destruct (signal_changed b3 _); reflexivity.
Qed.

Lemma elapsed_nonneg (d : driver) (k : nat) : 0 <= elapsed d k.
Proof. induction k; simpl; lia. Qed.

Lemma elapsed_mono (d : driver) (j k : nat) :
  (j <= k)%nat -> elapsed d j <= elapsed d k.
Proof. induction 1; simpl; lia. Qed.

Lemma elapsed_lower (d : driver) (k : nat) : 600 * Z.of_nat k <= elapsed d k.
Proof. induction k; simpl; lia. Qed.

Lemma elapsed_shift (d : driver) (k : nat) :
  elapsed d (S k)
  = 600 + Z.of_N (obs_cost (feed d (polls d))) + elapsed (after_poll d) k.
Proof.
  induction k as [|k IH].
  - simpl. rewrite Nat.add_0_r. lia.
  - change (elapsed d (S (S k)))
      with (elapsed d (S k) + 600
            + Z.of_N (obs_cost (feed d (polls d + S k)))).
    rewrite IH. simpl. rewrite Nat.add_succ_r. lia.
Qed.

Lemma snapshot_shift (d : driver) (k : nat) :
  snapshot_at (after_poll d) k = snapshot_at d (S k).
Proof. unfold snapshot_at; simpl. by rewrite Nat.add_succ_r. Qed.

Lemma clock_after_polls (d : driver) (k : nat) :
  clock (after_polls d k) = clock d + elapsed d k.
Proof.
  revert d. induction k as [|k IH]; intros d.
  - simpl. lia.
  - cbn [after_polls]. rewrite IH, elapsed_shift. simpl. lia.
Qed.

(** How the loop ends, given enough fuel: either on the first poll that
    sees a change within the budget, or at the first loop test at or
    past the budget, no poll before it having seen a change. *)
Lemma wait_loop_total (start : Z) (before : pagination_state) :
  forall (fuel : nat) (d : driver),
    0 <= clock d - start ->
    (0 < fuel)%nat ->
    20000 - (clock d - start) <= 600 * (Z.of_nat fuel - 1) ->
    (exists k,
        wait_loop fuel start before d = (Ok (Some true), after_polls d (S k))
        /\ clock d - start + elapsed d k < 20000
        /\ changed before (snapshot_at d k) = true
        /\ forall j, (j < k)%nat -> changed before (snapshot_at d j) = false)
    \/ (exists k,
        wait_loop fuel start before d = (Ok (Some false), after_polls d k)
        /\ 20000 <= clock d - start + elapsed d k
        /\ (forall j, (j < k)%nat ->
              clock d - start + elapsed d j < 20000
              /\ changed before (snapshot_at d j) = false)).
Proof.
  induction fuel as [|fuel IH]; intros d Hpos Hone Hfuel; [lia|].
  rewrite wait_loop_step.
  destruct (clock d - start <? 20000) eqn:Hin.
  - apply Z.ltb_lt in Hin.
    destruct (changed before (snapshot_at d 0)) eqn:Hch.
    + left. exists 0%nat. simpl.
      split; [reflexivity|]. split; [lia|]. split; [done|].
      intros j Hj. lia.
    + destruct (IH (after_poll d)) as [(k & Hrun & Hk & Hchk & Hmin)
                                     |(k & Hrun & Hk & Hmin)].
      * simpl. lia.
      * lia.
      * simpl. lia.
      * left. exists (S k). rewrite Hrun. split; [reflexivity|].
        rewrite elapsed_shift. simpl in Hk.
        rewrite snapshot_shift in Hchk.
        split; [lia|]. split; [done|].
        intros [|j] Hj; [done|]. rewrite <- snapshot_shift. apply Hmin. lia.
      * right. exists (S k). rewrite Hrun. split; [reflexivity|].
        rewrite elapsed_shift. simpl in Hk. split; [lia|].
        intros [|j] Hj.
        -- simpl. split; [lia|done].
        -- destruct (Hmin j ltac:(lia)) as [H1 H2].
           rewrite elapsed_shift, <- snapshot_shift. simpl in H1.
           split; [lia|done].
  - apply Z.ltb_ge in Hin. right. exists 0%nat. simpl.
    split; [reflexivity|]. split; [lia|]. intros j Hj. lia.
Qed.

(** 35 turns of fuel are never used up. *)
Lemma wait_loop_fuel (before : pagination_state) (d : driver) :
  exists r d', wait_loop 35 (clock d) before d = (Ok (Some r), d').
Proof.
  destruct (wait_loop_total (clock d) before 35 d)
    as [(k & Hrun & _)|(k & Hrun & _)]; [lia..| |]; by eexists _, _.
Qed.

Lemma wait_for_page_change_unfold (before : pagination_state) (d : driver) :
  wait_for_page_change before d =
    match wait_loop 35 (clock d) before d with
    | (Ok (Some b), d') => (Ok b, d')
    | (Ok None, d') => (Ok false, d')
    | (Raise e, d') => (Raise e, d')
    end.
Proof.
  unfold wait_for_page_change, bind, time_time, get, bind, ret. cbv beta.
  generalize (wait_loop 35 (clock d) before d).
  intros [[[b|]|e] d']; reflexivity.
Qed.

(** The wait itself: 35 turns are enough, so it always returns. *)
Lemma wait_for_page_change_total (before : pagination_state) (d : driver) :
  (exists k,
      wait_for_page_change before d = (Ok true, after_polls d (S k))
      /\ elapsed d k < 20000
      /\ changed before (snapshot_at d k) = true
      /\ forall j, (j < k)%nat -> changed before (snapshot_at d j) = false)
  \/ (exists k,
      wait_for_page_change before d = (Ok false, after_polls d k)
      /\ 20000 <= elapsed d k
      /\ (forall j, (j < k)%nat ->
            elapsed d j < 20000
            /\ changed before (snapshot_at d j) = false)).
Proof.
  rewrite wait_for_page_change_unfold.
  destruct (wait_loop_total (clock d) before 35 d)
    as [(k & Hrun & Hk & Hch & Hmin)|(k & Hrun & Hk & Hmin)]; [lia..| |].
  - left. exists k. rewrite Hrun.
    split; [reflexivity|]. split; [lia|]. by split.
  - right. exists k. rewrite Hrun.
    split; [reflexivity|]. split; [lia|].
    intros j Hj. destruct (Hmin j Hj). split; [lia|done].
Qed.

(** The three signals of a snapshot. *)
Definition signals (s : pagination_state) : list string :=
  [s.1.1; s.1.2; s.2].

Lemma signal_changed_true (x y : string) :
  signal_changed x y = true <->
  x <> EmptyString /\ y <> EmptyString /\ y <> x.
Proof.
  unfold signal_changed.
  rewrite !andb_true_iff, negb_true_iff, !nonempty_true_iff, String.eqb_neq.
  tauto.
Qed.

Lemma changed_true (b a : pagination_state) :
  changed b a = true <->
  exists i x y,
    signals b !! i = Some x /\ signals a !! i = Some y
    /\ x <> EmptyString /\ y <> EmptyString /\ y <> x.
Proof.
  destruct b as [[b1 b2] b3], a as [[a1 a2] a3].
  unfold changed, signals; simpl.
  rewrite !orb_true_iff, !signal_changed_true. split.
  - intros [[H|H]|H].
    + by exists 0%nat, b1, a1.
    + by exists 1%nat, b2, a2.
    + by exists 2%nat, b3, a3.
  - intros (i & x & y & Hx & Hy & H).
    destruct i as [|[|[|i]]]; simpl in Hx, Hy; simplify_eq; tauto.
Qed.

(** C1.  The wait returns [True] as soon as a poll made within the
    budget shows a signal that is non-empty both before and now and that
    differs, whatever the other signals are; it returns [True] only then;
    and when every poll within the budget shows only signals that are
    equal to the ones before or empty on one side, it returns [False]. *)
Theorem convergence_on_any_shared_signal (before : pagination_state)
    (d : driver) :
  (forall k i x y,
      elapsed d k < 20000 ->
      signals before !! i = Some x ->
      signals (snapshot_at d k) !! i = Some y ->
      x <> EmptyString -> y <> EmptyString -> y <> x ->
      fst (wait_for_page_change before d) = Ok true)
  /\ (fst (wait_for_page_change before d) = Ok true ->
      exists k i x y,
        elapsed d k < 20000
        /\ signals before !! i = Some x
        /\ signals (snapshot_at d k) !! i = Some y
        /\ x <> EmptyString /\ y <> EmptyString /\ y <> x)
  /\ ((forall k i x y,
         elapsed d k < 20000 ->
         signals before !! i = Some x ->
         signals (snapshot_at d k) !! i = Some y ->
         x = y \/ x = EmptyString \/ y = EmptyString) ->
      fst (wait_for_page_change before d) = Ok false).
Proof.
  destruct (wait_for_page_change_total before d)
    as [(k & Hrun & Hk & Hch & Hmin)|(k & Hrun & Hk & Hmin)];
    rewrite Hrun; simpl.
  - split; [done|]. split.
    + intros _. apply changed_true in Hch as (i & x & y & H).
      by exists k, i, x, y.
    + intros Hsame. apply changed_true in Hch as (i & x & y & Hx & Hy & H).
      destruct (Hsame k i x y Hk Hx Hy) as [?|[?|?]]; subst; tauto.
  - split; [|split; [done|done]].
    intros k0 i x y Hk0 Hx Hy Hnx Hny Hne. exfalso.
    destruct (decide (k0 < k)%nat) as [Hlt|Hge].
    + destruct (Hmin k0 Hlt) as [_ Hno].
      assert (changed before (snapshot_at d k0) = true) as Hyes.
      { apply changed_true. by exists i, x, y. }
      congruence.
    + pose proof (elapsed_mono d k k0 ltac:(lia)). lia.
Qed.

(** *** Concrete results pages *)

Definition results_page (label : string) (count : result string)
    (first : string) : page :=
  {| navs := Ok [ {| active_btns :=
                       Ok [ {| aria_label := Ok (Some label);
                               btn_text := Ok label |} ] |} ];
     job_out_of_text := count;
     job_links := Ok [ {| link_displayed := Ok true;
                          href := Ok (Some first) |} ] |}.

(** A browser that shows the same page at every poll, each snapshot
    taking [cost] milliseconds. *)
Definition showing (p : page) (cost : N) : driver :=
  {| dom := Frame nothing []; url_changes := false; context := [];
     feed := fun _ => {| obs_page := p; obs_cost := cost |};
     polls := 0; clock := 0; trace := [] |}.

(** Three signals, only the first link changes. *)
Example three_signals_one_changes :
  fst (wait_for_page_change ("1", "1 - 20 of 40 jobs", "/job/a")%string
         (showing (results_page "1" (Ok "1 - 20 of 40 jobs"%string) "/job/b")
                  0))
  = Ok true.
Proof. vm_compute. reflexivity. Qed.

(** C2 (counterexample).  Before the click the count label is missing,
    afterwards it reads [1-20 of 40], page label and first link unchanged:
    the wait polls until the budget is spent and returns [False]. *)
Lemma first_appearance_times_out :
  state_of_page (results_page "1" (Raise NoSuchElementException) "x")
    = ("1", EmptyString, "x")%string
  /\ state_of_page (results_page "1" (Ok "1-20 of 40"%string) "x")
    = ("1", "1-20 of 40", "x")%string
  /\ fst (wait_for_page_change
            (state_of_page (results_page "1" (Raise NoSuchElementException) "x"))
            (showing (results_page "1" (Ok "1-20 of 40"%string) "x") 0))
     = Ok false.
Proof. vm_compute. repeat split. Qed.

(** C2 (amended).  A signal counts only when it is non-empty on both
    sides: first appearance (empty before, populated after) is not a
    change, and neither is empty against empty; so when the count label is
    empty before the click and page label and first link stay as they
    were, no poll converges and the wait returns [False]. *)
Theorem first_appearance_is_not_a_change (before : pagination_state)
    (d : driver) :
  (forall a, signal_changed EmptyString a = false
             /\ signal_changed a EmptyString = false)
  /\ (before.1.2 = EmptyString ->
      (forall k, elapsed d k < 20000 ->
                 (snapshot_at d k).1.1 = before.1.1
                 /\ (snapshot_at d k).2 = before.2) ->
      fst (wait_for_page_change before d) = Ok false).
Proof.
  split.
  - intros a. unfold signal_changed. by destruct a.
  - intros Hempty Hsame.
    destruct (wait_for_page_change_total before d)
      as [(k & Hrun & Hk & Hch & Hmin)|(k & Hrun & Hk & Hmin)];
      rewrite Hrun; simpl; [|done].
    destruct (Hsame k Hk) as [H1 H3].
    destruct before as [[b1 b2] b3].
    destruct (snapshot_at d k) as [[a1 a2] a3].
    simpl in *. subst. unfold changed in Hch; simpl in Hch.
    rewrite !orb_true_iff, !signal_changed_true in Hch.
    exfalso. tauto.
Qed.

End NvidiaSpec.

(** * Properties of the IAI bot *)

Module IAISpec.
Import IAI.

(** *** The wait for the thank-you page *)

Definition with_trace (b : bot) (t : list event) : bot :=
  set_browser b (moment b) (clock b) (address b) (loads b) t.

Definition is_input (e : event) : bool :=
  match e with EvInput _ _ => true | _ => false end.

(** The operator pauses in a trace. *)
Definition inputs (t : list event) : list event := List.filter is_input t.

Lemma inputs_app (t1 t2 : list event) :
  inputs (t1 ++ t2) = inputs t1 ++ inputs t2.
Proof. apply List.filter_app. Qed.

Lemma inputs_snoc_other (t : list event) (e : event) :
  is_input e = false -> inputs (t ++ [e]) = inputs t.
Proof. intros He. rewrite inputs_app. simpl. rewrite He. apply app_nil_r. Qed.

(** A tab that can be switched to and whose URL holds [/thank-you/]. *)
Definition tab_shows (h : tab) : bool :=
  match switch_to_window h, tab_url h with
  | None, Ok u => contains THANK_YOU_PATH (or_blank u)
  | _, _ => false
  end.

(** What one poll answers on a view. *)
Definition sees_thank_you (v : view) : bool :=
  match current_url v with
  | Ok u =>
      contains THANK_YOU_PATH (or_blank u) ||
      match window_handles v with
      | Ok hs => existsb tab_shows hs
      | Raise _ => false
      end
  | Raise _ => false
  end.

Lemma check_tabs_run (hs : list tab) :
  forall b : bot,
    exists t,
      check_tabs hs b = (Ok (existsb tab_shows hs), with_trace b t)
      /\ inputs t = inputs (trace b).
Proof.
  induction hs as [|h hs IH]; intros b.
  - exists (trace b). split; [by destruct b|done].
  - cbn [check_tabs existsb].
    set (others := existsb tab_shows hs) in *. unfold tab_shows.
    unfold try_except, bind, log, outcome, lift, modify; simpl.
    destruct (IH (with_trace b (trace b ++ [EvSwitchWindow (handle h)])))
      as (t & Ht & Hin).
    simpl in Hin. rewrite inputs_snoc_other in Hin by done.
    destruct (switch_to_window h) as [e|]; simpl; [by exists t|].
    destruct (tab_url h) as [u|e]; simpl; [|by exists t].
    destruct (contains THANK_YOU_PATH (or_blank u)); simpl; [|by exists t].
    eexists. split; [reflexivity|]. by apply inputs_snoc_other.
Qed.

Definition view_cost_ms (v : view) : Z := Z.of_N (view_cost v).

Lemma poll_thank_you_run (b : bot) :
  exists t,
    poll_thank_you b =
      (if sees_thank_you (feed b (moment b))
       then (Ok true,
             set_browser b (moment b)
               (clock b + view_cost_ms (feed b (moment b)))
               (address b) (loads b) t)
       else (Ok false,
             set_browser b (S (moment b))
               (clock b + view_cost_ms (feed b (moment b)) + 1000)
               (address b) (loads b) t))
    /\ inputs t = inputs (trace b).
Proof.
  unfold poll_thank_you, sees_thank_you, view_cost_ms.
  unfold bind at 1, now_view, get, bind at 1, ret at 1; simpl.
  set (v := feed b (moment b)).
  unfold bind at 1, spend, modify; simpl.
  set (b0 := set_browser b _ _ _ _ _).
  unfold try_except. unfold bind at 1, lift.
  destruct (current_url v) as [u|e]; simpl.
  - unfold ret at 1; simpl.
    destruct (contains THANK_YOU_PATH (or_blank u)); simpl.
    + exists (trace b). by split.
    + unfold bind at 1.
      destruct (window_handles v) as [hs|e]; simpl.
      * unfold ret at 1; simpl. unfold bind at 1.
        destruct (check_tabs_run hs b0) as (t & Ht & Hin). rewrite Ht.
        destruct (existsb tab_shows hs); simpl.
        -- exists t. by split.
        -- exists (t ++ [EvSleep 1000]). split; [reflexivity|].
           by rewrite inputs_snoc_other.
      * exists (trace b ++ [EvSleep 1000]). split; [reflexivity|].
        by rewrite inputs_snoc_other.
  - exists (trace b ++ [EvSleep 1000]). split; [reflexivity|].
    by rewrite inputs_snoc_other.
Qed.

(** The view [k] polls from moment [m], and the time from now until the
    loop condition is evaluated for the [k]-th time: each turn reads its
    view and sleeps one second. *)
Definition view_at (f : nat -> view) (m k : nat) : view := f (m + k)%nat.

Fixpoint waited (f : nat -> view) (m k : nat) : Z :=
  match k with
  | O => 0
  | S k' => waited f m k' + view_cost_ms (view_at f m k') + 1000
  end.

(** The bot [k] moments later, at time [c], with trace [t]. *)
Definition moved (b : bot) (k : nat) (c : Z) (t : list event) : bot :=
  set_browser b (moment b + k) c (address b) (loads b) t.

Lemma waited_nonneg f m k : 0 <= waited f m k.
Proof. induction k; simpl; unfold view_cost_ms in *; lia. Qed.

Lemma waited_mono f m j k : (j <= k)%nat -> waited f m j <= waited f m k.
Proof. induction 1; simpl; unfold view_cost_ms in *; lia. Qed.

Lemma waited_shift f m k :
  waited f m (S k) = view_cost_ms (f m) + 1000 + waited f (S m) k.
Proof.
  induction k as [|k IH].
  - simpl. unfold view_at. rewrite Nat.add_0_r. lia.
  - change (waited f m (S (S k)))
      with (waited f m (S k) + view_cost_ms (view_at f m (S k)) + 1000).
    rewrite IH. simpl. unfold view_at. rewrite Nat.add_succ_r. simpl. lia.
Qed.

Lemma thank_you_loop_step (fuel : nat) (start max_wait : Z) (b : bot) :
  thank_you_loop (S fuel) start max_wait b =
    if clock b - start <? 1000 * max_wait then
      match poll_thank_you b with
      | (Ok true, b') => (Ok (Some true), b')
      | (Ok false, b') => thank_you_loop fuel start max_wait b'
      | (Raise e, b') => (Raise e, b')
      end
    else (Ok (Some false), b).
Proof.
  cbn [thank_you_loop].
  unfold bind at 1, time_time, get, bind at 1, ret at 1; simpl.
  destruct (clock b - start <? 1000 * max_wait); [|reflexivity].
  unfold bind. destruct (poll_thank_you b) as [[[|]|e] b']; reflexivity.
Qed.

(** How the loop ends, given enough fuel. *)
Lemma thank_you_loop_total (start max_wait : Z) :
  forall (fuel : nat) (b : bot),
    0 <= clock b - start ->
    (0 < fuel)%nat ->
    1000 * max_wait - (clock b - start) <= 1000 * (Z.of_nat fuel - 1) ->
    (exists k t,
        thank_you_loop fuel start max_wait b
        = (Ok (Some true),
           moved b k (clock b + waited (feed b) (moment b) k
                      + view_cost_ms (view_at (feed b) (moment b) k)) t)
        /\ inputs t = inputs (trace b)
        /\ clock b - start + waited (feed b) (moment b) k < 1000 * max_wait
        /\ sees_thank_you (view_at (feed b) (moment b) k) = true
        /\ forall j, (j < k)%nat ->
             sees_thank_you (view_at (feed b) (moment b) j) = false)
    \/ (exists k t,
        thank_you_loop fuel start max_wait b
        = (Ok (Some false),
           moved b k (clock b + waited (feed b) (moment b) k) t)
        /\ inputs t = inputs (trace b)
        /\ 1000 * max_wait <= clock b - start + waited (feed b) (moment b) k
        /\ (forall j, (j < k)%nat ->
              clock b - start + waited (feed b) (moment b) j < 1000 * max_wait
              /\ sees_thank_you (view_at (feed b) (moment b) j) = false)).
Proof.
  induction fuel as [|fuel IH]; intros b Hpos Hone Hfuel; [lia|].
  rewrite thank_you_loop_step.
  destruct (clock b - start <? 1000 * max_wait) eqn:Hin.
  - apply Z.ltb_lt in Hin.
    destruct (poll_thank_you_run b) as (t1 & Hpoll & Hin1). rewrite Hpoll.
    destruct (sees_thank_you (feed b (moment b))) eqn:Hsee.
    + left. exists 0%nat, t1. unfold moved, view_at. simpl.
      rewrite !Nat.add_0_r, Z.add_0_r.
      split; [reflexivity|]. split; [done|]. split; [lia|]. split; [done|].
      intros j Hj. lia.
    + set (b1 := set_browser b (S (moment b)) _ _ _ t1).
      assert (Hcost : 0 <= view_cost_ms (feed b (moment b)))
        by (unfold view_cost_ms; lia).
      destruct (IH b1) as [(k & t & Hrun & Hint & Hk & Hsee' & Hmin)
                          |(k & t & Hrun & Hint & Hk & Hmin)].
      * simpl. lia.
      * lia.
      * simpl. lia.
      * left. exists (S k), t. rewrite Hrun.
        change (feed b1) with (feed b) in *.
        change (moment b1) with (S (moment b)) in *.
        change (trace b1) with t1 in *.
        rewrite waited_shift.
        unfold moved, view_at in *. simpl in *. rewrite !Nat.add_succ_r.
        split; [f_equal; f_equal; lia|]. split; [congruence|].
        split; [lia|]. split; [done|].
        intros [|j] Hj; [by rewrite Nat.add_0_r|].
        rewrite Nat.add_succ_r. apply Hmin. lia.
      * right. exists (S k), t. rewrite Hrun.
        change (feed b1) with (feed b) in *.
        change (moment b1) with (S (moment b)) in *.
        change (trace b1) with t1 in *.
        rewrite waited_shift.
        unfold moved, view_at in *. simpl in *. rewrite !Nat.add_succ_r.
        split; [f_equal; f_equal; lia|]. split; [congruence|].
        split; [lia|].
        intros [|j] Hj.
        -- rewrite Nat.add_0_r. simpl. split; [lia|done].
        -- destruct (Hmin j ltac:(lia)) as [H1 H2].
           rewrite waited_shift, Nat.add_succ_r. split; [lia|done].
  - apply Z.ltb_ge in Hin. right. exists 0%nat, (trace b).
    unfold moved. simpl. rewrite Nat.add_0_r, Z.add_0_r.
    split; [by destruct b|]. split; [done|]. split; [lia|].
    intros j Hj. lia.
Qed.

(** [max_wait + 1] turns of fuel are never used up. *)
Lemma thank_you_loop_fuel (max_wait : Z) (b : bot) :
  exists r b',
    thank_you_loop (S (Z.to_nat max_wait)) (clock b) max_wait b
    = (Ok (Some r), b').
Proof.
  destruct (thank_you_loop_total (clock b) max_wait (S (Z.to_nat max_wait)) b)
    as [(k & t & Hrun & _)|(k & t & Hrun & _)]; [lia..| |]; by eexists _, _.
Qed.

Lemma wait_for_thank_you_unfold (max_wait : Z) (b : bot) :
  _wait_for_thank_you_redirect max_wait b =
    match thank_you_loop (S (Z.to_nat max_wait)) (clock b) max_wait b with
    | (Ok (Some true), b') => (Ok true, b')
    | (Ok _, b') => (return_to_main_handle ;;; ret false) b'
    | (Raise e, b') => (Raise e, b')
    end.
Proof.
  unfold _wait_for_thank_you_redirect.
  unfold bind at 1, time_time, get, bind at 1, ret at 1. cbv beta.
  unfold bind at 1.
  generalize (thank_you_loop (S (Z.to_nat max_wait)) (clock b) max_wait b).
  intros [[[[|]|]|e] b']; reflexivity.
Qed.

(** The time the closing step takes on a view: nothing when the handle
    of the list tab is unknown, since the window handles are then not
    queried. *)
Definition closing_cost (mh : option string) (v : view) : Z :=
  match mh with
  | Some h => if nonempty h then view_cost_ms v else 0
  | None => 0
  end.

Lemma closing_cost_bounds (mh : option string) (v : view) :
  0 <= closing_cost mh v <= view_cost_ms v.
Proof.
  unfold closing_cost, view_cost_ms. destruct mh as [h|]; [|lia].
  destruct (nonempty h); lia.
Qed.

(** The bot after the closing step, with trace [t]. *)
Definition closed (b : bot) (t : list event) : bot :=
  set_browser b (moment b)
    (clock b + closing_cost (main_handle b) (feed b (moment b)))
    (address b) (loads b) t.

(** Going back to the list tab either succeeds silently or lets the error
    of the window-handles query through. *)
Lemma return_to_main_handle_run (b : bot) :
  (exists t, return_to_main_handle b = (Ok tt, closed b t)
             /\ inputs t = inputs (trace b))
  \/ (exists e mh,
        return_to_main_handle b = (Raise e, closed b (trace b))
        /\ main_handle b = Some mh /\ mh <> EmptyString
        /\ window_handles (feed b (moment b)) = Raise e).
Proof.
  assert (Hsame : set_browser b (moment b) (clock b + 0) (address b)
                    (loads b) (trace b) = b)
    by (destruct b; unfold set_browser; simpl; f_equal; lia).
  unfold closed, closing_cost, view_cost_ms.
  unfold return_to_main_handle, bind, get, now_view, spend, lift, ret, raise,
    try_except, log, modify, bind; simpl.
  destruct (main_handle b) as [mh|] eqn:Hmh;
    [|left; exists (trace b); by rewrite Hsame].
  destruct (nonempty mh) eqn:Hne; simpl;
    [|left; exists (trace b); by rewrite Hsame].
  destruct (window_handles (feed b (moment b))) as [hs|e] eqn:Hhs.
  - left. case_bool_decide; [|by exists (trace b)].
    destruct (find _ hs) as [h|].
    + unfold outcome, ret, raise. destruct (switch_to_window h);
        (eexists; split; [reflexivity|by apply inputs_snoc_other]).
    + eexists; split; [reflexivity|by apply inputs_snoc_other].
  - right. exists e, mh. split; [reflexivity|]. split; [done|].
    split; [by apply nonempty_true_iff|done].
Qed.

(** The wait itself: [max_wait + 1] turns are enough, so it always
    returns or raises. *)
Lemma wait_for_thank_you_total (max_wait : Z) (b : bot) :
  (exists k t,
      _wait_for_thank_you_redirect max_wait b
      = (Ok true,
         moved b k (clock b + waited (feed b) (moment b) k
                    + view_cost_ms (view_at (feed b) (moment b) k)) t)
      /\ inputs t = inputs (trace b)
      /\ waited (feed b) (moment b) k < 1000 * max_wait
      /\ sees_thank_you (view_at (feed b) (moment b) k) = true
      /\ forall j, (j < k)%nat ->
           sees_thank_you (view_at (feed b) (moment b) j) = false)
  \/ (exists k t r,
      _wait_for_thank_you_redirect max_wait b
      = (r, moved b k
              (clock b + waited (feed b) (moment b) k
               + closing_cost (main_handle b)
                   (view_at (feed b) (moment b) k)) t)
      /\ inputs t = inputs (trace b)
      /\ 1000 * max_wait <= waited (feed b) (moment b) k
      /\ (forall j, (j < k)%nat ->
            waited (feed b) (moment b) j < 1000 * max_wait
            /\ sees_thank_you (view_at (feed b) (moment b) j) = false)
      /\ (r = Ok false
          \/ exists e mh,
               r = Raise e /\ main_handle b = Some mh /\ mh <> EmptyString
               /\ window_handles (view_at (feed b) (moment b) k) = Raise e)).
Proof.
  rewrite wait_for_thank_you_unfold.
  destruct (thank_you_loop_total (clock b) max_wait (S (Z.to_nat max_wait)) b)
    as [(k & t & Hrun & Hint & Hk & Hsee & Hmin)
       |(k & t & Hrun & Hint & Hk & Hmin)];
    [lia..| |].
  - left. exists k, t. rewrite Hrun.
    split; [reflexivity|]. split; [done|]. split; [lia|]. by split.
  - right. rewrite Hrun.
    set (b' := moved b k _ t).
    assert (Hmin' : forall j, (j < k)%nat ->
              waited (feed b) (moment b) j < 1000 * max_wait
              /\ sees_thank_you (view_at (feed b) (moment b) j) = false).
    { intros j Hj. destruct (Hmin j Hj). split; [lia|done]. }
    destruct (return_to_main_handle_run b')
      as [(t' & Hback & Hint')|(e & mh & Hback & Hmh & Hne & Hhs)].
    + exists k, t', (Ok false). unfold bind. rewrite Hback.
      split; [reflexivity|]. split; [by rewrite Hint'|].
      split; [lia|]. split; [done|]. by left.
    + exists k, t, (Raise e). unfold bind. rewrite Hback.
      split; [reflexivity|]. split; [done|]. split; [lia|]. split; [done|].
      right. by exists e, mh.
Qed.

(** *** The CAPTCHA check *)

(** What [_recaptcha_visible] answers on a view. *)
Definition captcha_seen (v : view) : bool :=
  match current_url v with
  | Ok u =>
      if contains THANK_YOU_PATH (or_blank u) then false else
      match recaptcha_iframes v with
      | Ok n =>
          if (0 <? n)%nat then true else
          match recaptcha_boxes v with
          | Ok m => (0 <? m)%nat
          | Raise _ => false
          end
      | Raise _ => false
      end
  | Raise _ => false
  end.

Lemma _recaptcha_visible_run (b : bot) :
  _recaptcha_visible b = (Ok (captcha_seen (feed b (moment b))), b).
Proof.
  unfold _recaptcha_visible, captcha_seen, bind, now_view, get, bind,
    try_except, lift; simpl.
  destruct (current_url (feed b (moment b))) as [u|e]; [|reflexivity].
  unfold ret at 1; simpl.
  destruct (contains THANK_YOU_PATH (or_blank u)); [reflexivity|].
  destruct (recaptcha_iframes (feed b (moment b))) as [n|e]; [|reflexivity].
  unfold ret at 1; simpl.
  destruct (0 <? n)%nat; [reflexivity|].
  destruct (recaptcha_boxes (feed b (moment b))); reflexivity.
Qed.

Lemma captcha_seen_not_thank_you (v : view) :
  captcha_seen v = true ->
  exists u, current_url v = Ok u
            /\ contains THANK_YOU_PATH (or_blank u) = false.
Proof.
  unfold captcha_seen. destruct (current_url v) as [u|e]; [|done].
  destruct (contains THANK_YOU_PATH (or_blank u)) eqn:Hu; [done|].
  intros _. by exists u.
Qed.

Lemma bind_ret_tt {S A} (k : M S A) (s : S) : (ret tt ;;; k) s = k s.
Proof. reflexivity. Qed.

Lemma input_run {A} (why : pause) (k : M bot A) (b : bot) :
  (input why ;;; k) b
  = k (set_browser b (S (moment b)) (clock b + 0) (address b) (loads b)
         (trace b ++ [EvInput why (moment b)])).
Proof. reflexivity. Qed.

(** The operator pauses of the flow after the click. *)
Lemma await_thank_you_inputs (wait_total : Z) (b : bot) :
  exists r bf,
    await_thank_you_after_click wait_total b = (r, bf)
    /\ (inputs (trace bf) = inputs (trace b)
        \/ exists m u,
             inputs (trace bf) = inputs (trace b) ++ [EvInput CaptchaPause m]
             /\ current_url (feed b m) = Ok u
             /\ contains THANK_YOU_PATH (or_blank u) = false).
Proof.
  unfold await_thank_you_after_click.
  set (initial_wait := Z.min 12 wait_total).
  set (remaining := Z.max 0 (wait_total - initial_wait)).
  unfold bind at 1.
  destruct (wait_for_thank_you_total initial_wait b)
    as [(k & t & Hrun & Hint & _)|(k & t & r & Hrun & Hint & _ & _ & Hr)];
    rewrite Hrun.
  - eexists _, _. split; [reflexivity|]. by left.
  - destruct Hr as [->|(e & mh & -> & _)];
      [|eexists _, _; split; [reflexivity|]; by left].
    set (b1 := moved b k _ t).
    unfold bind at 1. rewrite _recaptcha_visible_run.
    destruct (captcha_seen (feed b1 (moment b1))) eqn:Hcap.
    + apply captcha_seen_not_thank_you in Hcap as (u & Hu & Hno).
      cbv beta iota. rewrite input_run.
      set (b2 := set_browser _ _ _ _ _ _).
      assert (Hin2 : inputs (trace b2)
                     = inputs (trace b) ++ [EvInput CaptchaPause (moment b1)]).
      { unfold b2; simpl. rewrite inputs_app. simpl. by rewrite Hint. }
      destruct (wait_for_thank_you_total remaining b2)
        as [(k2 & t2 & Hrun2 & Hint2 & _)
           |(k2 & t2 & r2 & Hrun2 & Hint2 & _)];
        rewrite Hrun2; eexists _, _; (split; [reflexivity|]);
        right; exists (moment b1), u;
        (split; [unfold moved, set_browser; cbn [trace];
                 rewrite Hint2; exact Hin2 | by split]).
    + cbv beta iota. rewrite bind_ret_tt.
      destruct (wait_for_thank_you_total remaining b1)
        as [(k2 & t2 & Hrun2 & Hint2 & _)
           |(k2 & t2 & r2 & Hrun2 & Hint2 & _)];
        rewrite Hrun2; eexists _, _; (split; [reflexivity|]);
        left; unfold moved, set_browser; cbn [trace];
        rewrite Hint2; exact Hint.
Qed.

(** C10.  On a view whose current URL contains [/thank-you/],
    [_recaptcha_visible] answers [False] whatever else the page holds; and
    the submit flow, after its click, pauses for a CAPTCHA at most once,
    and only at a moment when the current tab's URL does not contain
    [/thank-you/]. *)
Theorem no_captcha_pause_on_thank_you (wait_total : Z) (b : bot) :
  (forall u,
      current_url (feed b (moment b)) = Ok u ->
      contains THANK_YOU_PATH (or_blank u) = true ->
      _recaptcha_visible b = (Ok false, b))
  /\ (inputs (trace (snd (await_thank_you_after_click wait_total b)))
        = inputs (trace b)
      \/ exists m u,
           inputs (trace (snd (await_thank_you_after_click wait_total b)))
             = inputs (trace b) ++ [EvInput CaptchaPause m]
           /\ current_url (feed b m) = Ok u
           /\ contains THANK_YOU_PATH (or_blank u) = false).
Proof.
  split.
  - intros u Hu Hty. rewrite _recaptcha_visible_run.
    unfold captcha_seen. by rewrite Hu, Hty.
  - destruct (await_thank_you_inputs wait_total b) as (r & bf & Hrun & H).
    rewrite Hrun. exact H.
Qed.

(** *** The visited-location set *)

(** The set after the additions a trace records. *)
Fixpoint seen_after (seen : gset string) (t : list event) : gset string :=
  match t with
  | [] => seen
  | EvVisited u :: t' => seen_after ({[ u ]} ∪ seen) t'
  | _ :: t' => seen_after seen t'
  end.

(** Every [driver.get(u)] of the trace asks for a URL that is not in the
    set at that time. *)
Fixpoint navigations_fresh (seen : gset string) (t : list event) : bool :=
  match t with
  | [] => true
  | EvGet u :: t' => bool_decide (u ∉ seen) && navigations_fresh seen t'
  | EvVisited u :: t' => navigations_fresh ({[ u ]} ∪ seen) t'
  | _ :: t' => navigations_fresh seen t'
  end.

Lemma seen_after_app seen t1 t2 :
  seen_after seen (t1 ++ t2) = seen_after (seen_after seen t1) t2.
Proof.
  revert seen. induction t1 as [|e t1 IH]; intros seen; [done|].
  destruct e; simpl; apply IH.
Qed.

Lemma seen_after_grows seen t : seen ⊆ seen_after seen t.
Proof.
  revert seen. induction t as [|e t IH]; intros seen; [done|].
  destruct e; simpl; try apply IH.
  etrans; [|apply IH]. set_solver.
Qed.

Lemma navigations_fresh_app seen t1 t2 :
  navigations_fresh seen (t1 ++ t2)
  = navigations_fresh seen t1 && navigations_fresh (seen_after seen t1) t2.
Proof.
  revert seen. induction t1 as [|e t1 IH]; intros seen; [done|].
  destruct e; simpl; rewrite ?IH; try done.
  by rewrite andb_assoc.
Qed.

(** What a step of the bot does to the trace and to the set. *)
Definition tracks (b b' : bot) (new : list event) : Prop :=
  trace b' = trace b ++ new
  /\ visited_urls b' = seen_after (visited_urls b) new
  /\ start_page b' = start_page b /\ max_pages b' = max_pages b.

Lemma tracks_refl (b : bot) : tracks b b [].
Proof. unfold tracks. by rewrite app_nil_r. Qed.

Lemma tracks_trans (b1 b2 b3 : bot) (n1 n2 : list event) :
  tracks b1 b2 n1 -> tracks b2 b3 n2 -> tracks b1 b3 (n1 ++ n2).
Proof.
  intros (Ht1 & Hv1 & Hs1 & Hm1) (Ht2 & Hv2 & Hs2 & Hm2). unfold tracks.
  rewrite Ht2, Ht1, Hv2, Hv1, seen_after_app, (assoc_L (++)).
  repeat split; congruence.
Qed.

Lemma goto_list_url_run (url : string) (b : bot) :
  exists new,
    tracks b (snd (goto_list_url url b)) (EvGet url :: new)
    /\ navigations_fresh (visited_urls b) new = true
    /\ forall seen, navigations_fresh seen new = true.
Proof.
  unfold goto_list_url, driver_get, safe_find, wait_presence,
    gentle_scroll_page, try_except.
  unfold bind, log, modify, now_view, get, bind, ret, lift, spend; simpl.
  destruct (located _ _) as [n|e]; simpl.
  - eexists [_; _]. unfold tracks; simpl.
    rewrite <- !(assoc_L (++)). repeat split; reflexivity.
  - destruct (is_TimeoutException e); simpl.
    + eexists [_; _]. unfold tracks; simpl.
      rewrite <- !(assoc_L (++)). repeat split; reflexivity.
    + exists []. unfold tracks; simpl. repeat split; reflexivity.
Qed.

Lemma process_page_run (b : bot) :
  tracks b (snd (process_page b)) [EvProcessPage (loads b)].
Proof.
  unfold process_page, bind, get, log, modify, lift, bind; simpl.
  destruct (processing b (loads b) (address b)); simpl;
    unfold tracks; simpl; repeat split; reflexivity.
Qed.

Section WithUrlLib.
Context `{UrlLib}.

(** The [--pages] test of the loop. *)
Definition page_limit_reached (b : bot) : bool :=
  (max_pages b >? 0)
  && (Z.of_nat (size (filter (fun u => is_list_url u = true) (visited_urls b)))
      >=? max_pages b + (start_page b - 1)).

Lemma run_loop_step (fuel : nat) (b : bot) :
  run_loop (S fuel) b =
    match process_page b with
    | (Raise e, b1) => (Raise e, b1)
    | (Ok _, b1) =>
        match compute_next_list_url (address b1) with
        | None => (Ok (Some NoNextUrl), b1)
        | Some next_url =>
            if negb (nonempty next_url) then (Ok (Some NoNextUrl), b1) else
            if page_limit_reached b1 then (Ok (Some PageLimit), b1) else
            if bool_decide (next_url ∈ visited_urls b1)
            then (Ok (Some AlreadyVisited), b1) else
            match goto_list_url next_url
                    (set_bot b1 (main_handle b1) (Some next_url)
                       (visited_urls b1)) with
            | (Ok _, b3) => run_loop fuel b3
            | (Raise e, b3) => (Raise e, b3)
            end
        end
    end.
Proof.
  cbn [run_loop]. unfold bind at 1.
  destruct (process_page b) as [[[]|e] b1]; [|reflexivity].
  unfold bind at 1, get at 1. cbv beta iota.
  destruct (compute_next_list_url (address b1)) as [next_url|]; [|reflexivity].
  destruct (negb (nonempty next_url)); [reflexivity|].
  fold (page_limit_reached b1).
  destruct (page_limit_reached b1); [reflexivity|].
  destruct (bool_decide (next_url ∈ visited_urls b1)); [reflexivity|].
  unfold bind at 1, modify at 1. cbv beta iota.
  unfold bind at 1.
  destruct (goto_list_url next_url _) as [[[]|e] b3]; reflexivity.
Qed.

(** What the loop does to the trace and to the set, however long it
    runs. *)
Lemma run_loop_run (fuel : nat) :
  forall b : bot,
    exists new,
      tracks b (snd (run_loop fuel b)) new
      /\ navigations_fresh (visited_urls b) new = true
      /\ (fst (run_loop fuel b) = Ok (Some AlreadyVisited) ->
          exists next_url,
            compute_next_list_url (address (snd (run_loop fuel b)))
              = Some next_url
            /\ next_url ∈ visited_urls (snd (run_loop fuel b))).
Proof.
  induction fuel as [|fuel IH]; intros b.
  - exists []. simpl. split; [apply tracks_refl|]. by split.
  - rewrite run_loop_step.
    pose proof (process_page_run b) as Hp.
    assert (Hstop : forall (r : result (option stop)) b1,
              tracks b b1 [EvProcessPage (loads b)] ->
              r <> Ok (Some AlreadyVisited) ->
              exists new,
                tracks b (snd (r, b1)) new
                /\ navigations_fresh (visited_urls b) new = true
                /\ (fst (r, b1) = Ok (Some AlreadyVisited) ->
                    exists next_url,
                      compute_next_list_url (address (snd (r, b1)))
                        = Some next_url
                      /\ next_url ∈ visited_urls (snd (r, b1)))).
    { intros r b1 Ht Hr. exists [EvProcessPage (loads b)].
      split; [exact Ht|]. split; [reflexivity|]. intros Habs. done. }
    destruct (process_page b) as [[[]|e] b1]; simpl in Hp;
      [|by apply Hstop].
    assert (Hv1 : visited_urls b1 = visited_urls b)
      by (by destruct Hp as (_ & -> & _)).
    destruct (compute_next_list_url (address b1)) as [next_url|] eqn:Hnext;
      [|by apply Hstop].
    destruct (negb (nonempty next_url)); [by apply Hstop|].
    destruct (page_limit_reached b1); [by apply Hstop|].
    case_bool_decide as Hin.
    { exists [EvProcessPage (loads b)]. simpl.
      split; [exact Hp|]. split; [reflexivity|].
      intros _. by exists next_url. }
    clear Hstop.
    set (b2 := set_bot b1 _ _ _).
    assert (Hp2 : tracks b b2 [EvProcessPage (loads b)]).
    { destruct Hp as (Ht & Hv & Hs & Hm). by repeat split. }
    destruct (goto_list_url_run next_url b2) as (new2 & Hg & _ & Hfresh2).
    assert (Hfresh : navigations_fresh (visited_urls b)
                       ([EvProcessPage (loads b)] ++ EvGet next_url :: new2)
                     = true).
    { simpl. rewrite Hfresh2, andb_true_r. apply bool_decide_eq_true.
      by rewrite <- Hv1. }
    destruct (goto_list_url next_url b2) as [[[]|e] b3]; simpl in Hg.
    + destruct (IH b3) as (new3 & Ht3 & Hf3 & Hstop).
      exists (([EvProcessPage (loads b)] ++ EvGet next_url :: new2) ++ new3).
      split; [by eapply tracks_trans; [eapply tracks_trans|]|].
      split; [|exact Hstop].
      rewrite navigations_fresh_app, Hfresh. simpl.
      destruct (tracks_trans _ _ _ _ _ Hp2 Hg) as (_ & Hv3 & _).
      simpl in Hv3. by rewrite <- Hv3.
    + exists ([EvProcessPage (loads b)] ++ EvGet next_url :: new2).
      split; [by eapply tracks_trans|]. by split.
Qed.

Definition initial_url (b : bot) : string :=
  if start_page b <=? 1 then BASE_LIST_URL
  else BASE_LIST_URL +:+ "&pg=" +:+ py_str (start_page b).

Lemma run_unfold (fuel : nat) (b : bot) :
  run fuel b =
    match goto_list_url (initial_url b) b with
    | (Ok _, b1) => run_loop fuel b1
    | (Raise e, b1) => (Raise e, b1)
    end.
Proof.
  unfold run, initial_url. unfold bind at 1, get at 1. cbv beta iota.
  unfold bind at 1.
  destruct (goto_list_url _ b) as [[[]|e] b1]; reflexivity.
Qed.

Lemma run_run (fuel : nat) (b : bot) :
  visited_urls b = ∅ ->
  exists new,
    tracks b (snd (run fuel b)) new
    /\ navigations_fresh ∅ new = true.
Proof.
  intros Hempty. rewrite run_unfold.
  destruct (goto_list_url_run (initial_url b) b) as (new1 & Hg & _ & Hfresh1).
  destruct (goto_list_url (initial_url b) b) as [[[]|e] b1]; simpl in Hg.
  - destruct (run_loop_run fuel b1) as (new2 & Ht2 & Hf2 & _).
    exists ((EvGet (initial_url b) :: new1) ++ new2).
    split; [by eapply tracks_trans|].
    rewrite navigations_fresh_app. simpl. rewrite Hfresh1; simpl.
    destruct Hg as (_ & Hv1 & _). simpl in Hv1.
    rewrite Hempty in Hv1. rewrite <- Hv1.
    rewrite Hf2, !andb_true_r. apply bool_decide_eq_true. set_solver.
  - exists (EvGet (initial_url b) :: new1). split; [exact Hg|].
    simpl. rewrite Hfresh1, andb_true_r. apply bool_decide_eq_true.
    set_solver.
Qed.

(** C8.  In the pagination loop the visited set only grows, by exactly
    the URLs the trace records as added; every [driver.get] asks for a URL
    that is not in the set at that time; and when the computed next URL is
    already in the set the loop stops there instead of navigating.  The
    same holds for a whole run of a new bot, whose set starts empty. *)
Theorem visited_set_guards_navigation (fuel : nat) (b : bot)
    (start max : Z) :
  (exists new,
      trace (snd (run_loop fuel b)) = trace b ++ new
      /\ visited_urls (snd (run_loop fuel b))
         = seen_after (visited_urls b) new
      /\ visited_urls b ⊆ visited_urls (snd (run_loop fuel b))
      /\ navigations_fresh (visited_urls b) new = true
      /\ (fst (run_loop fuel b) = Ok (Some AlreadyVisited) ->
          exists next_url,
            compute_next_list_url (address (snd (run_loop fuel b)))
              = Some next_url
            /\ next_url ∈ visited_urls (snd (run_loop fuel b))))
  /\ (exists new,
      trace (snd (run fuel (IAIApplicationBot start max b)))
        = trace b ++ new
      /\ visited_urls (snd (run fuel (IAIApplicationBot start max b)))
         = seen_after ∅ new
      /\ navigations_fresh ∅ new = true).
Proof.
  split.
  - destruct (run_loop_run fuel b) as (new & (Ht & Hv & _) & Hf & Hstop).
    exists new. split; [done|]. split; [done|].
    split; [rewrite Hv; apply seen_after_grows|]. by split.
  - destruct (run_run fuel (IAIApplicationBot start max b) eq_refl)
      as (new & (Ht & Hv & _) & Hf).
    exists new. split; [exact Ht|]. split; [exact Hv|exact Hf].
Qed.

(** *** compute_next_list_url *)

(** The URL [urlunparse] builds from a parsed URL and a new query. *)
Definition rebuilt (parsed : ParseResult) (q : string) : string :=
  urlunparse {| scheme := scheme parsed; netloc := netloc parsed;
                path := path parsed; params := EmptyString;
                query := q; fragment := EmptyString |}.

(** When [compute_next_list_url] returns a successor. *)
Lemma compute_next_list_url_Some (u next : string) :
  compute_next_list_url u = Some next ->
  exists parsed base qs pr_rest n d q,
    urlparse u = Ok parsed
    /\ urlparse BASE_LIST_URL = Ok base
    /\ netloc parsed = netloc base
    /\ path parsed = "/jobs/"%string
    /\ parse_qs (query parsed) = Ok qs
    /\ dict_get "pr" qs = Some ("41"%string :: pr_rest)
    /\ ((dict_get "pg" qs = None /\ n = 2)
        \/ (exists s rest x,
              dict_get "pg" qs = Some (s :: rest)
              /\ py_int s = Ok x /\ 1 <= x <= 1000 /\ n = x + 1))
    /\ first_values (dict_set "pg" [py_str n] qs) = Ok d
    /\ urlencode d = Ok q
    /\ next = rebuilt parsed q.
Proof.
  unfold compute_next_list_url, or_None, rbind.
  destruct (urlparse u) as [parsed|] eqn:Hparsed; [|done].
  destruct (urlparse BASE_LIST_URL) as [base|] eqn:Hbase; [|done].
  destruct (String.eqb (netloc parsed) (netloc base)) eqn:Hnet; [|done].
  destruct (String.eqb (path parsed) "/jobs/") eqn:Hpath; [|done].
  simpl. apply String.eqb_eq in Hnet, Hpath.
  destruct (parse_qs (query parsed)) as [qs|] eqn:Hqs; [|done].
  destruct (dict_get "pr" qs) as [[|pr pr_rest]|] eqn:Hpr; simpl; [done| |done].
  case_bool_decide as H41; [|done]. simpl. injection H41 as ->.
  intros Hnext.
  assert (Hbuild : forall n,
            match first_values (dict_set "pg" [py_str n] qs) with
            | Ok d =>
                match urlencode d with
                | Ok q => Ok (Some (rebuilt parsed q))
                | Raise e => Raise e
                end
            | Raise e => Raise e
            end = Ok (Some next) ->
            exists d q,
              first_values (dict_set "pg" [py_str n] qs) = Ok d
              /\ urlencode d = Ok q /\ next = rebuilt parsed q).
  { intros n Hn.
    destruct (first_values _) as [d|] eqn:Hd; [|done].
    destruct (urlencode d) as [q|] eqn:Hq; [|done].
    exists d, q. by simplify_eq. }
  destruct (dict_get "pg" qs) as [[|s rest]|] eqn:Hpg; simpl in Hnext.
  - done.
  - destruct (py_int s) as [x|] eqn:Hx; [|done].
    destruct ((x <? 1) || (x >? 1000)) eqn:Hrange; [done|].
    apply orb_false_iff in Hrange as [Hlo Hhi].
    apply Z.ltb_ge in Hlo. rewrite Z.gtb_ltb in Hhi. apply Z.ltb_ge in Hhi.
    assert (Hnext' : match first_values (dict_set "pg" [py_str (x + 1)] qs) with
            | Ok d =>
                match urlencode d with
                | Ok q => Ok (Some (rebuilt parsed q))
                | Raise e => Raise e
                end
            | Raise e => Raise e
            end = Ok (Some next)).
    { destruct (first_values _); [|done]. destruct (urlencode _); [|done].
      by simplify_eq. }
    destruct (Hbuild (x + 1) Hnext') as (d & q & Hd & Hq & ->).
    exists parsed, base, qs, pr_rest, (x + 1), d, q.
    split_and!; try done. right. by exists s, rest, x.
  - assert (Hnext' : match first_values (dict_set "pg" [py_str 2] qs) with
            | Ok d =>
                match urlencode d with
                | Ok q => Ok (Some (rebuilt parsed q))
                | Raise e => Raise e
                end
            | Raise e => Raise e
            end = Ok (Some next)).
    { destruct (first_values _); [|done]. destruct (urlencode _); [|done].
      by simplify_eq. }
    destruct (Hbuild 2 Hnext') as (d & q & Hd & Hq & ->).
    exists parsed, base, qs, pr_rest, 2, d, q.
    split_and!; try done. by left.
Qed.

End WithUrlLib.

(** What the script relies on from the library: [int] reads back what
    [str] prints, and a URL rebuilt by [urlunparse] and [urlencode] from a
    parsed list URL parses back to the same host and path and to a query
    that holds, for every key, the value it was given. *)
Class UrlLibLaws `{UrlLib} : Prop := {
  int_of_str : forall n, 2 <= n <= 1001 -> py_int (py_str n) = Ok n;
  reparse :
    forall u parsed base qs n d q,
      urlparse u = Ok parsed ->
      urlparse BASE_LIST_URL = Ok base ->
      netloc parsed = netloc base ->
      path parsed = "/jobs/"%string ->
      parse_qs (query parsed) = Ok qs ->
      2 <= n <= 1001 ->
      first_values (dict_set "pg" [py_str n] qs) = Ok d ->
      urlencode d = Ok q ->
      exists parsed' qs',
        urlparse (rebuilt parsed q) = Ok parsed'
        /\ netloc parsed' = netloc parsed
        /\ path parsed' = path parsed
        /\ parse_qs (query parsed') = Ok qs'
        /\ forall k v, dict_get k d = Some v ->
                       exists rest, dict_get k qs' = Some (v :: rest)
}.

Lemma first_values_dict_set (qs : list (string * list string))
    (k v : string) (d : list (string * string)) :
  first_values (dict_set k [v] qs) = Ok d -> dict_get k d = Some v.
Proof.
  revert d. induction qs as [|[k' l] qs IH]; intros d; simpl.
  - intros [= <-]. simpl. by rewrite String.eqb_refl.
  - destruct (String.eqb k' k) eqn:Hk; simpl.
    + unfold rbind. destruct (first_values qs) as [d'|]; [|done].
      intros [= <-]. simpl. by rewrite Hk.
    + unfold rbind. destruct (first l) as [x|]; [|done].
      destruct (first_values (dict_set k [v] qs)) as [d'|]; [|done].
      intros [= <-]. simpl. rewrite Hk. by apply IH.
Qed.

Section WithLaws.
Context `{UrlLibLaws}.

(** [k] successive successors of [u]. *)
Fixpoint follow (k : nat) (u : string) : option string :=
  match k with
  | O => Some u
  | S k' =>
      match compute_next_list_url u with
      | Some u' => follow k' u'
      | None => None
      end
  end.

(** [u] is a list URL whose query says page [n]. *)
Definition on_page (u : string) (n : Z) : Prop :=
  exists parsed base qs rest,
    urlparse u = Ok parsed
    /\ urlparse BASE_LIST_URL = Ok base
    /\ netloc parsed = netloc base
    /\ path parsed = "/jobs/"%string
    /\ parse_qs (query parsed) = Ok qs
    /\ dict_get "pg" qs = Some (py_str n :: rest).

Lemma successor_on_page (u next : string) :
  compute_next_list_url u = Some next ->
  exists n,
    2 <= n <= 1001 /\ on_page next n
    /\ forall m, on_page u m -> 2 <= m <= 1001 -> n = m + 1.
Proof.
  intros Hnext.
  apply compute_next_list_url_Some in Hnext
    as (parsed & base & qs & pr_rest & n & d & q & Hp & Hb & Hnet & Hpath
        & Hqs & Hpr & Hpg & Hd & Hq & ->).
  assert (Hn : 2 <= n <= 1001).
  { destruct Hpg as [[_ ->]|(s & rest & x & _ & _ & Hx & ->)]; lia. }
  exists n. split; [done|]. split.
  - destruct (reparse u parsed base qs n d q Hp Hb Hnet Hpath Hqs Hn Hd Hq)
      as (parsed' & qs' & Hp' & Hnet' & Hpath' & Hqs' & Hkeys).
    destruct (Hkeys "pg"%string (py_str n) (first_values_dict_set _ _ _ _ Hd))
      as [rest Hrest].
    exists parsed', base, qs', rest.
    split_and!; try done; congruence.
  - intros m (parsed0 & base0 & qs0 & rest0 & Hp0 & _ & _ & _ & Hqs0 & Hpg0) Hm.
    rewrite Hp in Hp0. injection Hp0 as <-.
    rewrite Hqs in Hqs0. injection Hqs0 as <-.
    destruct Hpg as [[Hnone _]|(s & rest & x & Hsome & Hint & _ & ->)];
      [congruence|].
    rewrite Hpg0 in Hsome. injection Hsome as <- <-.
    rewrite (int_of_str m Hm) in Hint. injection Hint as <-. done.
Qed.

Lemma follow_from_page (k : nat) :
  forall u n,
    on_page u n -> 2 <= n <= 1001 -> 1001 - n < Z.of_nat k ->
    follow k u = None.
Proof.
  induction k as [|k IH]; intros u n Hu Hn Hk; [lia|].
  simpl. destruct (compute_next_list_url u) as [next|] eqn:Hnext; [|done].
  destruct (successor_on_page u next Hnext) as (n' & Hn' & Hon & Hsucc).
  rewrite (Hsucc n Hu Hn) in *. apply (IH next (n + 1)); [done|done|lia].
Qed.

(** C9.  [compute_next_list_url] returns a successor only for a URL
    whose host is the one of the base list URL, whose path is exactly
    [/jobs/] and whose query has [pr=41], and then either [pg] is absent
    and the successor's query says [pg=2], or [pg] reads as an integer [x]
    with [1 <= x <= 1000] and the successor's query says [pg=x+1]; in
    every other case it returns [None].  So no URL has 1001 successive
    successors. *)
Theorem next_list_url_guarded_and_bounded (u : string) :
  (forall next,
      compute_next_list_url u = Some next ->
      exists parsed base qs pr_rest n d q,
        urlparse u = Ok parsed
        /\ urlparse BASE_LIST_URL = Ok base
        /\ netloc parsed = netloc base
        /\ path parsed = "/jobs/"%string
        /\ parse_qs (query parsed) = Ok qs
        /\ dict_get "pr" qs = Some ("41"%string :: pr_rest)
        /\ ((dict_get "pg" qs = None /\ n = 2)
            \/ (exists s rest x,
                  dict_get "pg" qs = Some (s :: rest)
                  /\ py_int s = Ok x /\ 1 <= x <= 1000 /\ n = x + 1))
        /\ first_values (dict_set "pg" [py_str n] qs) = Ok d
        /\ dict_get "pg" d = Some (py_str n)
        /\ urlencode d = Ok q
        /\ next = rebuilt parsed q)
  /\ follow 1001 u = None.
Proof.
  split.
  - intros next Hnext.
    apply compute_next_list_url_Some in Hnext
      as (parsed & base & qs & pr_rest & n & d & q & Hp & Hb & Hnet & Hpath
          & Hqs & Hpr & Hpg & Hd & Hq & ->).
    exists parsed, base, qs, pr_rest, n, d, q.
    split_and!; try done. by eapply first_values_dict_set.
  - change (follow 1001 u) with
      (match compute_next_list_url u with
       | Some u' => follow 1000 u'
       | None => None
       end).
    destruct (compute_next_list_url u) as [next|] eqn:Hnext; [|done].
    destruct (successor_on_page u next Hnext) as (n & Hn & Hon & _).
    apply (follow_from_page 1000 next n); [done|done|lia].
Qed.

End WithLaws.

End IAISpec.

(** * The engine as a whole: budgets and error outcomes *)

Module Engine.

(** ** Budgets *)

(** A results page that never changes and takes one second to read. *)
Definition slow_results : Nvidia.driver :=
  NvidiaSpec.showing
    (NvidiaSpec.results_page "1" (Ok "1 - 20 of 40 jobs"%string) "/job/a")
    1000.

(** A browser whose session is dead: every query raises. *)
Definition dead_view : IAI.view :=
  {| IAI.current_url := Raise WebDriverException;
     IAI.window_handles := Raise WebDriverException;
     IAI.recaptcha_iframes := Raise WebDriverException;
     IAI.recaptcha_boxes := Raise WebDriverException;
     IAI.located := fun _ => Raise WebDriverException;
     IAI.current_window_handle := "main";
     IAI.view_cost := 0 |}.

Definition dead_session : IAI.bot :=
  {| IAI.start_page := 1; IAI.max_pages := 0;
     IAI.main_handle := Some "main"%string; IAI.last_list_url := None;
     IAI.visited_urls := ∅; IAI.feed := fun _ => dead_view;
     IAI.moment := 0; IAI.clock := 0; IAI.address := EmptyString;
     IAI.landing := fun _ u => u; IAI.processing := fun _ u => Ok u;
     IAI.loads := 0; IAI.trace := [] |}.

(** C5 (counterexample).  With snapshots that take one second each, the
    pagination wait polls 13 times and returns [False] 20.8 s after it
    started: later than the 20 s budget plus one 0.6 s interval. *)
Lemma wait_overruns_budget_plus_interval :
  fst (Nvidia.wait_for_page_change
         ("1", "1 - 20 of 40 jobs", "/job/a")%string slow_results)
    = Ok false
  /\ Nvidia.polls
       (snd (Nvidia.wait_for_page_change
               ("1", "1 - 20 of 40 jobs", "/job/a")%string slow_results))
     = 13%nat
  /\ Nvidia.clock
       (snd (Nvidia.wait_for_page_change
               ("1", "1 - 20 of 40 jobs", "/job/a")%string slow_results))
     - Nvidia.clock slow_results = 20800
  /\ 20000 + 600 < 20800.
Proof. vm_compute. repeat split. Qed.

(** With a dead browser session the thank-you wait swallows the errors of
    its polls for the whole budget; the closing window-handles query is
    outside any [try], and its error comes out. *)
Example dead_session_raises :
  fst (IAI._wait_for_thank_you_redirect 3 dead_session)
    = Raise WebDriverException
  /\ IAI.clock (snd (IAI._wait_for_thank_you_redirect 3 dead_session)) = 3000.
Proof. vm_compute. split; reflexivity. Qed.

(** A browser with the list tab only, which takes two seconds to answer. *)
Definition sluggish_view : IAI.view :=
  {| IAI.current_url := Ok (Some "https://jobs.iai.co.il/jobs/"%string);
     IAI.window_handles :=
       Ok [{| IAI.handle := "main"; IAI.switch_to_window := None;
              IAI.tab_url := Ok (Some "https://jobs.iai.co.il/jobs/"%string) |}];
     IAI.recaptcha_iframes := Ok 0%nat;
     IAI.recaptcha_boxes := Ok 0%nat;
     IAI.located := fun _ => Raise TimeoutException;
     IAI.current_window_handle := "main";
     IAI.view_cost := 2000 |}.

Definition sluggish_session : IAI.bot :=
  {| IAI.start_page := 1; IAI.max_pages := 0;
     IAI.main_handle := Some "main"%string; IAI.last_list_url := None;
     IAI.visited_urls := ∅; IAI.feed := fun _ => sluggish_view;
     IAI.moment := 0; IAI.clock := 0; IAI.address := EmptyString;
     IAI.landing := fun _ u => u; IAI.processing := fun _ u => Ok u;
     IAI.loads := 0; IAI.trace := [] |}.

(** The closing query of the thank-you wait takes its time too: with a
    budget of nothing the wait makes no poll, and returns [False] two
    seconds after it started; with a budget of one second it makes one
    poll and returns five seconds after it started. *)
Example closing_query_takes_its_time :
  fst (IAI._wait_for_thank_you_redirect 0 sluggish_session) = Ok false
  /\ IAI.clock (snd (IAI._wait_for_thank_you_redirect 0 sluggish_session))
     = 2000
  /\ fst (IAI._wait_for_thank_you_redirect 1 sluggish_session) = Ok false
  /\ IAI.clock (snd (IAI._wait_for_thank_you_redirect 1 sluggish_session))
     = 5000.
Proof. vm_compute. repeat split. Qed.

(** C5 (amended).  Both waits always end.  The pagination wait returns a
    value, and [False] when no poll started within the budget sees a
    change; the thank-you wait returns [False] when no poll started within
    the budget sees the thank-you page, as long as the browser answers the
    closing window-handles query (otherwise the error of that query comes
    out).  A wait lasts at most the time at which its last poll started,
    which is within the budget, plus one poll interval, plus the time that
    last poll's own queries took, plus, for the thank-you wait, the time
    of its closing window-handles query and switch back to the list
    tab. *)
Theorem waits_end_within_budget (before : Nvidia.pagination_state)
    (d : Nvidia.driver) (max_wait : Z) (b : IAI.bot) :
  (exists r k,
      Nvidia.wait_for_page_change before d
        = (Ok r, NvidiaSpec.after_polls d (S k))
      /\ NvidiaSpec.elapsed d k < 20000
      /\ Nvidia.clock (NvidiaSpec.after_polls d (S k)) - Nvidia.clock d
         = NvidiaSpec.elapsed d k + 600
           + Z.of_N (Nvidia.obs_cost
                       (Nvidia.feed d (Nvidia.polls d + k)%nat))
      /\ ((forall j, NvidiaSpec.elapsed d j < 20000 ->
             NvidiaSpec.changed before (NvidiaSpec.snapshot_at d j) = false)
          -> r = false))
  /\ (exists r b',
      IAI._wait_for_thank_you_redirect max_wait b = (r, b')
      /\ (IAI.clock b' - IAI.clock b
          <= IAISpec.closing_cost (IAI.main_handle b)
               (IAI.feed b (IAI.moment b'))
          \/ exists k,
               IAISpec.waited (IAI.feed b) (IAI.moment b) k < 1000 * max_wait
               /\ IAI.clock b' - IAI.clock b
                  <= IAISpec.waited (IAI.feed b) (IAI.moment b) k + 1000
                     + IAISpec.view_cost_ms
                         (IAISpec.view_at (IAI.feed b) (IAI.moment b) k)
                     + IAISpec.closing_cost (IAI.main_handle b)
                         (IAI.feed b (IAI.moment b')))
      /\ ((forall j,
             IAISpec.waited (IAI.feed b) (IAI.moment b) j < 1000 * max_wait ->
             IAISpec.sees_thank_you
               (IAISpec.view_at (IAI.feed b) (IAI.moment b) j) = false)
          -> r = Ok false
             \/ exists e mh,
                  r = Raise e /\ IAI.main_handle b = Some mh
                  /\ mh <> EmptyString
                  /\ IAI.window_handles (IAI.feed b' (IAI.moment b'))
                     = Raise e)).
Proof.
  split.
  - destruct (NvidiaSpec.wait_for_page_change_total before d)
      as [(k & Hrun & Hk & Hch & Hmin)|(k & Hrun & Hk & Hmin)].
    + exists true, k. split; [exact Hrun|]. split; [exact Hk|].
      split; [rewrite NvidiaSpec.clock_after_polls; simpl; lia|].
      intros Hnone. rewrite (Hnone k Hk) in Hch. done.
    + destruct k as [|k]; [simpl in Hk; lia|].
      destruct (Hmin k ltac:(lia)) as [Hin _].
      exists false, k. split; [exact Hrun|]. split; [exact Hin|].
      split; [rewrite NvidiaSpec.clock_after_polls; simpl; lia|done].
  - destruct (IAISpec.wait_for_thank_you_total max_wait b)
      as [(k & t & Hrun & _ & Hk & Hsee & Hmin)
         |(k & t & r & Hrun & _ & Hk & Hmin & Hr)].
    + eexists _, _. split; [exact Hrun|]. split.
      * right. exists k. split; [exact Hk|].
        pose proof (IAISpec.closing_cost_bounds (IAI.main_handle b)
                      (IAI.feed b (IAI.moment b + k))) as Hc.
        simpl. lia.
      * intros Hnone. rewrite (Hnone k Hk) in Hsee. done.
    + eexists _, _. split; [exact Hrun|]. split.
      * destruct k as [|k].
        -- left. unfold IAISpec.view_at. simpl. lia.
        -- right. exists k. destruct (Hmin k ltac:(lia)) as [Hin _].
           split; [exact Hin|]. simpl. unfold IAISpec.view_at. lia.
      * intros _. exact Hr.
Qed.

(** ** Error outcomes *)

(** The error the cookie-banner click lets through, if any. *)
Definition cookie_click_error (d : Nvidia.driver) : option exn :=
  match Nvidia.content (Nvidia.dom d) Nvidia.cookie_loc with
  | Some el =>
      if Nvidia.el_displayed el && Nvidia.el_enabled el then
        match Nvidia.native_click el with
        | Some e => if is_TimeoutException e then None else Some e
        | None => None
        end
      else None
  | None => None
  end.

Lemma cookie_banner_run (d : Nvidia.driver) :
  Nvidia.context d = [] ->
  exists d',
    (try (el <- Nvidia.element_to_be_clickable Nvidia.cookie_loc ;;
          Nvidia.click el)
     except is_TimeoutException => ret tt) d
    = (match cookie_click_error d with
       | Some e => Raise e
       | None => Ok tt
       end, d')
    /\ Nvidia.dom d' = Nvidia.dom d.
Proof.
  intros Hctx. destruct d as [dm uc cx fd pl ck tr]. simpl in Hctx. subst cx.
  unfold cookie_click_error, try_except, bind, Nvidia.element_to_be_clickable,
    Nvidia.click, Nvidia.log, modify, get, bind, Nvidia.current_frame; simpl.
  destruct (Nvidia.content dm Nvidia.cookie_loc) as [el|]; simpl;
    [|by eexists].
  destruct (Nvidia.el_displayed el && Nvidia.el_enabled el); simpl;
    [|by eexists].
  destruct (Nvidia.native_click el) as [e|]; simpl; [|by eexists].
  destruct (is_TimeoutException e); by eexists.
Qed.

(** When the login form is in no context up to depth 2, [part1_login]
    raises: the [NoSuchElementException] of the frame search, unless the
    cookie-banner click raised before. *)
Lemma part1_login_not_found (creds : Nvidia.Credentials) (d : Nvidia.driver) :
  NvidiaSpec.first_holding (Nvidia.dom d) Nvidia.email_loc
    (NvidiaSpec.search_order (Nvidia.dom d)) = None ->
  fst (Nvidia.part1_login creds d)
  = Raise (default NoSuchElementException (cookie_click_error d)).
Proof.
  intros Hnone. unfold Nvidia.part1_login.
  unfold bind at 1, Nvidia.driver_get at 1.
  set (d1 := Nvidia.upd d []
               (Nvidia.trace d ++ [Nvidia.EvGet Nvidia.LOGIN_URL])).
  change ((Nvidia.log (Nvidia.EvGet Nvidia.LOGIN_URL) ;;;
           Nvidia.set_context []) d)
    with (Ok tt, d1).
  cbv beta iota. unfold bind at 1.
  destruct (cookie_banner_run d1 eq_refl) as (d2 & Hrun & Hdom).
  rewrite Hrun. change (cookie_click_error d1) with (cookie_click_error d).
  destruct (cookie_click_error d) as [e|]; [reflexivity|].
  cbv beta iota. unfold bind at 1.
  rewrite NvidiaSpec.switch_to_frame_containing_run, Hdom.
  change (Nvidia.dom d1) with (Nvidia.dom d). rewrite Hnone. reflexivity.
Qed.

(** A page without the login form, and the script's credentials. *)
Definition empty_site : Nvidia.frame := Nvidia.Frame NvidiaSpec.nothing [].

Definition creds : Nvidia.Credentials :=
  {| Nvidia.email := "YourEmail@YourEmail.com";
     Nvidia.password := "YourPassword" |}.

(** C7 (counterexample).  On a page without the login form the frame
    search does not return a value: it raises [NoSuchElementException],
    and [part1_login], its direct caller, lets it through. *)
Lemma frame_search_raises_past_its_caller :
  fst (Nvidia.switch_to_frame_containing Nvidia.email_loc
         (NvidiaSpec.browser empty_site))
    = Raise NoSuchElementException
  /\ fst (Nvidia.part1_login creds (NvidiaSpec.browser empty_site))
     = Raise NoSuchElementException.
Proof. vm_compute. split; reflexivity. Qed.

End Engine.

(** * A plain implementation of the library functions

    A small implementation of [urlparse], [parse_qs], [urlencode],
    [urlunparse], [int] and [str] for URLs of the form
    [scheme://host/path?k=v&...] over plain characters (no
    percent-encoding): it runs the script's URL arithmetic and shows that
    the laws above can be met. *)

Module PlainUrl.
Import IAI IAISpec.

(** [s.partition(c)]: the text before the first [c] and, when there is
    one, the text after it. *)
Fixpoint break_at (c : ascii) (s : string) : string * option string :=
  match s with
  | EmptyString => (EmptyString, None)
  | String a s' =>
      if Ascii.eqb a c then (EmptyString, Some s')
      else let (l, r) := break_at c s' in (String a l, r)
  end.

Fixpoint lacks (c : ascii) (s : string) : bool :=
  match s with
  | EmptyString => true
  | String a s' => negb (Ascii.eqb a c) && lacks c s'
  end.

(** [s.split(c)] *)
Fixpoint split_on (c : ascii) (s : string) : list string :=
  match s with
  | EmptyString => [EmptyString]
  | String a s' =>
      if Ascii.eqb a c then EmptyString :: split_on c s'
      else match split_on c s' with
           | p :: ps => String a p :: ps
           | [] => [String a EmptyString]
           end
  end.

(** [c.join(l)] *)
Fixpoint join (c : ascii) (l : list string) : string :=
  match l with
  | [] => EmptyString
  | [x] => x
  | x :: rest => x +:+ String c (join c rest)
  end.

(** The text after a leading [//]. *)
Definition after_slashes (s : string) : option string :=
  match s with
  | String a (String b rest) =>
      if Ascii.eqb a "/" && Ascii.eqb b "/" then Some rest else None
  | _ => None
  end.

Definition plain_urlparse (u : string) : result ParseResult :=
  match break_at ":" u with
  | (sch, Some rest) =>
      match after_slashes rest with
      | Some rest' =>
          let (host, after) := break_at "/" rest' in
          let path_query :=
            match after with
            | Some p => String "/" p
            | None => EmptyString
            end in
          let (pth, q) := break_at "?" path_query in
          Ok {| scheme := sch; netloc := host; path := pth;
                params := EmptyString;
                query := match q with Some q => q | None => EmptyString end;
                fragment := EmptyString |}
      | None => Raise ValueError
      end
  | (_, None) => Raise ValueError
  end.

Definition plain_urlunparse (p : ParseResult) : string :=
  scheme p +:+ "://" +:+ netloc p +:+ path p
  +:+ (if nonempty (query p) then String "?" (query p) else EmptyString).

(** The [name=value] fields of a query, blank values dropped. *)
Definition field (piece : string) : list (string * string) :=
  match break_at "=" piece with
  | (k, Some v) => if nonempty v then [(k, v)] else []
  | (_, None) => []
  end.

Definition fields (q : string) : list (string * string) :=
  flat_map field (split_on "&" q).

Fixpoint dict_append (k v : string) (d : list (string * list string))
  : list (string * list string) :=
  match d with
  | [] => [(k, [v])]
  | (k', l) :: rest =>
      if String.eqb k' k then (k', l ++ [v]) :: rest
      else (k', l) :: dict_append k v rest
  end.

Definition group (kvs : list (string * string))
  : list (string * list string) :=
  fold_left (fun acc kv => dict_append kv.1 kv.2 acc) kvs [].

Definition plain_parse_qs (q : string)
  : result (list (string * list string)) :=
  Ok (group (fields q)).

Definition encodable (kv : string * string) : bool :=
  lacks "&" kv.1 && lacks "=" kv.1 && lacks "&" kv.2 && nonempty kv.2.

Definition encode_field (kv : string * string) : string :=
  kv.1 +:+ String "=" kv.2.

Definition plain_urlencode (d : list (string * string)) : result string :=
  if forallb encodable d then Ok (join "&" (map encode_field d))
  else Raise ValueError.

Fixpoint digits (s : string) (acc : Z) : option Z :=
  match s with
  | EmptyString => Some acc
  | String c s' =>
      let n := Z.of_nat (nat_of_ascii c) in
      if (48 <=? n) && (n <=? 57) then digits s' (10 * acc + (n - 48))
      else None
  end.

Definition plain_int (s : string) : result Z :=
  match s with
  | EmptyString => Raise ValueError
  | _ => match digits s 0 with
         | Some z => Ok z
         | None => Raise ValueError
         end
  end.

Definition plain_str (z : Z) : string := pretty z.

#[local] Instance plain_lib : UrlLib := {|
  urlparse := plain_urlparse;
  parse_qs := plain_parse_qs;
  urlencode := plain_urlencode;
  urlunparse := plain_urlunparse;
  py_int := plain_int;
  py_str := plain_str
|}.

Example next_of_base :
  compute_next_list_url BASE_LIST_URL
  = Some "https://jobs.iai.co.il/jobs/?pr=41&pg=2"%string.
Proof. vm_compute. reflexivity. Qed.

Example next_of_page_7 :
  compute_next_list_url "https://jobs.iai.co.il/jobs/?pr=41&pg=7"
  = Some "https://jobs.iai.co.il/jobs/?pr=41&pg=8"%string.
Proof. vm_compute. reflexivity. Qed.

Example no_next_after_1000 :
  compute_next_list_url "https://jobs.iai.co.il/jobs/?pr=41&pg=1001" = None
  /\ compute_next_list_url "https://jobs.iai.co.il/jobs/?pr=41&pg=x" = None
  /\ compute_next_list_url "https://jobs.iai.co.il/job/?pr=41" = None
  /\ compute_next_list_url "https://example.org/jobs/?pr=41" = None
  /\ compute_next_list_url "https://jobs.iai.co.il/jobs/?pr=40" = None.
Proof. vm_compute. repeat split. Qed.

Lemma break_at_lacks (c : ascii) (s l : string) (r : option string) :
  break_at c s = (l, r) -> lacks c l = true.
Proof.
  revert l r. induction s as [|a s IH]; intros l r; simpl.
  - by intros [= <- <-].
  - destruct (Ascii.eqb a c) eqn:Hac; [by intros [= <- <-]|].
    destruct (break_at c s) as [l' r']. intros [= <- <-]. simpl.
    rewrite Hac. simpl. by eapply IH.
Qed.

Lemma break_at_app (c : ascii) (l r : string) :
  lacks c l = true -> break_at c (l +:+ String c r) = (l, Some r).
Proof.
  induction l as [|a l IH]; simpl.
  - intros _. by rewrite Ascii.eqb_refl.
  - intros [Hac Hl]%andb_true_iff. apply negb_true_iff in Hac.
    rewrite Hac, (IH Hl). reflexivity.
Qed.

Lemma break_at_none (c : ascii) (s : string) :
  lacks c s = true -> break_at c s = (s, None).
Proof.
  induction s as [|a s IH]; simpl; [done|].
  intros [Hac Hs]%andb_true_iff. apply negb_true_iff in Hac.
  by rewrite Hac, (IH Hs).
Qed.

Lemma lacks_app (c : ascii) (a b : string) :
  lacks c (a +:+ b) = lacks c a && lacks c b.
Proof.
  induction a as [|x a IH]; simpl; [done|]. by rewrite IH, andb_assoc.
Qed.

Lemma split_on_lacks (c : ascii) (s : string) :
  lacks c s = true -> split_on c s = [s].
Proof.
  induction s as [|a s IH]; simpl; [done|].
  intros [Hac Hs]%andb_true_iff. apply negb_true_iff in Hac.
  by rewrite Hac, (IH Hs).
Qed.

Lemma split_on_app (c : ascii) (x r : string) :
  lacks c x = true ->
  split_on c (x +:+ String c r) = x :: split_on c r.
Proof.
  induction x as [|a x IH]; simpl.
  - intros _. by rewrite Ascii.eqb_refl.
  - intros [Hac Hx]%andb_true_iff. apply negb_true_iff in Hac.
    by rewrite Hac, (IH Hx).
Qed.

Lemma split_join (c : ascii) (l : list string) :
  Forall (fun x => lacks c x = true) l -> l <> [] ->
  split_on c (join c l) = l.
Proof.
  induction l as [|x l IH]; intros Hall Hne; [done|].
  apply Forall_cons in Hall as [Hx Hl].
  destruct l as [|y l].
  - simpl. by apply split_on_lacks.
  - change (join c (x :: y :: l)) with (x +:+ String c (join c (y :: l))).
    rewrite split_on_app by done. f_equal. by apply IH.
Qed.

Lemma field_encode (kv : string * string) :
  encodable kv = true -> field (encode_field kv) = [kv].
Proof.
  destruct kv as [k v]. unfold encodable, encode_field, field; simpl.
  rewrite !andb_true_iff. intros [[[_ Hk] _] Hv].
  by rewrite (break_at_app "=" k v Hk), Hv.
Qed.

Lemma encode_field_lacks (kv : string * string) :
  encodable kv = true -> lacks "&" (encode_field kv) = true.
Proof.
  destruct kv as [k v]. unfold encodable, encode_field; simpl.
  rewrite !andb_true_iff. intros [[[Hk _] Hv] _].
  rewrite lacks_app. simpl. by rewrite Hk, Hv.
Qed.

Lemma fields_encode (d : list (string * string)) :
  forallb encodable d = true ->
  fields (join "&" (map encode_field d)) = d.
Proof.
  intros Hd. unfold fields.
  assert (Hall : Forall (fun x => encodable x = true) d).
  { rewrite forallb_forall in Hd. apply Forall_forall. intros x Hx.
    apply Hd. by apply list_elem_of_In. }
  clear Hd. destruct d as [|kv d]; [reflexivity|].
  rewrite split_join.
  - induction Hall as [|x l Hx Hl IH]; [done|].
    simpl. rewrite (field_encode x Hx). simpl. by rewrite IH.
  - apply Forall_fmap. eapply Forall_impl; [exact Hall|].
    intros x Hx. by apply encode_field_lacks.
  - done.
Qed.

Lemma dict_get_append (k k' v : string) (d : list (string * list string)) :
  dict_get k (dict_append k' v d)
  = if String.eqb k' k
    then match dict_get k d with
         | Some l => Some (l ++ [v])
         | None => Some [v]
         end
    else dict_get k d.
Proof.
  induction d as [|[k0 l] d IH]; simpl.
  - destruct (String.eqb k' k); reflexivity.
  - destruct (String.eqb k0 k') eqn:H0; simpl.
    + apply String.eqb_eq in H0 as ->.
      destruct (String.eqb k' k) eqn:Hk; simpl; by rewrite ?Hk.
    + destruct (String.eqb k0 k) eqn:H1; simpl.
      * apply String.eqb_eq in H1 as ->. by rewrite String.eqb_sym, H0.
      * exact IH.
Qed.

Lemma group_keeps_first (kvs : list (string * string)) (k x : string) :
  forall (acc : list (string * list string)) (l : list string),
    dict_get k acc = Some (x :: l) ->
    exists rest,
      dict_get k (fold_left (fun acc kv => dict_append kv.1 kv.2 acc) kvs acc)
      = Some (x :: rest).
Proof.
  induction kvs as [|[k' v'] kvs IH]; intros acc l Hacc; simpl.
  - by exists l.
  - destruct (String.eqb k' k) eqn:Hk.
    + apply (IH _ (l ++ [v'])). by rewrite dict_get_append, Hk, Hacc.
    + apply (IH _ l). by rewrite dict_get_append, Hk.
Qed.

Lemma group_first (kvs : list (string * string)) (k v : string) :
  forall acc : list (string * list string),
    dict_get k acc = None ->
    dict_get k kvs = Some v ->
    exists rest,
      dict_get k (fold_left (fun acc kv => dict_append kv.1 kv.2 acc) kvs acc)
      = Some (v :: rest).
Proof.
  induction kvs as [|[k' v'] kvs IH]; intros acc Hacc Hk; simpl in *; [done|].
  destruct (String.eqb k' k) eqn:Hkk.
  - injection Hk as ->. apply (group_keeps_first kvs k v _ []).
    by rewrite dict_get_append, Hkk, Hacc.
  - apply IH; [|done]. by rewrite dict_get_append, Hkk.
Qed.

Lemma plain_int_of_str (n : Z) :
  2 <= n <= 1001 -> plain_int (plain_str n) = Ok n.
Proof.
  intros Hn.
  assert (Hall : forallb (fun i =>
                   match plain_int (plain_str (Z.of_nat i)) with
                   | Ok z => z =? Z.of_nat i
                   | Raise _ => false
                   end) (seq 2 1000) = true) by (vm_compute; reflexivity).
  rewrite forallb_forall in Hall.
  specialize (Hall (Z.to_nat n)). rewrite Z2Nat.id in Hall by lia.
  destruct (plain_int (plain_str n)) as [z|].
  - f_equal. apply Z.eqb_eq. apply Hall. apply in_seq. lia.
  - exfalso. assert (false = true); [|done]. apply Hall. apply in_seq. lia.
Qed.

Lemma plain_urlparse_scheme (u : string) (parsed : ParseResult) :
  plain_urlparse u = Ok parsed -> lacks ":" (scheme parsed) = true.
Proof.
  unfold plain_urlparse.
  destruct (break_at ":" u) as [sch [rest|]] eqn:Hbreak; [|done].
  destruct (after_slashes rest) as [rest'|]; [|done].
  destruct (break_at "/" rest') as [host after].
  destruct (break_at "?" _) as [pth q].
  intros [= <-]. simpl. by eapply break_at_lacks.
Qed.

Lemma plain_reparse (sch q : string) :
  lacks ":" sch = true ->
  plain_urlparse
    (plain_urlunparse
       {| scheme := sch; netloc := "jobs.iai.co.il"; path := "/jobs/";
          params := EmptyString; query := q; fragment := EmptyString |})
  = Ok {| scheme := sch; netloc := "jobs.iai.co.il"; path := "/jobs/";
          params := EmptyString; query := q; fragment := EmptyString |}.
Proof.
  intros Hsch. unfold plain_urlunparse, plain_urlparse.
  cbn [scheme netloc path query].
  assert (Hshape : forall tail,
            sch +:+ "://" +:+ "jobs.iai.co.il" +:+ "/jobs/" +:+ tail
            = sch +:+ String ":" ("//jobs.iai.co.il/jobs/" +:+ tail))
    by reflexivity.
  rewrite Hshape, (break_at_app ":" sch _ Hsch).
  destruct q as [|c q]; reflexivity.
Qed.

#[local] Instance plain_laws : UrlLibLaws.
Proof.
  split.
  - apply plain_int_of_str.
  - intros u parsed base qs n d q Hp Hb Hnet Hpath Hqs Hn Hd Hq.
    simpl in *.
    vm_compute in Hb. injection Hb as <-. simpl in Hnet.
    pose proof (plain_urlparse_scheme u parsed Hp) as Hsch.
    unfold plain_urlencode in Hq.
    destruct (forallb encodable d) eqn:Henc; [|done]. injection Hq as <-.
    unfold rebuilt. simpl. rewrite Hnet, Hpath.
    rewrite (plain_reparse _ _ Hsch).
    eexists _, _. split; [reflexivity|]. simpl.
    split; [done|]. split; [done|].
    unfold plain_parse_qs. split; [reflexivity|].
    intros k v Hk. rewrite (fields_encode d Henc).
    by apply group_first.
Qed.

(** C9 (witness): with the plain library, starting from the base list
    URL, the chain of successors ends within 1001 steps; it does reach
    page 1001 on the way. *)
Lemma next_list_url_guarded_and_bounded_witness :
  follow 1001 BASE_LIST_URL = None.
Proof.
  exact (proj2 (next_list_url_guarded_and_bounded BASE_LIST_URL)).
Defined.

Example chain_reaches_page_1001 :
  follow 1000 BASE_LIST_URL
  = Some "https://jobs.iai.co.il/jobs/?pr=41&pg=1001"%string.
Proof. vm_compute. reflexivity. Qed.

End PlainUrl.

(** * Helpers shared by the models below *)

(** A query of the browser whose answer is given: it returns or raises. *)
Definition lift_result {S A} (r : result A) : M S A :=
  match r with
  | Ok a => ret a
  | Raise e => raise e
  end.

Module PyText.

(** ** Python's [str] methods on ASCII text

    The functions below follow [str.lower], [str.strip(chars)] and the
    regular-expression class [\w] on characters below 128; Python treats
    the characters above by their Unicode properties, which are not
    modelled: the theorems on them ask for ASCII text. *)

Definition is_ascii (c : ascii) : bool := (nat_of_ascii c <? 128)%nat.

Definition is_upper (c : ascii) : bool :=
  (65 <=? nat_of_ascii c)%nat && (nat_of_ascii c <=? 90)%nat.

Definition is_lower (c : ascii) : bool :=
  (97 <=? nat_of_ascii c)%nat && (nat_of_ascii c <=? 122)%nat.

Definition is_digit (c : ascii) : bool :=
  (48 <=? nat_of_ascii c)%nat && (nat_of_ascii c <=? 57)%nat.

(** [\w]: letters, digits and the underscore. *)
Definition is_word (c : ascii) : bool :=
  is_upper c || is_lower c || is_digit c || Ascii.eqb c "_".

Definition lower_char (c : ascii) : ascii :=
  if is_upper c then ascii_of_nat (nat_of_ascii c + 32) else c.

(** [s.lower()] *)
Fixpoint lower (s : string) : string :=
  match s with
  | EmptyString => EmptyString
  | String c s' => String (lower_char c) (lower s')
  end.

Fixpoint all_chars (P : ascii -> bool) (s : string) : bool :=
  match s with
  | EmptyString => true
  | String c s' => P c && all_chars P s'
  end.

Definition ascii_text (s : string) : bool := all_chars is_ascii s.

(** [s.lstrip(chars)], [s.rstrip(chars)] and [s.strip(chars)], the
    characters to remove given as a test. *)
Fixpoint lstrip_by (P : ascii -> bool) (s : string) : string :=
  match s with
  | String c s' => if P c then lstrip_by P s' else s
  | EmptyString => EmptyString
  end.

Fixpoint rstrip_by (P : ascii -> bool) (s : string) : string :=
  match s with
  | EmptyString => EmptyString
  | String c s' =>
      match rstrip_by P s' with
      | EmptyString => if P c then EmptyString else String c EmptyString
      | t => String c t
      end
  end.

Definition strip_by (P : ascii -> bool) (s : string) : string :=
  rstrip_by P (lstrip_by P s).

(** The first and the last character pass a test. *)
Definition head_is (P : ascii -> bool) (s : string) : bool :=
  match s with
  | String c _ => P c
  | EmptyString => false
  end.

Fixpoint last_is (P : ascii -> bool) (s : string) : bool :=
  match s with
  | EmptyString => false
  | String c EmptyString => P c
  | String _ s' => last_is P s'
  end.

Lemma lstrip_is_lstrip_by (s : string) : lstrip s = lstrip_by is_space s.
Proof. induction s as [|c s IH]; simpl; [done|]. by rewrite IH. Qed.

Lemma rstrip_is_rstrip_by (s : string) : rstrip s = rstrip_by is_space s.
Proof. induction s as [|c s IH]; simpl; [done|]. by rewrite IH. Qed.

Lemma strip_is_strip_by (s : string) : strip s = strip_by is_space s.
Proof.
  unfold strip, strip_by. by rewrite rstrip_is_rstrip_by, lstrip_is_lstrip_by.
Qed.

Lemma all_chars_impl (P Q : ascii -> bool) (s : string) :
  (forall c, P c = true -> Q c = true) ->
  all_chars P s = true -> all_chars Q s = true.
Proof.
  intros HPQ. induction s as [|c s IH]; simpl; [done|].
  intros [Hc Hs]%andb_true_iff. by rewrite (HPQ c Hc), IH.
Qed.

Lemma all_chars_lstrip_by (P Q : ascii -> bool) (s : string) :
  all_chars Q s = true -> all_chars Q (lstrip_by P s) = true.
Proof.
  induction s as [|c s IH]; simpl; [done|].
  intros [Hc Hs]%andb_true_iff. destruct (P c); [by apply IH|].
  simpl. by rewrite Hc, Hs.
Qed.

Lemma all_chars_rstrip_by (P Q : ascii -> bool) (s : string) :
  all_chars Q s = true -> all_chars Q (rstrip_by P s) = true.
Proof.
  induction s as [|c s IH]; simpl; [done|].
  intros [Hc Hs]%andb_true_iff. specialize (IH Hs).
  destruct (rstrip_by P s) as [|c' t].
  - destruct (P c); simpl; [done|]. by rewrite Hc.
  - change (Q c && all_chars Q (String c' t) = true). by rewrite Hc, IH.
Qed.

(** What stripping leaves neither starts nor ends with a stripped
    character. *)
Lemma head_lstrip_by (P : ascii -> bool) (s : string) :
  head_is P (lstrip_by P s) = false.
Proof.
  induction s as [|c s IH]; simpl; [done|].
  destruct (P c) eqn:Hc; [done|]. simpl. exact Hc.
Qed.

Lemma last_rstrip_by (P : ascii -> bool) (s : string) :
  last_is P (rstrip_by P s) = false.
Proof.
  induction s as [|c s IH]; simpl; [done|].
  destruct (rstrip_by P s) as [|c' t] eqn:Ht.
  - destruct (P c) eqn:Hc; simpl; [done|exact Hc].
  - exact IH.
Qed.

Lemma head_rstrip_by (P : ascii -> bool) (s : string) :
  head_is P s = false -> head_is P (rstrip_by P s) = false.
Proof.
  destruct s as [|c s]; simpl; [done|]. intros Hc.
  destruct (rstrip_by P s); [by rewrite Hc|exact Hc].
Qed.

(** Stripping leaves a text alone when it has nothing to strip. *)
Lemma lstrip_by_id (P : ascii -> bool) (s : string) :
  head_is P s = false -> lstrip_by P s = s.
Proof. destruct s as [|c s]; simpl; [done|]. by intros ->. Qed.

Lemma rstrip_by_id (P : ascii -> bool) (s : string) :
  last_is P s = false -> rstrip_by P s = s.
Proof.
  induction s as [|c s IH]; [done|].
  destruct s as [|c' s'].
  - simpl. by intros ->.
  - intros Hlast. change (last_is P (String c' s') = false) in Hlast.
    cbn [rstrip_by]. cbn [rstrip_by] in IH. rewrite (IH Hlast). reflexivity.
Qed.

Lemma starts_with_app (p a b : string) :
  starts_with p a = true -> starts_with p (a +:+ b) = true.
Proof.
  revert a. induction p as [|x p IH]; intros a; [done|].
  destruct a as [|y a]; simpl; [done|].
  destruct (Ascii.eqb x y); [apply IH|done].
Qed.

Lemma contains_app_l (p a b : string) :
  contains p a = true -> contains p (a +:+ b) = true.
Proof.
  induction a as [|y a IH].
  - simpl. rewrite orb_false_r. intros Hp.
    destruct p; [by destruct b|done].
  - cbn [contains]. intros [Hs|Hc]%orb_true_iff.
    + change (String y a +:+ b) with (String y (a +:+ b)).
      cbn [contains].
      change (String y (a +:+ b)) with (String y a +:+ b).
      by rewrite (starts_with_app _ _ _ Hs).
    + change (String y a +:+ b) with (String y (a +:+ b)).
      cbn [contains]. rewrite (IH Hc). apply orb_true_r.
Qed.

Lemma string_length_app (s t : string) :
  String.length (s +:+ t) = (String.length s + String.length t)%nat.
Proof.
  induction s as [|c s IH]; [done|].
  change (String c s +:+ t) with (String c (s +:+ t)). simpl. by rewrite IH.
Qed.

Lemma app_inj_r (t s1 s2 : string) : s1 +:+ t = s2 +:+ t -> s1 = s2.
Proof.
  revert s2. induction s1 as [|c s1 IH]; intros [|c2 s2] Heq; [done| | |].
  - apply (f_equal String.length) in Heq.
    rewrite !string_length_app in Heq. simpl in Heq. lia.
  - apply (f_equal String.length) in Heq.
    rewrite !string_length_app in Heq. simpl in Heq. lia.
  - change (String c (s1 +:+ t) = String c2 (s2 +:+ t)) in Heq.
    injection Heq as -> Heq. f_equal. by apply IH.
Qed.

End PyText.

(** * More of the Workday bot: slugs, file names and job lists *)

Module NvidiaTools.
Import PyText.

(** ** text_or_empty *)

(** [el.text] may raise; the function answers the stripped text or the
    empty string. *)
Definition text_or_empty (text : result string) : string :=
  or_empty (t <~ text ;; Ok (strip t)).

(** ** clean_slug *)

Definition is_dash (c : ascii) : bool := Ascii.eqb c "-".

(** [re.sub(r"[^\w-]+", "-", s)]: every maximal run of characters that
    are neither word characters nor dashes becomes one dash.  [in_run]
    says that the previous character belonged to such a run. *)
Fixpoint dash_runs_from (in_run : bool) (s : string) : string :=
  match s with
  | EmptyString => EmptyString
  | String c s' =>
      if is_word c || is_dash c then String c (dash_runs_from false s')
      else if in_run then dash_runs_from true s'
      else String "-" (dash_runs_from true s')
  end.

Definition dash_runs (s : string) : string := dash_runs_from false s.

(** [re.sub(r"-{2,}", "-", s)]: every run of two dashes or more becomes
    one dash.  [after_dash] says that the previous character was a
    dash. *)
Fixpoint squeeze_from (after_dash : bool) (s : string) : string :=
  match s with
  | EmptyString => EmptyString
  | String c s' =>
      if is_dash c then
        if after_dash then squeeze_from true s'
        else String c (squeeze_from true s')
      else String c (squeeze_from false s')
  end.

Definition squeeze (s : string) : string := squeeze_from false s.

Definition clean_slug (s : string) : string :=
  let s := lower (strip s) in
  let s := dash_runs s in
  let s := strip_by is_dash (squeeze s) in
  if nonempty s then s else "job".

(** The characters of a slug: lower-case letters, digits, underscore and
    dash. *)
Definition slug_char (c : ascii) : bool :=
  is_lower c || is_digit c || Ascii.eqb c "_" || is_dash c.

(** A slug: not empty, slug characters only, no dash at either end and no
    two dashes in a row. *)
Definition well_formed_slug (s : string) : bool :=
  nonempty s && all_chars slug_char s
  && negb (head_is is_dash s) && negb (last_is is_dash s)
  && negb (contains "--" s).

Local Ltac by_cases_on c :=
  destruct c as [[] [] [] [] [] [] [] []]; vm_compute; try done.

Lemma lower_char_not_upper (c : ascii) : is_upper (lower_char c) = false.
Proof. by_cases_on c. Qed.

Lemma kept_slug_char (c : ascii) :
  is_word c || is_dash c = true -> is_upper c = false -> slug_char c = true.
Proof. by_cases_on c. Qed.

Lemma slug_char_kept (c : ascii) :
  slug_char c = true -> is_word c || is_dash c = true.
Proof. by_cases_on c. Qed.

Lemma slug_char_lower (c : ascii) : slug_char c = true -> lower_char c = c.
Proof. by_cases_on c. Qed.

Lemma slug_char_not_space (c : ascii) : slug_char c = true -> is_space c = false.
Proof. by_cases_on c. Qed.

Lemma lower_no_upper (s : string) :
  all_chars (fun c => negb (is_upper c)) (lower s) = true.
Proof.
  induction s as [|c s IH]; simpl; [done|].
  by rewrite lower_char_not_upper, IH.
Qed.

Lemma dash_runs_chars (s : string) :
  forall in_run,
    all_chars (fun c => negb (is_upper c)) s = true ->
    all_chars slug_char (dash_runs_from in_run s) = true.
Proof.
  induction s as [|c s IH]; intros in_run; simpl; [done|].
  intros [Hc Hs]%andb_true_iff. apply negb_true_iff in Hc.
  destruct (is_word c || is_dash c) eqn:Hk.
  - simpl. by rewrite (kept_slug_char c Hk Hc), IH.
  - destruct in_run; simpl; by rewrite ?IH.
Qed.

Lemma squeeze_chars (P : ascii -> bool) (s : string) :
  forall after_dash,
    all_chars P s = true -> all_chars P (squeeze_from after_dash s) = true.
Proof.
  induction s as [|c s IH]; intros after_dash; simpl; [done|].
  intros [Hc Hs]%andb_true_iff.
  destruct (is_dash c); [destruct after_dash|]; simpl; by rewrite ?Hc, ?IH.
Qed.

Lemma starts_with_pair (c : ascii) (s : string) :
  starts_with "--" (String c s) = is_dash c && head_is is_dash s.
Proof.
  unfold is_dash. cbn [starts_with]. rewrite (Ascii.eqb_sym c).
  destruct (Ascii.eqb "-" c); [|done].
  destruct s as [|c' s']; [done|]. cbn [starts_with head_is].
  rewrite (Ascii.eqb_sym c'). by destruct (Ascii.eqb "-" c').
Qed.

Lemma contains_pair (c : ascii) (s : string) :
  contains "--" (String c s)
  = is_dash c && head_is is_dash s || contains "--" s.
Proof. cbn [contains]. by rewrite starts_with_pair. Qed.

(** After squeezing no two dashes are adjacent. *)
Lemma squeeze_no_pair (s : string) :
  forall after_dash,
    contains "--" (squeeze_from after_dash s) = false
    /\ (after_dash = true ->
        head_is is_dash (squeeze_from after_dash s) = false).
Proof.
  induction s as [|c s IH]; intros after_dash; cbn [squeeze_from];
    [by split|].
  destruct (is_dash c) eqn:Hc.
  - destruct after_dash.
    + apply IH.
    + destruct (IH true) as [Hno Hhead]. split; [|done].
      by rewrite contains_pair, Hno, (Hhead eq_refl), andb_false_r.
  - destruct (IH false) as [Hno _]. split.
    + by rewrite contains_pair, Hno, Hc.
    + intros _. exact Hc.
Qed.

Lemma contains_tail (p : string) (c : ascii) (s : string) :
  contains p (String c s) = false -> contains p s = false.
Proof. cbn [contains]. by intros [_ ?]%orb_false_iff. Qed.

Lemma lstrip_by_suffix (P : ascii -> bool) (p s : string) :
  contains p s = false -> contains p (lstrip_by P s) = false.
Proof.
  induction s as [|c s IH]; [done|]. intros Hno. cbn [lstrip_by].
  destruct (P c); [|done]. apply IH. by eapply contains_tail.
Qed.

Lemma rstrip_by_prefix (P : ascii -> bool) (s : string) :
  exists u, s = rstrip_by P s +:+ u.
Proof.
  induction s as [|c s [u IH]]; [by exists EmptyString|].
  cbn [rstrip_by]. destruct (rstrip_by P s) as [|c' t] eqn:Ht.
  - destruct (P c).
    + by exists (String c s).
    + exists u. rewrite IH at 1. reflexivity.
  - exists u. rewrite IH at 1. reflexivity.
Qed.

Lemma rstrip_by_contains (P : ascii -> bool) (p s : string) :
  contains p s = false -> contains p (rstrip_by P s) = false.
Proof.
  intros Hno. destruct (rstrip_by_prefix P s) as [u Hu].
  destruct (contains p (rstrip_by P s)) eqn:Hc; [|done].
  rewrite Hu, (contains_app_l _ _ _ Hc) in Hno. done.
Qed.

(** The text before the fallback to ["job"] is a slug unless it is
    empty. *)
Lemma clean_slug_well_formed (s : string) :
  well_formed_slug (clean_slug s) = true.
Proof.
  unfold clean_slug.
  set (t := strip_by is_dash (squeeze (dash_runs (lower (strip s))))).
  destruct (nonempty t) eqn:Hne; [|reflexivity].
  unfold well_formed_slug. rewrite Hne. simpl.
  assert (Hchars : all_chars slug_char t = true).
  { apply all_chars_rstrip_by, all_chars_lstrip_by, squeeze_chars,
      dash_runs_chars, lower_no_upper. }
  assert (Hhead : head_is is_dash t = false).
  { apply head_rstrip_by, head_lstrip_by. }
  assert (Hlast : last_is is_dash t = false) by apply last_rstrip_by.
  assert (Hpair : contains "--" t = false).
  { apply rstrip_by_contains, lstrip_by_suffix, squeeze_no_pair. }
  by rewrite Hchars, Hhead, Hlast, Hpair.
Qed.

(** Each step of [clean_slug] leaves a slug as it is. *)
Lemma slug_head_last (P : ascii -> bool) (s : string) :
  (forall c, slug_char c = true -> P c = false) ->
  all_chars slug_char s = true ->
  head_is P s = false /\ last_is P s = false.
Proof.
  intros HP. induction s as [|c s IH]; [done|].
  cbn [all_chars]. intros [Hc Hs]%andb_true_iff.
  split; [simpl; by apply HP|].
  destruct s as [|c' s']; [simpl; by apply HP|].
  change (last_is P (String c' s') = false). by apply IH.
Qed.

Lemma lower_slug (s : string) : all_chars slug_char s = true -> lower s = s.
Proof.
  induction s as [|c s IH]; simpl; [done|].
  intros [Hc Hs]%andb_true_iff. by rewrite (slug_char_lower c Hc), IH.
Qed.

Lemma dash_runs_slug (s : string) :
  forall in_run, all_chars slug_char s = true -> dash_runs_from in_run s = s.
Proof.
  induction s as [|c s IH]; intros in_run; simpl; [done|].
  intros [Hc Hs]%andb_true_iff. by rewrite (slug_char_kept c Hc), IH.
Qed.

Lemma squeeze_slug (s : string) :
  forall after_dash,
    contains "--" s = false ->
    (after_dash = true -> head_is is_dash s = false) ->
    squeeze_from after_dash s = s.
Proof.
  induction s as [|c s IH]; intros after_dash Hno Hhead; [done|].
  cbn [squeeze_from]. rewrite contains_pair in Hno.
  apply orb_false_iff in Hno as [Hpair Hno].
  destruct (is_dash c) eqn:Hc.
  - destruct after_dash; [simpl in Hhead; by rewrite Hhead in Hc|].
    f_equal. apply IH; [done|]. intros _. exact Hpair.
  - f_equal. by apply IH.
Qed.

Lemma clean_slug_fixed (s : string) :
  well_formed_slug s = true -> clean_slug s = s.
Proof.
  unfold well_formed_slug. rewrite !andb_true_iff, !negb_true_iff.
  intros [[[[Hne Hchars] Hhead] Hlast] Hpair].
  destruct (slug_head_last is_space s slug_char_not_space Hchars)
    as [Hsp1 Hsp2].
  unfold clean_slug.
  rewrite strip_is_strip_by. unfold strip_by.
  rewrite (lstrip_by_id _ _ Hsp1), (rstrip_by_id _ _ Hsp2).
  rewrite (lower_slug _ Hchars). unfold dash_runs, squeeze.
  rewrite (dash_runs_slug _ _ Hchars).
  rewrite (squeeze_slug s false Hpair) by done.
  rewrite (lstrip_by_id _ _ Hhead), (rstrip_by_id _ _ Hlast).
  by rewrite Hne.
Qed.

(** X1.  On ASCII text [clean_slug] always answers a usable slug: it is
    never empty, it is made of lower-case letters, digits, underscores and
    dashes only, it neither starts nor ends with a dash and it has no two
    dashes in a row. *)
Theorem clean_slug_is_a_slug (s : string) :
  ascii_text s = true ->
  clean_slug s <> EmptyString
  /\ all_chars slug_char (clean_slug s) = true
  /\ head_is is_dash (clean_slug s) = false
  /\ last_is is_dash (clean_slug s) = false
  /\ contains "--" (clean_slug s) = false.
Proof.
  intros _. pose proof (clean_slug_well_formed s) as Hwf.
  unfold well_formed_slug in Hwf.
  rewrite !andb_true_iff, !negb_true_iff, nonempty_true_iff in Hwf.
  tauto.
Qed.

Lemma clean_slug_is_a_slug_witness :
  clean_slug "  Senior GPU Engineer (C++) -- Tel_Aviv!  "
    = "senior-gpu-engineer-c-tel_aviv"%string
  /\ clean_slug "?!" = "job"%string
  /\ contains "--"
       (clean_slug "  Senior GPU Engineer (C++) -- Tel_Aviv!  ") = false.
Proof.
  split; [reflexivity|]. split; [reflexivity|].
  exact (proj2 (proj2 (proj2 (proj2
           (clean_slug_is_a_slug
              "  Senior GPU Engineer (C++) -- Tel_Aviv!  " eq_refl))))).
Defined.

(** X2.  [clean_slug] is idempotent on ASCII text: a slug it produced is
    left as it is by a second pass, and so is any text that already is a
    slug. *)
Theorem clean_slug_idempotent (s : string) :
  ascii_text s = true ->
  clean_slug (clean_slug s) = clean_slug s
  /\ (well_formed_slug s = true -> clean_slug s = s).
Proof.
  intros _. split; [|apply clean_slug_fixed].
  apply clean_slug_fixed, clean_slug_well_formed.
Qed.

Lemma clean_slug_idempotent_witness :
  clean_slug (clean_slug "Deep Learning / Compiler (Intern)")
  = clean_slug "Deep Learning / Compiler (Intern)".
Proof.
  exact (proj1 (clean_slug_idempotent
                  "Deep Learning / Compiler (Intern)" eq_refl)).
Defined.

(** ** unique_path *)

Section UniquePath.

(** [os.path.splitext] and [os.path.join] are library functions; the
    file system is the set of the paths that exist, and it does not change
    while the function runs. *)
Variable splitext : string -> string * string.
Variable join : string -> string -> string.
Variable fs : gset string.

Definition path_exists (p : string) : bool := bool_decide (p ∈ fs).

(** The [while os.path.exists(candidate)] loop; [None]: still looping
    when the fuel ran out. *)
Fixpoint unique_path_loop (fuel : nat) (base_dir root ext candidate : string)
    (i : Z) : option string :=
  match fuel with
  | O => None
  | S fuel' =>
      if path_exists candidate then
        unique_path_loop fuel' base_dir root ext
          (join base_dir (root +:+ "*" +:+ pretty i +:+ ext)) (i + 1)
      else Some candidate
  end.

Definition unique_path (fuel : nat) (base_dir filename : string)
  : option string :=
  let (root, ext) := splitext filename in
  unique_path_loop fuel base_dir root ext (join base_dir filename) 2.

(** The paths the loop tries, in order: the file name itself, then the
    root with [*2], [*3], ... before the extension. *)
Definition candidate (base_dir filename : string) (k : nat) : string :=
  match k with
  | O => join base_dir filename
  | S _ =>
      join base_dir ((splitext filename).1 +:+ "*"
                     +:+ pretty (Z.of_nat k + 1) +:+ (splitext filename).2)
  end.

Lemma candidates_fit (base_dir filename : string) (k : nat) :
  (forall j k, candidate base_dir filename j = candidate base_dir filename k
               -> j = k) ->
  (forall j, (j < k)%nat -> candidate base_dir filename j ∈ fs) ->
  (k <= size fs)%nat.
Proof.
  intros Hinj Hin.
  set (l := candidate base_dir filename <$> seq 0 k).
  assert (Hnodup : NoDup l).
  { apply NoDup_fmap_2; [intros x y; apply Hinj|apply NoDup_seq]. }
  assert (Hsub : list_to_set (C := gset string) l ⊆ fs).
  { intros p Hp. apply elem_of_list_to_set, list_elem_of_fmap in Hp
      as (j & -> & Hj).
    apply Hin. apply elem_of_seq in Hj. lia. }
  apply subseteq_size in Hsub.
  rewrite size_list_to_set in Hsub by done.
  unfold l in Hsub. by rewrite length_fmap, length_seq in Hsub.
Qed.

Lemma unique_path_loop_run (base_dir filename : string) :
  (forall j k, candidate base_dir filename j = candidate base_dir filename k
               -> j = k) ->
  forall (fuel k : nat),
    (forall j, (j < k)%nat -> candidate base_dir filename j ∈ fs) ->
    (size fs < k + fuel)%nat ->
    exists n,
      (n <= size fs)%nat
      /\ unique_path_loop fuel base_dir (splitext filename).1
           (splitext filename).2 (candidate base_dir filename k)
           (Z.of_nat k + 2)
         = Some (candidate base_dir filename n)
      /\ (candidate base_dir filename n ∉ fs)
      /\ forall j, (j < n)%nat -> candidate base_dir filename j ∈ fs.
Proof.
  intros Hinj. induction fuel as [|fuel IH]; intros k Hbelow Hfuel.
  - pose proof (candidates_fit base_dir filename k Hinj Hbelow). lia.
  - cbn [unique_path_loop]. unfold path_exists. case_bool_decide as Hk.
    + assert (Hbelow' : forall j, (j < S k)%nat ->
                          candidate base_dir filename j ∈ fs).
      { intros j Hj. destruct (decide (j = k)) as [->|]; [done|].
        apply Hbelow. lia. }
      destruct (IH (S k) Hbelow' ltac:(lia)) as (n & Hn & Hrun & Hfree & Hmin).
      exists n. split; [done|]. split; [|by split].
      cbn [candidate] in Hrun.
      replace (Z.of_nat (S k) + 1) with (Z.of_nat k + 2) in Hrun by lia.
      replace (Z.of_nat (S k) + 2) with (Z.of_nat k + 2 + 1) in Hrun by lia.
      destruct k; exact Hrun.
    + exists k. split; [|by split].
      pose proof (candidates_fit base_dir filename k Hinj Hbelow). lia.
Qed.

(** X3.  When the candidate paths are pairwise distinct, [unique_path]
    always returns, after at most as many tests as there are existing
    paths plus one: it answers the first candidate that does not exist, so
    the path it returns is free and every candidate before it is taken.
    The candidates are the file name itself, then the root of the name
    followed by [*2], [*3], ... and the extension. *)
Theorem unique_path_first_free (base_dir filename : string) (fuel : nat) :
  (forall j k, candidate base_dir filename j = candidate base_dir filename k
               -> j = k) ->
  (size fs < fuel)%nat ->
  exists n,
    (n <= size fs)%nat
    /\ unique_path fuel base_dir filename
       = Some (candidate base_dir filename n)
    /\ path_exists (candidate base_dir filename n) = false
    /\ forall j, (j < n)%nat ->
         path_exists (candidate base_dir filename j) = true.
Proof.
  intros Hinj Hfuel.
  destruct (unique_path_loop_run base_dir filename Hinj fuel 0)
    as (n & Hn & Hrun & Hfree & Hmin); [intros j Hj; lia|lia|].
  exists n. split; [done|]. split.
  - unfold unique_path. destruct (splitext filename) as [root ext] eqn:Hsp.
    exact Hrun.
  - split; [by apply bool_decide_eq_false|].
    intros j Hj. by apply bool_decide_eq_true, Hmin.
Qed.

End UniquePath.

(** A directory that already holds [report.txt] and [report*2.txt]. *)
Definition posix_join (a b : string) : string := a +:+ "/" +:+ b.

Definition report_splitext (f : string) : string * string :=
  ("report", ".txt")%string.

Definition reports : gset string :=
  {[ "out/report.txt"; "out/report*2.txt" ]}%string.

Lemma report_candidates_distinct (j k : nat) :
  candidate report_splitext posix_join "out" "report.txt" j
  = candidate report_splitext posix_join "out" "report.txt" k ->
  j = k.
Proof.
  unfold candidate, posix_join, report_splitext. cbn [fst snd].
  destruct j as [|j], k as [|k]; [done| | |].
  - intros Heq. do 2 apply String.app_inj in Heq. discriminate Heq.
  - intros Heq. do 2 apply String.app_inj in Heq. discriminate Heq.
  - intros Heq. do 4 apply String.app_inj in Heq.
    apply app_inj_r, pretty_Z_inj in Heq. lia.
Qed.

Lemma unique_path_first_free_witness :
  exists n,
    (n <= size reports)%nat
    /\ unique_path report_splitext posix_join reports 3 "out" "report.txt"
       = Some (candidate report_splitext posix_join "out" "report.txt" n)
    /\ path_exists reports
         (candidate report_splitext posix_join "out" "report.txt" n) = false
    /\ forall j, (j < n)%nat ->
         path_exists reports
           (candidate report_splitext posix_join "out" "report.txt" j) = true.
Proof.
  apply (unique_path_first_free report_splitext posix_join reports
           "out" "report.txt" 3 report_candidates_distinct).
  vm_compute. lia.
Defined.

Example third_report :
  unique_path report_splitext posix_join reports 3 "out" "report.txt"
  = Some "out/report*3.txt"%string.
Proof. vm_compute. reflexivity. Qed.

End NvidiaTools.

(** ** collect_jobs_on_current_page *)

Module JobList.
Import Nvidia NvidiaTools.

(** A job-title link of the results page, as the script's queries see
    it. *)
Record anchor : Type := {
  a_is_displayed : result bool;       (* a.is_displayed() *)
  a_text : result string;             (* a.text *)
  a_href : result (option string)     (* a.get_attribute("href") *)
}.

Record job : Type := { title : string; url : string }.

(** What the results page answers while the jobs are collected. *)
Record listing : Type := {
  links_present : option exn;         (* the wait for the first link *)
  job_title_links : result (list anchor)
}.

Section WithUrlJoin.

(** [urllib.parse.urljoin] is a library function. *)
Variable urljoin : string -> string -> string.

(** [[a for a in links if a.is_displayed()]] *)
Fixpoint displayed (ls : list anchor) : result (list anchor) :=
  match ls with
  | [] => Ok []
  | a :: rest =>
      shown <~ a_is_displayed a ;;
      rest' <~ displayed rest ;;
      Ok (if shown then a :: rest' else rest')
  end.

(** The body of the [for a in links[:20]] loop. *)
Definition job_of (a : anchor) : result job :=
  let title := text_or_empty (a_text a) in
  h <~ a_href a ;;
  let href := or_str h EmptyString in
  Ok {| title := title;
        url := if starts_with "/" href then urljoin ROOT_URL href
               else href |}.

Fixpoint jobs_of (ls : list anchor) : result (list job) :=
  match ls with
  | [] => Ok []
  | a :: rest =>
      j <~ job_of a ;;
      js <~ jobs_of rest ;;
      Ok (j :: js)
  end.

Definition collect_jobs_on_current_page (pg : listing) : M driver (list job) :=
  outcome (links_present pg) ;;;
  time_sleep 1000 ;;;
  links <- lift_result (job_title_links pg) ;;
  shown <- lift_result (displayed links) ;;
  lift_result (jobs_of (take 20 shown)).

(** A link that answers that it is displayed. *)
Definition is_shown (a : anchor) : bool :=
  match a_is_displayed a with
  | Ok true => true
  | _ => false
  end.

Lemma displayed_filter (ls shown : list anchor) :
  displayed ls = Ok shown -> shown = List.filter is_shown ls.
Proof.
  revert shown. induction ls as [|a ls IH]; intros shown; simpl.
  - by intros [= <-].
  - unfold is_shown, rbind.
    destruct (a_is_displayed a) as [b|]; [|done].
    destruct (displayed ls) as [rest|]; [|done].
    intros [= <-]. rewrite (IH rest eq_refl). by destruct b.
Qed.

Lemma jobs_of_each (ls : list anchor) (jobs : list job) :
  jobs_of ls = Ok jobs -> Forall2 (fun a j => job_of a = Ok j) ls jobs.
Proof.
  revert jobs. induction ls as [|a ls IH]; intros jobs; simpl.
  - intros [= <-]. constructor.
  - unfold rbind at 1. destruct (job_of a) as [j|] eqn:Hj; [|done].
    unfold rbind. destruct (jobs_of ls) as [js|]; [|done].
    intros [= <-]. constructor; [done|by apply IH].
Qed.

(** X4.  When [collect_jobs_on_current_page] returns, it has slept one
    second and its jobs are those of the first 20 links that answered
    that they are displayed, one job per link and in page order: never
    more than 20, and never one for a hidden link. *)
Theorem collect_jobs_first_20_displayed (pg : listing) (d d' : driver)
    (jobs : list job) :
  collect_jobs_on_current_page pg d = (Ok jobs, d') ->
  exists links,
    job_title_links pg = Ok links
    /\ Forall2 (fun a j => job_of a = Ok j)
         (take 20 (List.filter is_shown links)) jobs
    /\ (length jobs <= 20)%nat
    /\ clock d' = clock d + 1000.
Proof.
  unfold collect_jobs_on_current_page, bind, outcome, time_sleep, log,
    modify, advance, lift_result, bind, ret, raise.
  destruct (links_present pg) as [e|]; [done|].
  destruct (job_title_links pg) as [links|]; [|done].
  destruct (displayed links) as [shown|] eqn:Hshown; [|done].
  destruct (jobs_of (take 20 shown)) as [js|] eqn:Hjobs; [|done].
  intros [= <- <-].
  apply displayed_filter in Hshown. subst shown.
  exists links. split; [done|].
  pose proof (jobs_of_each _ _ Hjobs) as Heach.
  split; [exact Heach|]. split; [|reflexivity].
  apply Forall2_length in Heach. rewrite <- Heach, length_take. lia.
Qed.

End WithUrlJoin.

(** A page of 25 links, the first of them hidden. *)
Definition link (shown : bool) (name : string) : anchor :=
  {| a_is_displayed := Ok shown; a_text := Ok ("  " +:+ name);
     a_href := Ok (Some ("/job/" +:+ name)) |}.

Definition crowded : listing :=
  {| links_present := None;
     job_title_links := Ok (link false "hidden" :: replicate 24 (link true "x"))
  |}.

Definition plain_join (base ref : string) : string := base +:+ ref.

Lemma collect_jobs_first_20_displayed_witness :
  exists jobs,
    fst (collect_jobs_on_current_page plain_join crowded
           (NvidiaSpec.showing NvidiaSpec.blank_page 0)) = Ok jobs
    /\ length jobs = 20%nat
    /\ jobs !! 0%nat
       = Some {| title := "x"; url := plain_join ROOT_URL "/job/x" |}.
Proof.
  destruct (collect_jobs_on_current_page plain_join crowded
              (NvidiaSpec.showing NvidiaSpec.blank_page 0))
    as [[jobs|e] d'] eqn:Hrun; [|by vm_compute in Hrun].
  exists jobs. split; [reflexivity|].
  destruct (collect_jobs_first_20_displayed plain_join crowded _ _ _ Hrun)
    as (links & Hlinks & Heach & _).
  injection Hlinks as <-.
  vm_compute in Hrun. injection Hrun as <- _. split; reflexivity.
Defined.

End JobList.

(** * The whole of go_to_next_results_page_if_any *)

Module Pagination.
Import Nvidia PyText.

(** ** The pagination bar as the script's queries see it *)

(** A candidate for the next-page button. *)
Record next_button : Type := {
  nb_element : element;                      (* how it answers clicks *)
  nb_is_displayed : result bool;             (* is_displayed() *)
  nb_aria_disabled : result (option string); (* get_attribute("aria-disabled") *)
  nb_disabled : result (option string)       (* get_attribute("disabled") *)
}.

(** A [nav[aria-label='pagination']] element. *)
Record pagination_nav : Type := {
  nav_id : nat;
  nav_scroll : option exn;                   (* scrollIntoView on the nav *)
  nav_find : string -> result (list next_button)
                                             (* nav.find_elements(CSS, sel) *)
}.

(** The function looks for the pagination bars twice, once to scroll to
    the last one and once to search it; the two answers are given
    separately. *)
Record pager : Type := {
  navs_for_scroll : result (list pagination_nav);
  navs_for_search : result (list pagination_nav);
  scroll_to_bottom : option exn;             (* window.scrollTo(0, ...) *)
  chevron : result next_button               (* find_element(XPATH, chevron) *)
}.

Definition next_selectors : list string :=
  [ "button[data-uxi-widget-type='stepToNextButton']";
    "button[data-uxi-element-id='next']";
    "button[aria-label='next']" ]%string.

(** The locator of the clickability wait before the click. *)
Definition self_loc : locator := (XPATH, ".//self::*"%string).

(** ** The function *)

(** The [for sel in [...]] loop: the first candidate of the first
    selector whose first candidate is displayed. *)
Fixpoint first_displayed (nav : pagination_nav) (sels : list string)
  : result (option next_button) :=
  match sels with
  | [] => Ok None
  | sel :: rest =>
      cand <~ nav_find nav sel ;;
      match cand with
      | [] => first_displayed nav rest
      | c :: _ =>
          shown <~ nb_is_displayed c ;;
          if shown then Ok (Some c) else first_displayed nav rest
      end
  end.

(** The search for the next button, in the last pagination bar and then
    by the chevron icon; any error leaves [next_btn] at [None]. *)
Definition find_next_btn (pg : pager) : option next_button :=
  match
    (navs <~ navs_for_search pg ;;
     found <~ match last navs with
              | Some nav => first_displayed nav next_selectors
              | None => Ok None
              end ;;
     match found with
     | Some b => Ok (Some b)
     | None => b <~ chevron pg ;; Ok (Some b)
     end)
  with
  | Ok o => o
  | Raise _ => None
  end.

(** The test for the last page; an error of the attribute reads counts
    as not disabled. *)
Definition is_disabled (b : next_button) : bool :=
  match
    (a <~ nb_aria_disabled b ;;
     if String.eqb (lower (or_str a EmptyString)) "true" then Ok true else
     d <~ nb_disabled b ;;
     Ok (bool_decide (d <> None)))
  with
  | Ok r => r
  | Raise _ => false
  end.

Definition bring_pagination_into_view (pg : pager) : M driver unit :=
  try (navs <- lift_result (navs_for_scroll pg) ;;
       match last navs with
       | Some nav =>
           log (EvScroll (nav_id nav)) ;;;
           outcome (nav_scroll nav) ;;;
           time_sleep 400
       | None =>
           outcome (scroll_to_bottom pg) ;;;
           time_sleep 600
       end)
  except any_Exception => ret tt.

Definition go_to_next_results_page_if_any (pg : pager) : M driver bool :=
  before_state <- get_pagination_state ;;
  bring_pagination_into_view pg ;;;
  match find_next_btn pg with
  | None => ret false
  | Some next_btn =>
      if is_disabled next_btn then ret false else
      (try (execute_script_scrollIntoView (nb_element next_btn) ;;;
            time_sleep 100)
       except any_Exception => ret tt) ;;;
      next_btn <- (try (element_to_be_clickable self_loc)
                   except any_Exception => ret (nb_element next_btn)) ;;
      clicked <- (try (robust_click next_btn)
                  except any_Exception => ret false) ;;
      clicked <- (if clicked then ret true
                  else try (execute_script_click next_btn ;;; ret true)
                       except any_Exception => ret false) ;;
      if clicked then wait_for_page_change before_state else ret false
  end.

(** ** What the function does *)

Definition is_click (e : event) : bool :=
  match e with
  | EvNativeClick _ | EvJsClick _ | EvActionChain _ => true
  | _ => false
  end.

Definition click_id (e : event) : option nat :=
  match e with
  | EvNativeClick i | EvJsClick i | EvActionChain i => Some i
  | _ => None
  end.

Definition clicks (t : list event) : list event := List.filter is_click t.

(** The element the clicks are made on: the one the clickability wait
    on [.//self::*] returns when it returns one, else the next button. *)
Definition click_target (d : driver) (b : next_button) : element :=
  match NvidiaSpec.lookup_el d self_loc with
  | Some el => if el_displayed el && el_enabled el then el else nb_element b
  | None => nb_element b
  end.

(** Some way of clicking the element works: [robust_click], or the script
    click the function falls back to. *)
Definition can_click (el : element) : bool :=
  bool_decide (native_click el = None)
  || bool_decide (js_click el = None)
  || bool_decide (action_click el = None).

(** The driver once the snapshot before the click is taken. *)
Definition first_snapshot (d : driver) : driver :=
  {| dom := dom d; url_changes := url_changes d; context := context d;
     feed := feed d; polls := S (polls d);
     clock := clock d + Z.of_N (obs_cost (feed d (polls d)));
     trace := trace d ++ [EvSnapshot (polls d)] |}.

(** [d'] is [d] some time later: the same document, context and
    observations to come, with [new] added to the trace. *)
Definition later (d d' : driver) (new : list event) : Prop :=
  dom d' = dom d /\ context d' = context d /\ feed d' = feed d
  /\ polls d' = polls d /\ trace d' = trace d ++ new.

Lemma later_refl (d : driver) : later d d [].
Proof. unfold later. by rewrite app_nil_r. Qed.

Lemma later_trans (d1 d2 d3 : driver) (n1 n2 : list event) :
  later d1 d2 n1 -> later d2 d3 n2 -> later d1 d3 (n1 ++ n2).
Proof.
  intros (? & ? & ? & ? & Ht1) (? & ? & ? & ? & Ht2). unfold later.
  rewrite Ht2, Ht1, (assoc_L (++)). repeat split; congruence.
Qed.

Lemma later_elapsed (d d' : driver) (new : list event) (k : nat) :
  later d d' new -> NvidiaSpec.elapsed d' k = NvidiaSpec.elapsed d k.
Proof.
  intros (_ & _ & Hf & Hp & _). induction k as [|k IH]; simpl; [done|].
  by rewrite IH, Hf, Hp.
Qed.

Lemma later_snapshot (d d' : driver) (new : list event) (k : nat) :
  later d d' new -> NvidiaSpec.snapshot_at d' k = NvidiaSpec.snapshot_at d k.
Proof.
  intros (_ & _ & Hf & Hp & _). unfold NvidiaSpec.snapshot_at.
  by rewrite Hf, Hp.
Qed.

Lemma later_target (d d' : driver) (new : list event) (b : next_button) :
  later d d' new -> click_target d' b = click_target d b.
Proof.
  intros (Hd & Hc & _). unfold click_target, NvidiaSpec.lookup_el,
    current_frame. by rewrite Hd, Hc.
Qed.

Lemma clicks_app (t1 t2 : list event) : clicks (t1 ++ t2) = clicks t1 ++ clicks t2.
Proof. apply List.filter_app. Qed.

Lemma get_pagination_state_run (d : driver) :
  get_pagination_state d = (Ok (NvidiaSpec.snapshot_at d 0), first_snapshot d).
Proof.
  destruct d as [dm uc cx fd pl ck tr].
  unfold get_pagination_state, NvidiaSpec.snapshot_at, first_snapshot, bind,
    get, log, count_poll, advance, modify, ret; simpl.
  by rewrite Nat.add_0_r.
Qed.

Lemma bring_pagination_into_view_run (pg : pager) (d : driver) :
  exists d' new,
    bring_pagination_into_view pg d = (Ok tt, d')
    /\ later d d' new /\ clicks new = [].
Proof.
  destruct d as [dm uc cx fd pl ck tr].
  unfold bring_pagination_into_view, try_except, bind, lift_result, outcome,
    time_sleep, log, advance, modify, ret, raise; simpl.
  destruct (navs_for_scroll pg) as [navs|e]; simpl.
  - destruct (last navs) as [nav|]; simpl.
    + destruct (nav_scroll nav) as [e|]; simpl.
      * eexists _, [_]. split; [reflexivity|]. by repeat split.
      * eexists _, [_; _]. split; [reflexivity|].
        unfold later; simpl. rewrite <- (assoc_L (++)). by repeat split.
    + destruct (scroll_to_bottom pg) as [e|]; simpl.
      * eexists _, []. split; [reflexivity|].
        unfold later; simpl. rewrite app_nil_r. by repeat split.
      * eexists _, [_]. split; [reflexivity|]. by repeat split.
  - eexists _, []. split; [reflexivity|].
    unfold later; simpl. rewrite app_nil_r. by repeat split.
Qed.

Lemma scroll_to_button_run (el : element) (d : driver) :
  exists d' new,
    (try (execute_script_scrollIntoView el ;;; time_sleep 100)
     except any_Exception => ret tt) d = (Ok tt, d')
    /\ later d d' new /\ clicks new = [].
Proof.
  destruct d as [dm uc cx fd pl ck tr].
  unfold try_except, bind, execute_script_scrollIntoView, outcome,
    time_sleep, log, advance, modify, ret, raise; simpl.
  destruct (scroll_center el) as [e|]; simpl.
  - eexists _, [_]. split; [reflexivity|]. by repeat split.
  - eexists _, [_; _]. split; [reflexivity|].
    unfold later; simpl. rewrite <- (assoc_L (++)). by repeat split.
Qed.

Lemma clickable_self_run (b : next_button) (d : driver) :
  exists d',
    (try (element_to_be_clickable self_loc)
     except any_Exception => ret (nb_element b)) d
    = (Ok (click_target d b), d')
    /\ later d d' [EvWait (context d) self_loc].
Proof.
  destruct d as [dm uc cx fd pl ck tr].
  unfold try_except, bind, element_to_be_clickable, click_target,
    NvidiaSpec.lookup_el, current_frame, get, log, modify, bind, ret, raise;
    simpl.
  destruct (frame_at dm cx) as [f|]; simpl;
    [|eexists; split; [reflexivity|by repeat split]].
  destruct (content f self_loc) as [el|]; simpl;
    [|eexists; split; [reflexivity|by repeat split]].
  destruct (el_displayed el && el_enabled el); simpl;
    eexists; (split; [reflexivity|by repeat split]).
Qed.

(** The clicks [robust_click] and the fallback make all go to the
    element they are given. *)
Lemma click_calls_run {A} (el : element) (k : bool -> M driver A)
    (d : driver) :
  exists d' new,
    (clicked <- (try (robust_click el) except any_Exception => ret false) ;;
     clicked <- (if clicked then ret true
                 else try (execute_script_click el ;;; ret true)
                      except any_Exception => ret false) ;;
     k clicked) d
    = k (can_click el) d'
    /\ later d d' new
    /\ Forall (fun e => is_click e = true -> click_id e = Some (el_id el)) new.
Proof.
  unfold bind at 1, try_except at 1. rewrite NvidiaSpec.robust_click_run.
  unfold NvidiaSpec.calls_of, stage_ok, can_click.
  destruct d as [dm uc cx fd pl ck tr].
  unfold try_except, bind, execute_script_click, outcome, log, modify, ret,
    raise, with_trace, upd; simpl.
  destruct (native_click el), (scroll_center el), (js_click el),
    (action_click el); simpl;
    eexists _, _; (split; [reflexivity|]);
    (split; [unfold later; simpl; rewrite <- ?(assoc_L (++));
             repeat split; reflexivity|]);
    repeat (constructor; try done).
Qed.

Lemma after_polls_later (k : nat) :
  forall d : driver,
    exists new,
      trace (NvidiaSpec.after_polls d k) = trace d ++ new /\ clicks new = [].
Proof.
  induction k as [|k IH]; intros d.
  - exists []. by rewrite app_nil_r.
  - cbn [NvidiaSpec.after_polls].
    destruct (IH (NvidiaSpec.after_poll d)) as (new & Ht & Hq).
    exists ([EvSleep 600; EvSnapshot (polls d)] ++ new).
    split; [rewrite Ht; simpl; by rewrite <- (assoc_L (++))|].
    by rewrite clicks_app, Hq.
Qed.

Lemma wait_true_iff (before : pagination_state) (d : driver) :
  fst (wait_for_page_change before d) = Ok true <->
  exists k,
    NvidiaSpec.elapsed d k < 20000
    /\ NvidiaSpec.changed before (NvidiaSpec.snapshot_at d k) = true.
Proof.
  destruct (NvidiaSpec.wait_for_page_change_total before d)
    as [(k & Hrun & Hk & Hch & Hmin)|(k & Hrun & Hk & Hmin)];
    rewrite Hrun; simpl.
  - split; [intros _; by exists k|done].
  - split; [done|]. intros (k0 & Hk0 & Hch0). exfalso.
    destruct (decide (k0 < k)%nat) as [Hlt|Hge].
    + destruct (Hmin k0 Hlt) as [_ Hno]. congruence.
    + pose proof (NvidiaSpec.elapsed_mono d k k0 ltac:(lia)). lia.
Qed.

Lemma wait_run (before : pagination_state) (d : driver) :
  exists r d' new,
    wait_for_page_change before d = (Ok r, d')
    /\ trace d' = trace d ++ new /\ clicks new = [].
Proof.
  destruct (NvidiaSpec.wait_for_page_change_total before d)
    as [(k & Hrun & _)|(k & Hrun & _)]; rewrite Hrun;
    [destruct (after_polls_later (S k) d) as (new & Ht & Hq)
    |destruct (after_polls_later k d) as (new & Ht & Hq)];
    by eexists _, _, new.
Qed.

(** The function as a whole. *)
Lemma go_to_next_run (pg : pager) (d : driver) :
  exists r d' new,
    go_to_next_results_page_if_any pg d = (Ok r, d')
    /\ trace d' = trace d ++ EvSnapshot (polls d) :: new
    /\ (r = true <->
        exists b,
          find_next_btn pg = Some b /\ is_disabled b = false
          /\ can_click (click_target d b) = true
          /\ exists k,
               NvidiaSpec.elapsed (first_snapshot d) k < 20000
               /\ NvidiaSpec.changed (NvidiaSpec.snapshot_at d 0)
                    (NvidiaSpec.snapshot_at (first_snapshot d) k) = true)
    /\ (forall e, e ∈ new -> is_click e = true ->
        exists b,
          find_next_btn pg = Some b /\ is_disabled b = false
          /\ click_id e = Some (el_id (click_target d b)))
    /\ ((forall b, find_next_btn pg = Some b -> is_disabled b = true) ->
        polls d' = S (polls d)).
Proof.
  unfold go_to_next_results_page_if_any.
  unfold bind at 1. rewrite get_pagination_state_run. cbv beta iota.
  set (d1 := first_snapshot d). set (before := NvidiaSpec.snapshot_at d 0).
  assert (Htr1 : trace d1 = trace d ++ [EvSnapshot (polls d)]) by done.
  unfold bind at 1.
  destruct (bring_pagination_into_view_run pg d1)
    as (d2 & new2 & Hrun2 & Hl2 & Hq2).
  rewrite Hrun2. cbv beta iota.
  assert (Hquiet2 : forall e, e ∈ new2 -> is_click e = true -> False).
  { intros e He Hc.
    assert (e ∈ clicks new2) as Hin
      by (apply list_elem_of_In, filter_In; split;
          [by apply list_elem_of_In|done]).
    rewrite Hq2 in Hin. by apply elem_of_nil in Hin. }
  assert (Hstop : exists r d' new,
            (Ok false, d2) = (Ok r, d')
            /\ trace d' = trace d ++ EvSnapshot (polls d) :: new
            /\ (r = true -> False)
            /\ (forall e, e ∈ new -> is_click e = true -> False)
            /\ polls d' = S (polls d)).
  { exists false, d2, new2. split; [done|].
    destruct Hl2 as (_ & _ & _ & Hp & Ht).
    split; [rewrite Ht, Htr1, <- (assoc_L (++)); done|].
    split; [done|]. split; [exact Hquiet2|]. by rewrite Hp. }
  destruct (find_next_btn pg) as [b|] eqn:Hfind.
  2: { destruct Hstop as (r & d' & new & Heq & Ht & Hr & Hc & Hp).
       exists r, d', new. split; [exact Heq|]. split; [exact Ht|].
       split; [split; [by intros ?%Hr|by intros (? & ? & _)]|].
       split; [intros e He Hce; destruct (Hc e He Hce)|by intros _]. }
  destruct (is_disabled b) eqn:Hdis.
  { destruct Hstop as (r & d' & new & Heq & Ht & Hr & Hc & Hp).
    exists r, d', new. split; [exact Heq|]. split; [exact Ht|].
    split; [split; [by intros ?%Hr|intros (b' & [= <-] & ? & _); congruence]|].
    split; [intros e He Hce; destruct (Hc e He Hce)|by intros _]. }
  clear Hstop.
  unfold bind at 1.
  destruct (scroll_to_button_run (nb_element b) d2)
    as (d3 & new3 & Hrun3 & Hl3 & Hq3).
  rewrite Hrun3. cbv beta iota.
  unfold bind at 1.
  destruct (clickable_self_run b d3) as (d4 & Hrun4 & Hl4).
  rewrite Hrun4. cbv beta iota.
  pose proof (later_trans _ _ _ _ _ Hl2 Hl3) as Hl13.
  pose proof (later_trans _ _ _ _ _ Hl13 Hl4) as Hl14.
  assert (Htarget : click_target d3 b = click_target d b).
  { rewrite (later_target _ _ _ b Hl13). unfold click_target,
      NvidiaSpec.lookup_el, current_frame. reflexivity. }
  rewrite Htarget. set (target := click_target d b).
  destruct (click_calls_run target
              (fun clicked : bool =>
                 if clicked then wait_for_page_change before else ret false)
              d4) as (d5 & new5 & Hrun5 & Hl5 & Hc5).
  rewrite Hrun5.
  pose proof (later_trans _ _ _ _ _ Hl14 Hl5) as Hl15.
  set (quiet := (new2 ++ new3) ++ [EvWait (context d3) self_loc]) in *.
  assert (Hquiet : forall e, e ∈ quiet ++ new5 -> is_click e = true ->
            click_id e = Some (el_id target)).
  { intros e He Hce. apply elem_of_app in He as [He|He].
    - exfalso. assert (e ∈ clicks quiet) as Hin
        by (apply list_elem_of_In, filter_In; split;
            [by apply list_elem_of_In|done]).
      unfold quiet in Hin. rewrite !clicks_app, Hq2, Hq3 in Hin.
      simpl in Hin. by apply elem_of_nil in Hin.
    - rewrite Forall_forall in Hc5. by apply Hc5. }
  destruct Hl15 as (_ & _ & _ & Hp5 & Ht5).
  destruct (can_click target) eqn:Hcan.
  - destruct (wait_run before d5) as (r & d6 & new6 & Hrun6 & Ht6 & Hq6).
    rewrite Hrun6. exists r, d6, ((quiet ++ new5) ++ new6).
    split; [done|].
    split; [rewrite Ht6, Ht5, Htr1, <- !(assoc_L (++)); done|].
    split.
    + pose proof (wait_true_iff before d5) as Hiff. rewrite Hrun6 in Hiff.
      simpl in Hiff.
      assert (Hsame : forall k,
                NvidiaSpec.elapsed d5 k = NvidiaSpec.elapsed d1 k
                /\ NvidiaSpec.snapshot_at d5 k = NvidiaSpec.snapshot_at d1 k).
      { intros k. pose proof (later_trans _ _ _ _ _ Hl14 Hl5) as Hl.
        split; [by eapply later_elapsed|by eapply later_snapshot]. }
      split.
      * intros ->. exists b. split; [done|]. split; [done|]. split; [done|].
        destruct (proj1 Hiff eq_refl) as (k & Hk & Hch).
        exists k. destruct (Hsame k) as [<- <-]. by split.
      * intros (b' & _ & _ & _ & k & Hk & Hch).
        assert (Ok r = Ok true) as [= ->]; [|done].
        apply Hiff. exists k. destruct (Hsame k) as [-> ->]. by split.
    + split.
      * intros e He Hce. exists b. split; [done|]. split; [done|].
        apply elem_of_app in He as [He|He]; [by apply Hquiet|].
        exfalso. assert (e ∈ clicks new6) as Hin
          by (apply list_elem_of_In, filter_In; split;
              [by apply list_elem_of_In|done]).
        rewrite Hq6 in Hin. by apply elem_of_nil in Hin.
      * intros Hall. rewrite (Hall b eq_refl) in Hdis. done.
  - exists false, d5, (quiet ++ new5). split; [done|].
    split; [rewrite Ht5, Htr1, <- !(assoc_L (++)); done|].
    split; [split; [done|intros (b' & [= <-] & _ & Hcan' & _);
                         unfold target in Hcan; congruence]|].
    split.
    + intros e He Hce. exists b. split; [done|]. split; [done|].
      by apply Hquiet.
    + intros Hall. rewrite (Hall b eq_refl) in Hdis. done.
Qed.

Lemma no_clicks (l : list event) :
  (forall e, e ∈ l -> is_click e = true -> False) -> clicks l = [].
Proof.
  induction l as [|e l IH]; intros Hno; [done|]. simpl.
  destruct (is_click e) eqn:He.
  - exfalso. apply (Hno e); [left|done].
  - apply IH. intros e' He'. apply Hno. by right.
Qed.

(** X5.  [go_to_next_results_page_if_any] never raises: whatever the
    queries on the pagination bar answer or raise, and whatever the clicks
    do, it returns a truth value; and the first thing it does on the page
    is to take the snapshot the wait compares with. *)
Theorem go_to_next_never_raises (pg : pager) (d : driver) :
  exists r new,
    fst (go_to_next_results_page_if_any pg d) = Ok r
    /\ trace (snd (go_to_next_results_page_if_any pg d))
       = trace d ++ EvSnapshot (polls d) :: new.
Proof.
  destruct (go_to_next_run pg d) as (r & d' & new & Hrun & Ht & _).
  rewrite Hrun. by exists r, new.
Qed.

(** X6.  When the search finds no next button, or finds one that reads
    as disabled, the function returns [False] without a single click and
    without waiting: no click is added to the trace and the only snapshot
    taken is the one before. *)
Theorem no_click_without_enabled_next_button (pg : pager) (d : driver) :
  (forall b, find_next_btn pg = Some b -> is_disabled b = true) ->
  fst (go_to_next_results_page_if_any pg d) = Ok false
  /\ clicks (trace (snd (go_to_next_results_page_if_any pg d)))
     = clicks (trace d)
  /\ polls (snd (go_to_next_results_page_if_any pg d)) = S (polls d).
Proof.
  intros Hall.
  destruct (go_to_next_run pg d)
    as (r & d' & new & Hrun & Ht & Hr & Hc & Hp).
  rewrite Hrun. simpl. split.
  - destruct r; [|done]. destruct (proj1 Hr eq_refl) as (b & Hb & Hdis & _).
    rewrite (Hall b Hb) in Hdis. done.
  - split; [|by apply Hp].
    rewrite Ht, clicks_app. simpl. rewrite (no_clicks new), app_nil_r; [done|].
    intros e He Hce. destruct (Hc e He Hce) as (b & Hb & Hdis & _).
    rewrite (Hall b Hb) in Hdis. done.
Qed.

(** X7.  The function returns [True] exactly when the search finds a
    next button that does not read as disabled, some way of clicking the
    click target works (native click, script click or pointer click), and a
    poll started within 20 s of the click shows a signal that is non-empty
    both in the snapshot taken at the start of the function and now, and
    differs. *)
Theorem next_page_true_iff (pg : pager) (d : driver) :
  fst (go_to_next_results_page_if_any pg d) = Ok true <->
  exists b,
    find_next_btn pg = Some b /\ is_disabled b = false
    /\ can_click (click_target d b) = true
    /\ exists k,
         NvidiaSpec.elapsed (first_snapshot d) k < 20000
         /\ NvidiaSpec.changed (NvidiaSpec.snapshot_at d 0)
              (NvidiaSpec.snapshot_at (first_snapshot d) k) = true.
Proof.
  destruct (go_to_next_run pg d) as (r & d' & new & Hrun & _ & Hr & _).
  rewrite Hrun. simpl. rewrite <- Hr. split; [by intros [= ->]|by intros ->].
Qed.

(** X8.  Every click the function makes goes to one element, the click
    target: when the clickability wait on [.//self::*] returns an element
    (the first element that locator finds in the current document, if it
    is displayed and enabled), all clicks go to that element and none to
    the next button that was found; only when that wait fails do the
    clicks go to the next button. *)
Theorem clicks_go_to_the_waited_element (pg : pager) (d : driver) :
  exists new,
    trace (snd (go_to_next_results_page_if_any pg d)) = trace d ++ new
    /\ forall e, e ∈ new -> is_click e = true ->
         exists b,
           find_next_btn pg = Some b
           /\ click_id e = Some (el_id (click_target d b))
           /\ (forall r, NvidiaSpec.lookup_el d self_loc = Some r ->
                         el_displayed r && el_enabled r = true ->
                         click_id e = Some (el_id r))
           /\ (NvidiaSpec.lookup_el d self_loc = None ->
               click_id e = Some (el_id (nb_element b))).
Proof.
  destruct (go_to_next_run pg d) as (r & d' & new & Hrun & Ht & _ & Hc & _).
  rewrite Hrun. exists (EvSnapshot (polls d) :: new). split; [exact Ht|].
  intros e [->|He]%elem_of_cons Hce; [done|].
  destruct (Hc e He Hce) as (b & Hb & _ & Hid).
  exists b. split; [done|]. split; [done|].
  unfold click_target in Hid. split.
  - intros r0 Hr0 Hok. by rewrite Hr0, Hok in Hid.
  - intros Hnone. by rewrite Hnone in Hid.
Qed.

(** ** A concrete results page *)

(** A next button with element number 7. *)
Definition next_arrow (aria : option string) : next_button :=
  {| nb_element := NvidiaSpec.plain_element 7;
     nb_is_displayed := Ok true;
     nb_aria_disabled := Ok aria;
     nb_disabled := Ok None |}.

Definition bar (b : next_button) : pager :=
  let nav := {| nav_id := 5; nav_scroll := None;
                nav_find := fun sel =>
                  if String.eqb sel "button[aria-label='next']"
                  then Ok [b] else Ok [] |} in
  {| navs_for_scroll := Ok [nav]; navs_for_search := Ok [nav];
     scroll_to_bottom := None;
     chevron := Raise NoSuchElementException |}.

(** Page 1 first, page 2 from the second poll after the click on; the
    document's first element is element number 0. *)
Definition two_pages : driver :=
  {| dom := Frame (NvidiaSpec.only self_loc (NvidiaSpec.plain_element 0)) [];
     url_changes := false; context := [];
     feed := fun k =>
       {| obs_page :=
            NvidiaSpec.results_page (if (k <? 2)%nat then "1" else "2")
              (Ok "1 - 20 of 40 jobs"%string) "/job/a";
          obs_cost := 0 |};
     polls := 0; clock := 0; trace := [] |}.

Lemma no_click_without_enabled_next_button_witness :
  fst (go_to_next_results_page_if_any (bar (next_arrow (Some "TRUE"%string)))
         two_pages) = Ok false
  /\ clicks (trace (snd (go_to_next_results_page_if_any
                           (bar (next_arrow (Some "TRUE"%string)))
                           two_pages))) = clicks (trace two_pages)
  /\ polls (snd (go_to_next_results_page_if_any
                   (bar (next_arrow (Some "TRUE"%string))) two_pages))
     = S (polls two_pages).
Proof.
  apply no_click_without_enabled_next_button.
  intros b Hb. vm_compute in Hb. by injection Hb as <-.
Defined.

(** With an enabled next button the page change is seen at the second
    poll; the clicks went to element 0, the document's first element, and
    not to the next button, element 7. *)
Example clicks_land_on_the_document :
  fst (go_to_next_results_page_if_any (bar (next_arrow None)) two_pages)
    = Ok true
  /\ clicks (trace (snd (go_to_next_results_page_if_any
                           (bar (next_arrow None)) two_pages)))
     = [EvNativeClick 0]
  /\ polls (snd (go_to_next_results_page_if_any
                   (bar (next_arrow None)) two_pages)) = 3%nat.
Proof. vm_compute. repeat split. Qed.

End Pagination.

(** * More of the IAI bot: links, the submit button and the offer cards *)

Module IAITools.
Import PyText.

Definition BASE_DOMAIN : string := "https://jobs.iai.co.il".

(** ** absolute_url *)

Definition absolute_url (href : option string) : option string :=
  match href with
  | None => None
  | Some h =>
      if negb (nonempty h) then None
      else if starts_with "http" h then Some h
      else if starts_with "/" h then Some (BASE_DOMAIN +:+ h)
      else Some (BASE_DOMAIN +:+ "/" +:+ h)
  end.

(** ** _is_button_disabled *)

(** [s.split()]: the maximal runs of characters that are not white
    space. *)
Fixpoint words (s : string) : list string :=
  match s with
  | EmptyString => []
  | String c s' =>
      if is_space c then words s'
      else if head_is is_space s' || negb (nonempty s')
      then String c EmptyString :: words s'
      else match words s' with
           | w :: ws => String c w :: ws
           | [] => [String c EmptyString]
           end
  end.

(** The submit button as the function's three queries see it. *)
Record submit_button : Type := {
  aria_disabled : result (option string);  (* get_attribute("aria-disabled") *)
  disabled_script : result bool;           (* execute_script(... disabled === true) *)
  class_attr : result (option string)      (* get_attribute("class") *)
}.

(** How a Python call ends: it returns, or it fails with an error of the
    driver or because a local variable was never bound. *)
Inductive failure : Type :=
  | Driver (e : exn)
  | UnboundLocalError (name : string).

Inductive answer (A : Type) : Type :=
  | Returns (a : A)
  | Fails (f : failure).
Arguments Returns {A} a.
Arguments Fails {A} f.

(** The [try] block binds [aria] and then [disabled_prop]; its handler
    binds only [disabled_prop]. *)
Definition _is_button_disabled (btn : submit_button) : answer bool :=
  let '(aria, disabled_prop) :=
    match aria_disabled btn with
    | Ok a =>
        match disabled_script btn with
        | Ok p => (Some (lower (or_str a EmptyString)), p)
        | Raise _ => (Some (lower (or_str a EmptyString)), false)
        end
    | Raise _ => (None, false)
    end in
  match class_attr btn with
  | Raise e => Fails (Driver e)
  | Ok c =>
      let has_disabled_class :=
        bool_decide ("disabled"%string ∈ words (or_str c EmptyString)) in
      match aria with
      | None => Fails (UnboundLocalError "aria")
      | Some aria =>
          Returns (String.eqb aria "true" || disabled_prop
                   || has_disabled_class)
      end
  end.

(** ** scrape_jobs_on_page *)

Record link : Type := { href : result (option string) }.

(** An offer card as the queries of the loop body see it. *)
Record card : Type := {
  title_text : result string;        (* find_element("h3 a").text *)
  application_link : result link;    (* find_element(".btns-wrap a[...]") *)
  job_link : result link;            (* find_element("h3 a[href^='/job/']") *)
  card_text : result string;         (* find_element(".card-body p").text *)
  detail_items : result (list (result string))
                                     (* find_elements(...), then each .text *)
}.

Record JobCard : Type := {
  title : string;
  application_url : option string;
  job_url : option string;
  description : string;
  details : list string
}.

(** What the page answers to [safe_find_all]. *)
Record offers : Type := {
  cards_present : option exn;        (* the presence wait *)
  cards : result (list card)         (* driver.find_elements(...) *)
}.

(** [try: x = r  except NoSuchElementException: x = d] *)
Definition or_default {A} (r : result A) (d : A) : result A :=
  match r with
  | Raise NoSuchElementException => Ok d
  | _ => r
  end.

(** [try: x = r  except NoSuchElementException: pass], [x] preset to
    [None]. *)
Definition or_missing {A} (r : result A) : result (option A) :=
  match r with
  | Ok a => Ok (Some a)
  | Raise NoSuchElementException => Ok None
  | Raise e => Raise e
  end.

(** The texts of the detail items, stripped, the empty ones left out. *)
Fixpoint details_of (items : list (result string)) : result (list string) :=
  match items with
  | [] => Ok []
  | li :: rest =>
      t <~ li ;;
      rest' <~ details_of rest ;;
      Ok (if nonempty (strip t) then strip t :: rest' else rest')
  end.

(** [absolute_url(el.get_attribute("href")) if el else None] *)
Definition url_of (el : option link) : result (option string) :=
  match el with
  | Some l => h <~ href l ;; Ok (absolute_url h)
  | None => Ok None
  end.

Definition scrape_card (c : card) : result JobCard :=
  title <~ or_default (t <~ title_text c ;; Ok (strip t))
             "(Titre introuvable)" ;;
  app_link_el <~ or_missing (application_link c) ;;
  job_link_el <~ or_missing (job_link c) ;;
  desc <~ or_default (t <~ card_text c ;; Ok (strip t))
            "(Description introuvable sur la carte)" ;;
  items <~ detail_items c ;;
  details_texts <~ details_of items ;;
  application_url <~ url_of app_link_el ;;
  job_url <~ url_of job_link_el ;;
  Ok {| title := title; application_url := application_url;
        job_url := job_url; description := desc;
        details := details_texts |}.

Fixpoint scrape_cards (cs : list card) : result (list JobCard) :=
  match cs with
  | [] => Ok []
  | c :: rest =>
      job <~ scrape_card c ;;
      jobs <~ scrape_cards rest ;;
      Ok (job :: jobs)
  end.

(** [safe_find_all]: the wait and [find_elements] are both inside the
    [try], so a [TimeoutException] of either gives the empty list; any
    other exception comes out. *)
Definition safe_find_all (pg : offers) : result (list card) :=
  match cards_present pg with
  | None =>
      match cards pg with
      | Raise TimeoutException => Ok []
      | r => r
      end
  | Some TimeoutException => Ok []
  | Some e => Raise e
  end.

Definition scrape_jobs_on_page (pg : offers) : result (list JobCard) :=
  cs <~ safe_find_all pg ;;
  scrape_cards cs.

(** ** Properties *)

Lemma absolute_url_http (href : option string) (u : string) :
  absolute_url href = Some u -> starts_with "http" u = true.
Proof.
  unfold absolute_url. destruct href as [h|]; [|done].
  destruct (negb (nonempty h)); [done|].
  destruct (starts_with "http" h) eqn:Hh; [by intros [= <-]|].
  destruct (starts_with "/" h); intros [= <-];
    by apply (starts_with_app "http" BASE_DOMAIN).
Qed.

(** X9.  [absolute_url] answers [None] exactly for a missing or empty
    link; any other link gives a URL that starts with [http], that ends
    with the link as it was given, and that a second application leaves
    unchanged. *)
Theorem absolute_url_is_absolute (href : option string) :
  (absolute_url href = None <-> href = None \/ href = Some EmptyString)
  /\ (forall u,
        absolute_url href = Some u ->
        starts_with "http" u = true
        /\ absolute_url (Some u) = Some u
        /\ exists h prefix, href = Some h /\ u = prefix +:+ h).
Proof.
  split.
  - unfold absolute_url. destruct href as [h|]; [|split; [by left|done]].
    destruct h as [|c h]; [split; [by right|done]|].
    change (negb (nonempty (String c h))) with false. cbv iota.
    split; [|by intros [|]].
    destruct (starts_with "http" (String c h)); [done|].
    by destruct (starts_with "/" (String c h)).
  - intros u Hu. pose proof (absolute_url_http href u Hu) as Hhttp.
    split; [done|]. split.
    + unfold absolute_url. rewrite Hhttp.
      destruct u as [|c u]; [done|]. reflexivity.
    + unfold absolute_url in Hu. destruct href as [h|]; [|done].
      destruct (negb (nonempty h)); [done|]. exists h.
      destruct (starts_with "http" h).
      * exists EmptyString. by injection Hu as <-.
      * destruct (starts_with "/" h); injection Hu as <-.
        -- by exists BASE_DOMAIN.
        -- exists (BASE_DOMAIN +:+ "/"). split; reflexivity.
Qed.

(** X10.  [_is_button_disabled] needs the [aria-disabled] attribute to
    be readable: when that read raises, the handler leaves [aria] unbound
    and the call fails (with the error of the class read, or else with
    [UnboundLocalError]) instead of answering.  When the attribute and the
    class can be read the call answers, and a failing script query alone
    never makes the button count as disabled. *)
Theorem button_disabled_needs_aria (btn : submit_button) :
  (forall e, aria_disabled btn = Raise e ->
     exists f, _is_button_disabled btn = Fails f)
  /\ (forall e c,
        aria_disabled btn = Raise e -> class_attr btn = Ok c ->
        _is_button_disabled btn = Fails (UnboundLocalError "aria"))
  /\ (forall a c,
        aria_disabled btn = Ok a -> class_attr btn = Ok c ->
        _is_button_disabled btn
        = Returns (String.eqb (lower (or_str a EmptyString)) "true"
                   || match disabled_script btn with
                      | Ok p => p
                      | Raise _ => false
                      end
                   || bool_decide
                        ("disabled"%string ∈ words (or_str c EmptyString)))).
Proof.
  unfold _is_button_disabled. split; [|split].
  - intros e ->. destruct (class_attr btn); by eexists.
  - by intros e c -> ->.
  - intros a c -> ->. by destruct (disabled_script btn).
Qed.

Example class_tokens :
  words "btn  btn-disabled primary" = ["btn"; "btn-disabled"; "primary"]%string
  /\ _is_button_disabled
       {| aria_disabled := Ok None; disabled_script := Raise WebDriverException;
          class_attr := Ok (Some "btn btn-disabled"%string) |}
     = Returns false
  /\ _is_button_disabled
       {| aria_disabled := Ok (Some "True"%string); disabled_script := Ok false;
          class_attr := Ok None |}
     = Returns true.
Proof. vm_compute. repeat split. Qed.

Lemma details_of_nonempty (items : list (result string)) (ts : list string) :
  details_of items = Ok ts -> Forall (fun t => t <> EmptyString) ts.
Proof.
  revert ts. induction items as [|li items IH]; intros ts; simpl.
  - intros [= <-]. constructor.
  - unfold rbind. destruct li as [t|]; [|done].
    destruct (details_of items) as [rest|]; [|done].
    intros [= <-]. specialize (IH rest eq_refl).
    destruct (nonempty (strip t)) eqn:Hne; [|done].
    constructor; [by apply nonempty_true_iff|done].
Qed.

Lemma url_of_http (el : option link) (o : option string) (u : string) :
  url_of el = Ok o -> o = Some u -> starts_with "http" u = true.
Proof.
  unfold url_of, rbind. destruct el as [l|]; [|by intros [= <-]].
  destruct (href l) as [h|]; [|done]. intros [= <-] Hu.
  by apply (absolute_url_http h).
Qed.

(** A job card whose links are absolute and whose details are not
    empty. *)
Definition tidy (j : JobCard) : Prop :=
  (forall u, application_url j = Some u -> starts_with "http" u = true)
  /\ (forall u, job_url j = Some u -> starts_with "http" u = true)
  /\ Forall (fun t => t <> EmptyString) (details j).

Lemma scrape_card_tidy (c : card) (j : JobCard) :
  scrape_card c = Ok j -> tidy j.
Proof.
  unfold scrape_card.
  destruct (or_default _ "(Titre introuvable)") as [t|]; [|done].
  destruct (or_missing (application_link c)) as [al|]; [|done].
  destruct (or_missing (job_link c)) as [jl|]; [|done].
  destruct (or_default _ "(Description introuvable sur la carte)") as [ds|];
    [|done].
  destruct (detail_items c) as [items|]; [|done]. cbn [rbind].
  destruct (details_of items) as [ts|] eqn:Hts; [|done]. cbn [rbind].
  destruct (url_of al) as [au|] eqn:Hau; [|done]. cbn [rbind].
  destruct (url_of jl) as [ju|] eqn:Hju; [|done]. cbn [rbind].
  intros [= <-]. unfold tidy; simpl. split; [|split].
  - intros u. by apply (url_of_http al).
  - intros u. by apply (url_of_http jl).
  - by apply (details_of_nonempty items).
Qed.

Lemma scrape_cards_each (cs : list card) (jobs : list JobCard) :
  scrape_cards cs = Ok jobs ->
  Forall2 (fun c j => scrape_card c = Ok j) cs jobs.
Proof.
  revert jobs. induction cs as [|c cs IH]; intros jobs; simpl.
  - intros [= <-]. constructor.
  - unfold rbind at 1. destruct (scrape_card c) as [j|] eqn:Hj; [|done].
    unfold rbind. destruct (scrape_cards cs) as [js|]; [|done].
    intros [= <-]. constructor; [done|by apply IH].
Qed.

(** X11.  When [scrape_jobs_on_page] returns, it answers one job card
    per offer card of the page, in page order, and none when the wait for
    the cards or the query of the cards timed out; every application link
    and job link it recorded is absent or starts with [http], and no
    recorded detail is empty. *)
Theorem scraped_jobs_are_tidy (pg : offers) (jobs : list JobCard) :
  scrape_jobs_on_page pg = Ok jobs ->
  (cards_present pg = Some TimeoutException
   \/ cards pg = Raise TimeoutException -> jobs = [])
  /\ (cards_present pg = None ->
      (exists cs, cards pg = Ok cs
                  /\ Forall2 (fun c j => scrape_card c = Ok j) cs jobs)
      \/ cards pg = Raise TimeoutException)
  /\ Forall tidy jobs.
Proof.
  unfold scrape_jobs_on_page, rbind.
  destruct (safe_find_all pg) as [cs|] eqn:Hcs; [|done].
  intros Hjobs. pose proof (scrape_cards_each cs jobs Hjobs) as Heach.
  unfold safe_find_all in Hcs. split; [|split].
  - intros [Hto|Hto].
    + rewrite Hto in Hcs. injection Hcs as <-. by inversion Heach.
    + rewrite Hto in Hcs.
      destruct (cards_present pg) as [[]|]; simplify_eq; by inversion Heach.
  - intros Hok. rewrite Hok in Hcs.
    destruct (cards pg) as [cs'|e]; [left; exists cs; by simplify_eq|].
    right. by destruct e.
  - clear Hcs Hjobs. induction Heach as [|c j cs jobs Hj _ IH];
      constructor; [by eapply scrape_card_tidy|done].
Qed.

(** An offer card with an application link and no job link. *)
Definition engineer_card : card :=
  {| title_text := Ok " Engineer "%string;
     application_link := Ok {| href := Ok (Some "/application/123"%string) |};
     job_link := Raise NoSuchElementException;
     card_text := Raise NoSuchElementException;
     detail_items := Ok [Ok " Lod "%string; Ok "  "%string] |}.

Definition one_offer : offers :=
  {| cards_present := None; cards := Ok [engineer_card] |}.

Lemma scraped_jobs_are_tidy_witness :
  scrape_jobs_on_page one_offer
  = Ok [ {| title := "Engineer";
            application_url :=
              Some "https://jobs.iai.co.il/application/123"%string;
            job_url := None;
            description := "(Description introuvable sur la carte)";
            details := ["Lod"%string] |} ]
  /\ Forall tidy
       [ {| title := "Engineer";
            application_url :=
              Some "https://jobs.iai.co.il/application/123"%string;
            job_url := None;
            description := "(Description introuvable sur la carte)";
            details := ["Lod"%string] |} ].
Proof.
  split; [reflexivity|].
  exact (proj2 (proj2 (scraped_jobs_are_tidy one_offer _ eq_refl))).
Defined.

(** The cards are there, but the query that reads them times out: no
    job, and no error. *)
Example timed_out_query_gives_no_job :
  scrape_jobs_on_page
    {| cards_present := None; cards := Raise TimeoutException |} = Ok [].
Proof. reflexivity. Qed.

End IAITools.

(** * More on the wait for the thank-you page *)

Module IAIWaits.
Import IAI IAISpec.

(** X12.  [_wait_for_thank_you_redirect] returns [True] exactly when a
    poll started within the budget sees [/thank-you/] in the URL of the
    current tab or of a tab it can switch to. *)
Theorem thank_you_wait_true_iff (max_wait : Z) (b : bot) :
  fst (_wait_for_thank_you_redirect max_wait b) = Ok true <->
  exists k,
    waited (feed b) (moment b) k < 1000 * max_wait
    /\ sees_thank_you (view_at (feed b) (moment b) k) = true.
Proof.
  destruct (wait_for_thank_you_total max_wait b)
    as [(k & t & Hrun & _ & Hk & Hsee & _)
       |(k & t & r & Hrun & _ & Hk & Hmin & Hr)];
    rewrite Hrun; simpl.
  - split; [intros _; by exists k|done].
  - split.
    + intros ->. by destruct Hr as [|(e & mh & ? & _)].
    + intros (k0 & Hk0 & Hsee0). exfalso.
      destruct (decide (k0 < k)%nat) as [Hlt|Hge].
      * destruct (Hmin k0 Hlt) as [_ Hno]. congruence.
      * pose proof (waited_mono (feed b) (moment b) k k0 ltac:(lia)). lia.
Qed.

Lemma await_unfold (wait_total : Z) (b : bot) :
  await_thank_you_after_click wait_total b =
    match _wait_for_thank_you_redirect (Z.min 12 wait_total) b with
    | (Ok true, b1) => (Ok true, b1)
    | (Ok false, b1) =>
        ((captcha <- _recaptcha_visible ;;
          (if captcha then input CaptchaPause else ret tt) ;;;
          _wait_for_thank_you_redirect
            (Z.max 0 (wait_total - Z.min 12 wait_total))) b1)
    | (Raise e, b1) => (Raise e, b1)
    end.
Proof.
  unfold await_thank_you_after_click. unfold bind at 1.
  destruct (_wait_for_thank_you_redirect (Z.min 12 wait_total) b)
    as [[[|]|e] b1]; reflexivity.
Qed.

Lemma no_poll_without_budget (max_wait : Z) (b : bot) :
  max_wait <= 0 -> fst (_wait_for_thank_you_redirect max_wait b) <> Ok true.
Proof.
  intros Hle.
  destruct (wait_for_thank_you_total max_wait b)
    as [(k & t & Hrun & _ & Hk & _)|(k & t & r & Hrun & _ & _ & _ & Hr)];
    rewrite Hrun; simpl.
  - pose proof (waited_nonneg (feed b) (moment b) k). lia.
  - by destruct Hr as [->|(e & mh & -> & _)].
Qed.

(** X13.  With a total budget of 12 s or less nothing is left to wait
    after the CAPTCHA check: the flow after the click answers [True] only
    when its first wait does, without any pause of the operator; once it
    has paused for a CAPTCHA it cannot answer [True]. *)
Theorem small_budget_leaves_no_second_wait (wait_total : Z) (b : bot) :
  wait_total <= 12 ->
  fst (await_thank_you_after_click wait_total b) = Ok true ->
  await_thank_you_after_click wait_total b
    = _wait_for_thank_you_redirect wait_total b
  /\ inputs (trace (snd (await_thank_you_after_click wait_total b)))
     = inputs (trace b).
Proof.
  intros Hle. rewrite await_unfold.
  replace (Z.min 12 wait_total) with wait_total by lia.
  replace (Z.max 0 (wait_total - wait_total)) with 0 by lia.
  destruct (wait_for_thank_you_total wait_total b)
    as [(k & t & Hrun & Hint & _)|(k & t & r & Hrun & Hint & _ & _ & Hr)];
    rewrite Hrun.
  - intros _. split; [reflexivity|]. simpl. exact Hint.
  - destruct Hr as [->|(e & mh & -> & _)]; [|done].
    set (b1 := moved b k _ t). unfold bind at 1.
    rewrite _recaptcha_visible_run. cbv beta iota.
    intros Htrue. exfalso.
    destruct (captcha_seen (feed b1 (moment b1))).
    + rewrite input_run in Htrue.
      by apply (no_poll_without_budget 0 _ ltac:(lia)) in Htrue.
    + rewrite bind_ret_tt in Htrue.
      by apply (no_poll_without_budget 0 _ ltac:(lia)) in Htrue.
Qed.

(** A bot in front of a browser that shows the thank-you page at once. *)
Definition thanked : bot :=
  {| start_page := 1; max_pages := 0; main_handle := Some "main"%string;
     last_list_url := None; visited_urls := ∅;
     feed := fun _ =>
       {| current_url := Ok (Some "https://jobs.iai.co.il/thank-you/"%string);
          window_handles := Ok [];
          recaptcha_iframes := Ok 1%nat; recaptcha_boxes := Ok 0%nat;
          located := fun _ => Raise TimeoutException;
          current_window_handle := "main"; view_cost := 0 |};
     moment := 0; clock := 0; address := EmptyString;
     landing := fun _ u => u; processing := fun _ u => Ok u;
     loads := 0; trace := [] |}.

Lemma small_budget_leaves_no_second_wait_witness :
  await_thank_you_after_click 10 thanked
    = _wait_for_thank_you_redirect 10 thanked
  /\ inputs (trace (snd (await_thank_you_after_click 10 thanked)))
     = inputs (trace thanked).
Proof.
  apply small_budget_leaves_no_second_wait; [lia|].
  vm_compute. reflexivity.
Defined.

End IAIWaits.

(** * The tabs of the IAI bot: finish_tab *)

Module IAITabs.

(** ** The windows of the browser *)

(** What the browser answers at one moment to the calls on its
    windows. *)
Record windows : Type := {
  current_window_handle : result string;
  window_handles : result (list string);
  close : option exn;                        (* driver.close() *)
  switch_to_window : string -> option exn    (* driver.switch_to.window(h) *)
}.

Inductive call : Type :=
  | Close
  | SwitchTo (h : string)
  | Sleep (ms : Z).

Global Instance call_eq_dec : EqDecision call.
Proof. solve_decision. Defined.

(** The bot's [main_handle] in front of a browser; the browser moves on
    to its next moment when a window is closed and when time passes, and
    reads made at the same moment get the same answer. *)
Record session : Type := {
  main_handle : option string;
  shows : nat -> windows;
  moment : nat;
  calls : list call
}.

Definition now : M session windows := s <- get ;; ret (shows s (moment s)).

Definition log (c : call) : M session unit :=
  modify (fun s => {| main_handle := main_handle s; shows := shows s;
                      moment := moment s; calls := calls s ++ [c] |}).

Definition tick : M session unit :=
  modify (fun s => {| main_handle := main_handle s; shows := shows s;
                      moment := S (moment s); calls := calls s |}).

Definition driver_close : M session unit :=
  v <- now ;; log Close ;;; tick ;;; outcome (close v).

Definition driver_switch_to_window (h : string) : M session unit :=
  v <- now ;; log (SwitchTo h) ;;; outcome (switch_to_window v h).

Definition time_sleep (ms : Z) : M session unit := log (Sleep ms) ;;; tick.

(** Truthiness of an optional handle. *)
Definition truthy (o : option string) : bool :=
  match o with
  | Some h => nonempty h
  | None => false
  end.

(** ** finish_tab *)

(** The first half: the application tab is closed only on success. *)
Definition close_on_success (success : bool) : M session unit :=
  v <- now ;;
  let current := match current_window_handle v with
                 | Ok h => Some h
                 | Raise _ => None
                 end in
  if success then
    try (hs <- lift_result (window_handles v) ;;
         if (1 <? length hs)%nat && truthy current then driver_close
         else ret tt)
    except any_Exception => ret tt
  else ret tt.

(** The second half: back to the list tab, or else to the first window.
    The reads of [window_handles] are made at the same moment and get the
    same answer. *)
Definition back_to_list_tab : M session unit :=
  s <- get ;;
  v <- now ;;
  hs <- lift_result (window_handles v) ;;
  let target :=
    if truthy (main_handle s)
       && bool_decide (default EmptyString (main_handle s) ∈ hs)
    then main_handle s
    else head hs in
  (if truthy target then
     try (driver_switch_to_window (default EmptyString target))
     except any_Exception => ret tt
   else ret tt) ;;;
  time_sleep 400.

Definition finish_tab (success : bool) : M session unit :=
  close_on_success success ;;; back_to_list_tab.

(** ** Properties *)

(** The closing step is taken: the call asked for success, the current
    handle could be read and more than one window is open. *)
Definition closes (success : bool) (v : windows) : bool :=
  success
  && match current_window_handle v, window_handles v with
     | Ok h, Ok hs => nonempty h && (1 <? length hs)%nat
     | _, _ => false
     end.

(** The window the function goes back to, given the handles it reads. *)
Definition target_of (mh : option string) (hs : list string) : option string :=
  if truthy mh && bool_decide (default EmptyString mh ∈ hs) then mh
  else head hs.

Definition at_moment (s : session) (m : nat) (new : list call) : session :=
  {| main_handle := main_handle s; shows := shows s; moment := m;
     calls := calls s ++ new |}.

Lemma close_on_success_run (success : bool) (s : session) :
  close_on_success success s =
    (Ok tt,
     if closes success (shows s (moment s))
     then at_moment s (S (moment s)) [Close]
     else at_moment s (moment s) []).
Proof.
  destruct s as [mh sh m cs]. unfold closes, at_moment; simpl.
  unfold close_on_success, bind, now, get, bind, ret. simpl.
  destruct success; simpl; [|by rewrite app_nil_r].
  unfold try_except, bind, lift_result, driver_close, now, bind, get, log,
    tick, modify, outcome, ret, raise; simpl.
  destruct (window_handles (sh m)) as [hs0|e1]; simpl;
    [|destruct (current_window_handle (sh m)); by rewrite app_nil_r].
  destruct (current_window_handle (sh m)) as [h|e0]; simpl.
  - rewrite andb_comm.
    destruct (nonempty h && (1 <? length hs0)%nat); simpl;
      [by destruct (close (sh m))|by rewrite app_nil_r].
  - rewrite andb_false_r. by rewrite app_nil_r.
Qed.

Lemma back_to_list_tab_run (s : session) :
  back_to_list_tab s =
    match window_handles (shows s (moment s)) with
    | Raise e => (Raise e, s)
    | Ok hs =>
        (Ok tt,
         at_moment s (S (moment s))
           ((if truthy (target_of (main_handle s) hs)
             then [SwitchTo (default EmptyString
                               (target_of (main_handle s) hs))]
             else [])
            ++ [Sleep 400]))
    end.
Proof.
  destruct s as [mh sh m cs]. unfold at_moment, target_of; simpl.
  unfold back_to_list_tab, bind, now, get, bind, lift_result, ret, raise.
  simpl. destruct (window_handles (sh m)) as [hs|e]; [|reflexivity].
  simpl.
  destruct (truthy (if truthy mh && bool_decide (default EmptyString mh ∈ hs)
                    then mh else head hs)); simpl.
  - unfold try_except, driver_switch_to_window, time_sleep, now, bind, get,
      log, tick, modify, outcome, ret, raise; simpl.
    destruct (switch_to_window (sh m) _); simpl;
      by rewrite <- (assoc_L (++)).
  - reflexivity.
Qed.

Lemma finish_tab_run (success : bool) (s : session) :
  finish_tab success s =
    back_to_list_tab
      (if closes success (shows s (moment s))
       then at_moment s (S (moment s)) [Close]
       else at_moment s (moment s) []).
Proof. unfold finish_tab, bind. by rewrite close_on_success_run. Qed.

Lemma closes_true (success : bool) (v : windows) :
  closes success v = true <->
  success = true
  /\ exists h hs,
       current_window_handle v = Ok h /\ h <> EmptyString
       /\ window_handles v = Ok hs /\ (1 < length hs)%nat.
Proof.
  unfold closes. rewrite andb_true_iff. split.
  - intros [-> Hrest]. split; [done|].
    destruct (current_window_handle v) as [h|]; [|done].
    destruct (window_handles v) as [hs|]; [|done].
    apply andb_true_iff in Hrest as [Hh Hn].
    exists h, hs. split; [done|]. split; [by apply nonempty_true_iff|].
    split; [done|]. by apply Nat.ltb_lt.
  - intros [-> (h & hs & -> & Hh & -> & Hn)]. split; [done|].
    apply andb_true_iff. split; [by apply nonempty_true_iff|].
    by apply Nat.ltb_lt.
Qed.

(** X14.  [finish_tab] closes a window only after a successful
    application: it calls [close()] at most once, as its first call, and
    exactly when it was told of a success, the current window handle
    could be read and more than one window is open; after a failure, or
    with a single window, nothing is closed. *)
Theorem tab_closed_only_on_success (success : bool) (s : session) :
  exists rest,
    calls (snd (finish_tab success s))
    = calls s
      ++ (if closes success (shows s (moment s)) then [Close] else [])
      ++ rest
    /\ (Close ∉ rest)
    /\ (closes success (shows s (moment s)) = true <->
        success = true
        /\ exists h hs,
             current_window_handle (shows s (moment s)) = Ok h
             /\ h <> EmptyString
             /\ window_handles (shows s (moment s)) = Ok hs
             /\ (1 < length hs)%nat).
Proof.
  rewrite finish_tab_run, back_to_list_tab_run.
  set (closing := closes success (shows s (moment s))).
  assert (Hshape : forall s1 : session,
            calls s1 = calls s ++ (if closing then [Close] else []) ->
            exists rest,
              calls (snd (match window_handles (shows s1 (moment s1)) with
                          | Raise e => (Raise e, s1)
                          | Ok hs =>
                              (Ok tt,
                               at_moment s1 (S (moment s1))
                                 ((if truthy (target_of (main_handle s1) hs)
                                   then [SwitchTo
                                           (default EmptyString
                                              (target_of (main_handle s1) hs))]
                                   else [])
                                  ++ [Sleep 400]))
                          end))
              = calls s ++ (if closing then [Close] else []) ++ rest
              /\ (Close ∉ rest)).
  { intros s1 Hs1. destruct (window_handles _) as [hs|e]; simpl.
    - eexists. rewrite Hs1, <- (assoc_L (++)). split; [reflexivity|].
      destruct (truthy _); simpl; set_solver.
    - exists []. rewrite Hs1, app_nil_r. split; [done|set_solver]. }
  destruct (Hshape (if closing
                    then at_moment s (S (moment s)) [Close]
                    else at_moment s (moment s) []))
    as (rest & Hcalls & Hrest); [by destruct closing|].
  exists rest. split; [exact Hcalls|]. split; [exact Hrest|].
  apply closes_true.
Qed.

(** X15.  After the closing step [finish_tab] reads the window handles
    outside any [try]: when that read raises, the error comes out of
    [finish_tab]; otherwise it returns, having switched to the list tab
    when its handle is known and among the open windows, else to the
    first open window (to none when there is none), and having slept
    0.4 s; an error of the switch itself is swallowed. *)
Theorem finish_tab_returns_to_list_tab (success : bool) (s : session) :
  let m1 := if closes success (shows s (moment s))
            then S (moment s) else moment s in
  match window_handles (shows s m1) with
  | Raise e => fst (finish_tab success s) = Raise e
  | Ok hs =>
      fst (finish_tab success s) = Ok tt
      /\ (exists before,
            calls (snd (finish_tab success s))
            = before
              ++ (if truthy (target_of (main_handle s) hs)
                  then [SwitchTo (default EmptyString
                                    (target_of (main_handle s) hs))]
                  else [])
              ++ [Sleep 400])
      /\ (forall mh, main_handle s = Some mh -> mh <> EmptyString ->
                     mh ∈ hs -> target_of (main_handle s) hs = Some mh)
      /\ (forall h rest, (main_handle s = None
                          \/ default EmptyString (main_handle s) ∉ hs) ->
                         hs = h :: rest ->
                         target_of (main_handle s) hs = Some h)
  end.
Proof.
  cbv zeta. rewrite finish_tab_run, back_to_list_tab_run.
  destruct (closes success (shows s (moment s))); cbn [moment at_moment].
  all: destruct (window_handles _) as [hs|e]; [|reflexivity].
  all: split; [reflexivity|]; split; [by eexists|]; split.
  all: unfold target_of; cbn [main_handle].
  all: try (intros mh -> Hne Hin; simpl;
            apply nonempty_true_iff in Hne; rewrite Hne;
            by rewrite bool_decide_eq_true_2).
  all: intros h rest [->|Hout] ->; [done|].
  all: by rewrite (bool_decide_eq_false_2 _ Hout), andb_false_r.
Qed.

(** Two windows, the driver on the application tab. *)
Definition two_windows : windows :=
  {| current_window_handle := Ok "app"%string;
     window_handles := Ok ["list"; "app"]%string;
     close := None; switch_to_window := fun _ => None |}.

Definition list_only : windows :=
  {| current_window_handle := Raise WebDriverException;
     window_handles := Ok ["list"%string];
     close := None; switch_to_window := fun _ => None |}.

Definition applying : session :=
  {| main_handle := Some "list"%string;
     shows := fun m => if (m =? 0)%nat then two_windows else list_only;
     moment := 0; calls := [] |}.

Example closes_then_returns :
  calls (snd (finish_tab true applying))
    = [Close; SwitchTo "list"; Sleep 400]
  /\ calls (snd (finish_tab false applying)) = [SwitchTo "list"; Sleep 400].
Proof. vm_compute. split; reflexivity. Qed.

End IAITabs.

(** * A whole run of the IAI bot on a site that serves every page *)

Module IAIRun.
Import IAI IAISpec PyText.

Definition is_process (e : event) : bool :=
  match e with EvProcessPage _ => true | _ => false end.

(** The number of pages of offers a trace has handled. *)
Definition processed (t : list event) : nat := length (List.filter is_process t).

(** The URLs a trace has asked the browser for, in order. *)
Fixpoint navigations (t : list event) : list string :=
  match t with
  | [] => []
  | EvGet u :: t' => u :: navigations t'
  | _ :: t' => navigations t'
  end.

Lemma processed_app (t1 t2 : list event) :
  processed (t1 ++ t2) = (processed t1 + processed t2)%nat.
Proof. unfold processed. by rewrite List.filter_app, length_app. Qed.

Lemma navigations_app (t1 t2 : list event) :
  navigations (t1 ++ t2) = navigations t1 ++ navigations t2.
Proof.
  induction t1 as [|e t1 IH]; [done|]. destruct e; simpl; by rewrite ?IH.
Qed.

Definition jobs_wrap : locator := (CSS_SELECTOR, ".vue-jobs .jobs-wrap"%string).

(** A site that serves every page it is asked for: no redirect, the
    offers of a page leave the list tab where it is, and the wait for the
    list of offers answers or times out. *)
Record serves_every_page (b : bot) : Prop := {
  lands : forall n u, landing b n u = u;
  stays : forall n u, processing b n u = Ok u;
  answers : forall m e,
    located (feed b m) jobs_wrap = Raise e -> e = TimeoutException
}.

(** The same bot parameters in front of the same site. *)
Definition same_site (b b' : bot) : Prop :=
  feed b' = feed b /\ landing b' = landing b /\ processing b' = processing b
  /\ start_page b' = start_page b /\ max_pages b' = max_pages b.

Lemma same_site_serves (b b' : bot) :
  same_site b b' -> serves_every_page b -> serves_every_page b'.
Proof.
  intros (Hf & Hl & Hp & _) [H1 H2 H3].
  split; intros; rewrite ?Hf, ?Hl, ?Hp; eauto.
  apply (H3 m). by rewrite <- Hf.
Qed.

Lemma goto_serving (u : string) (b : bot) :
  serves_every_page b ->
  exists b',
    goto_list_url u b = (Ok tt, b')
    /\ address b' = u
    /\ visited_urls b' = {[ u ]} ∪ visited_urls b
    /\ same_site b b'
    /\ processed (trace b') = processed (trace b)
    /\ navigations (trace b') = navigations (trace b) ++ [u].
Proof.
  intros [Hland _ Hans].
  unfold goto_list_url, driver_get, safe_find, wait_presence,
    gentle_scroll_page, try_except.
  unfold bind, log, modify, now_view, get, bind, ret, lift, spend; simpl.
  rewrite Hland.
  change (CSS_SELECTOR, ".vue-jobs .jobs-wrap"%string) with jobs_wrap.
  destruct (located (feed b (S (moment b))) jobs_wrap) as [n|e] eqn:Hloc;
    simpl.
  - eexists. split; [reflexivity|]. simpl.
    rewrite !processed_app, !navigations_app. simpl.
    repeat split; try done;
      [unfold processed; simpl; lia|by rewrite !app_nil_r].
  - rewrite (Hans _ _ Hloc). simpl.
    eexists. split; [reflexivity|]. simpl.
    rewrite !processed_app, !navigations_app. simpl.
    repeat split; try done;
      [unfold processed; simpl; lia|by rewrite !app_nil_r].
Qed.

Lemma process_serving (b : bot) :
  serves_every_page b ->
  exists b',
    process_page b = (Ok tt, b')
    /\ address b' = address b
    /\ visited_urls b' = visited_urls b
    /\ same_site b b'
    /\ processed (trace b') = S (processed (trace b))
    /\ navigations (trace b') = navigations (trace b).
Proof.
  intros [_ Hstay _].
  unfold process_page, bind, get, log, modify, lift, bind, ret; simpl.
  rewrite Hstay. eexists. split; [reflexivity|]. simpl.
  rewrite processed_app, navigations_app. simpl.
  repeat split; try done;
    [unfold processed; simpl; lia|by rewrite app_nil_r].
Qed.

Section WithUrlLib.
Context `{UrlLib}.

(** The list URL of page [k]: the base URL for the first page, as [run]
    builds it, and [&pg=k] after it for the others. *)
Definition page_url (k : Z) : string :=
  if k <=? 1 then BASE_LIST_URL
  else BASE_LIST_URL +:+ "&pg=" +:+ py_str k.

(** The pages [s], [s+1], ..., [s+n-1]. *)
Definition pages_from (s : Z) (i n : nat) : list string :=
  (fun t => page_url (s + Z.of_nat t)) <$> seq i n.

Lemma page_url_nonempty (k : Z) : nonempty (page_url k) = true.
Proof. unfold page_url. by destruct (k <=? 1). Qed.

Lemma page_url_is_list_url (k : Z) : is_list_url (page_url k) = true.
Proof.
  unfold page_url, is_list_url. destruct (k <=? 1); [reflexivity|].
  by rewrite !contains_app_l.
Qed.

(** What the run relies on from the URL arithmetic and from [str]. *)
Hypothesis next_page :
  forall k, 1 <= k <= 1000 ->
    compute_next_list_url (page_url k) = Some (page_url (k + 1)).
Hypothesis str_inj :
  forall j k, 2 <= j -> 2 <= k -> py_str j = py_str k -> j = k.

Lemma page_url_inj (j k : Z) :
  1 <= j -> 1 <= k -> page_url j = page_url k -> j = k.
Proof.
  unfold page_url. intros Hj Hk.
  destruct (j <=? 1) eqn:Hj1, (k <=? 1) eqn:Hk1; intros Heq.
  - apply Z.leb_le in Hj1, Hk1. lia.
  - apply (f_equal String.length) in Heq.
    rewrite !string_length_app in Heq. simpl in Heq. lia.
  - apply (f_equal String.length) in Heq.
    rewrite !string_length_app in Heq. simpl in Heq. lia.
  - apply Z.leb_gt in Hj1, Hk1.
    do 2 apply String.app_inj in Heq. apply str_inj; [lia|lia|done].
Qed.

Lemma pages_from_snoc (s : Z) (i : nat) :
  pages_from s 0 (S i) = pages_from s 0 i ++ [page_url (s + Z.of_nat i)].
Proof. unfold pages_from. by rewrite seq_S, fmap_app. Qed.

Lemma pages_from_NoDup (s : Z) (i : nat) : 1 <= s -> NoDup (pages_from s 0 i).
Proof.
  intros Hs. unfold pages_from. apply NoDup_fmap_2_strong; [|apply NoDup_seq].
  intros x y _ _ Heq. apply page_url_inj in Heq; lia.
Qed.

Lemma next_page_not_visited (s : Z) (i : nat) :
  1 <= s ->
  page_url (s + Z.of_nat i) ∉ list_to_set (C := gset string) (pages_from s 0 i).
Proof.
  intros Hs Hin. apply elem_of_list_to_set in Hin.
  unfold pages_from in Hin. apply list_elem_of_fmap in Hin as (t & Heq & Ht).
  apply elem_of_seq in Ht. apply page_url_inj in Heq; lia.
Qed.

Lemma pages_done (s : Z) (i : nat) :
  1 <= s ->
  size (filter (fun u => is_list_url u = true)
          (list_to_set (C := gset string) (pages_from s 0 i))) = i.
Proof.
  intros Hs.
  assert (Hall : filter (fun u => is_list_url u = true)
                   (list_to_set (C := gset string) (pages_from s 0 i))
                 = list_to_set (pages_from s 0 i)).
  { apply set_eq. intros u. rewrite elem_of_filter. split; [by intros [_ ?]|].
    intros Hu. split; [|done]. apply elem_of_list_to_set in Hu.
    unfold pages_from in Hu. apply list_elem_of_fmap in Hu as (t & -> & _).
    apply page_url_is_list_url. }
  rewrite Hall, size_list_to_set by (by apply pages_from_NoDup).
  unfold pages_from. by rewrite length_fmap, length_seq.
Qed.

Hypothesis last_page : compute_next_list_url (page_url 1001) = None.

(** The loop goes on after its [i]-th page: the page has a successor and
    the [--pages] limit is not reached. *)
Definition goes_on (s m : Z) (i : nat) : Prop :=
  s + Z.of_nat i - 1 <= 1000 /\ (m <= 0 \/ Z.of_nat i < m + (s - 1)).

(** The loop stops after its [J]-th page, and why. *)
Inductive stops_at (s m : Z) (J : nat) : stop -> Prop :=
  | at_limit :
      s + Z.of_nat J - 1 <= 1000 -> 0 < m -> m + (s - 1) <= Z.of_nat J ->
      stops_at s m J PageLimit
  | at_end :
      s + Z.of_nat J - 1 = 1001 -> stops_at s m J NoNextUrl.

Lemma run_loop_serving (s m : Z) (J : nat) (why : stop) :
  1 <= s ->
  stops_at s m J why ->
  (forall i, (1 <= i < J)%nat -> goes_on s m i) ->
  forall (n i : nat) (b : bot) (fuel : nat),
    (i + n = J)%nat -> (1 <= i)%nat -> (n < fuel)%nat ->
    serves_every_page b -> start_page b = s -> max_pages b = m ->
    address b = page_url (s + Z.of_nat i - 1) ->
    visited_urls b = list_to_set (pages_from s 0 i) ->
    exists b',
      run_loop fuel b = (Ok (Some why), b')
      /\ processed (trace b') = (processed (trace b) + S n)%nat
      /\ navigations (trace b') = navigations (trace b) ++ pages_from s i n
      /\ address b' = page_url (s + Z.of_nat J - 1).
Proof.
  intros Hs Hstop Hgo. induction n as [|n IH];
    intros i b fuel HJ Hi Hfuel Hserves Hstart Hmax Haddr Hvis;
    (destruct fuel as [|fuel]; [lia|]); rewrite run_loop_step;
    destruct (process_serving b Hserves)
      as (b1 & Hrun1 & Haddr1 & Hvis1 & Hsite1 & Hproc1 & Hnav1);
    rewrite Hrun1, Haddr1, Haddr;
    pose proof Hsite1 as (_ & _ & _ & Hstart1 & Hmax1).
  - assert (i = J) as -> by lia.
    destruct Hstop as [Hle Hm HJm|Hend].
    + rewrite next_page by lia. rewrite page_url_nonempty. cbn [negb].
      assert (Hlimit : page_limit_reached b1 = true).
      { unfold page_limit_reached.
        rewrite Hvis1, Hvis, pages_done, Hmax1, Hstart1, Hmax, Hstart by done.
        apply andb_true_iff. split; [by apply Z.gtb_lt|].
        apply Z.geb_le. lia. }
      rewrite Hlimit. exists b1. split; [done|]. split; [lia|].
      split; [by rewrite Hnav1, app_nil_r|]. by rewrite Haddr1, Haddr.
    + rewrite Hend, last_page. exists b1. split; [done|]. split; [lia|].
      split; [by rewrite Hnav1, app_nil_r|]. by rewrite Haddr1, Haddr, Hend.
  - destruct (Hgo i ltac:(lia)) as [Hle Hm].
    rewrite next_page by lia. rewrite page_url_nonempty. cbn [negb].
    replace (s + Z.of_nat i - 1 + 1) with (s + Z.of_nat i) by lia.
    assert (Hlimit : page_limit_reached b1 = false).
    { unfold page_limit_reached.
      rewrite Hvis1, Hvis, pages_done, Hmax1, Hstart1, Hmax, Hstart by done.
      apply andb_false_iff. destruct Hm as [Hm|Hm].
      - left. rewrite Z.gtb_ltb. apply Z.ltb_ge. lia.
      - right. rewrite Z.geb_leb. apply Z.leb_gt. lia. }
    rewrite Hlimit.
    rewrite bool_decide_eq_false_2
      by (rewrite Hvis1, Hvis; by apply next_page_not_visited).
    set (b2 := set_bot b1 _ _ _).
    assert (Hsite2 : same_site b b2).
    { destruct Hsite1 as (? & ? & ? & ? & ?). by repeat split. }
    destruct (goto_serving (page_url (s + Z.of_nat i)) b2
                (same_site_serves _ _ Hsite2 Hserves))
      as (b3 & Hrun3 & Haddr3 & Hvis3 & Hsite3 & Hproc3 & Hnav3).
    rewrite Hrun3.
    destruct Hsite3 as (Hf3 & Hl3 & Hp3 & Hstart3 & Hmax3).
    destruct Hsite2 as (Hf2 & Hl2 & Hp2 & Hstart2 & Hmax2).
    destruct (IH (S i) b3 fuel) as (b' & Hrun & Hproc & Hnav & Haddr');
      [lia|lia|lia| | | | | |].
    + apply (same_site_serves b); [|done].
      repeat split; congruence.
    + congruence.
    + congruence.
    + rewrite Haddr3. f_equal. lia.
    + rewrite Hvis3, pages_from_snoc, list_to_set_app_L. simpl.
      change (visited_urls b2) with (visited_urls b1).
      rewrite Hvis1, Hvis. set_solver.
    + exists b'. split; [done|]. split.
      * rewrite Hproc, Hproc3. change (trace b2) with (trace b1).
        rewrite Hproc1. lia.
      * split; [|done]. rewrite Hnav, Hnav3. change (trace b2) with (trace b1).
        rewrite Hnav1, <- (assoc_L (++)). f_equal.
Qed.

Lemma new_bot_serves (start max : Z) (browser : bot) :
  serves_every_page browser ->
  serves_every_page (IAIApplicationBot start max browser).
Proof. intros [H1 H2 H3]. by split. Qed.

(** A whole run on a serving site, from page [s]. *)
Lemma run_serving (start max : Z) (J : nat) (why : stop) (browser : bot)
    (fuel : nat) :
  1 <= start ->
  stops_at start (Z.max 0 max) J why ->
  (forall i, (1 <= i < J)%nat -> goes_on start (Z.max 0 max) i) ->
  (1 <= J <= fuel)%nat ->
  serves_every_page browser ->
  exists b',
    run fuel (IAIApplicationBot start max browser) = (Ok (Some why), b')
    /\ processed (trace b') = (processed (trace browser) + J)%nat
    /\ navigations (trace b')
       = navigations (trace browser) ++ pages_from start 0 J
    /\ address b' = page_url (start + Z.of_nat J - 1).
Proof.
  intros Hs Hstop Hgo HJ Hserves. rewrite run_unfold.
  set (b0 := IAIApplicationBot start max browser).
  assert (Hstart0 : start_page b0 = start) by (simpl; lia).
  assert (Hinit : initial_url b0 = page_url start).
  { unfold initial_url, page_url. by rewrite Hstart0. }
  rewrite Hinit.
  destruct (goto_serving (page_url start) b0
              (new_bot_serves start max browser Hserves))
    as (b1 & Hrun1 & Haddr1 & Hvis1 & Hsite1 & Hproc1 & Hnav1).
  rewrite Hrun1. destruct Hsite1 as (Hf1 & Hl1 & Hp1 & Hstart1 & Hmax1).
  destruct (run_loop_serving start (Z.max 0 max) J why Hs Hstop Hgo
              (J - 1) 1 b1 fuel)
    as (b' & Hrun & Hproc & Hnav & Haddr); [lia|lia|lia| | | | | |].
  - apply (same_site_serves b0); [by repeat split|].
    by apply new_bot_serves.
  - congruence.
  - by rewrite Hmax1.
  - rewrite Haddr1. f_equal. lia.
  - rewrite Hvis1. simpl. unfold pages_from. simpl.
    rewrite Z.add_0_r. set_solver.
  - exists b'. split; [done|]. split; [rewrite Hproc, Hproc1; simpl; lia|].
    split; [|done]. rewrite Hnav, Hnav1. simpl.
    rewrite <- (assoc_L (++)). f_equal.
    replace J with (S (J - 1)) at 2 by lia.
    unfold pages_from. simpl. by rewrite Z.add_0_r.
Qed.

(** X16.  On a site that serves every page, a run started with
    [--start s] and [--pages m] ([s >= 1], [m >= 1], the pages below 1001)
    handles [m + s - 1] pages of offers, the pages [s], [s+1], ..., and
    then stops on the page limit: the limit counts the pages from page
    one, so [m] pages are handled only when the run starts on page 1. *)
Theorem pages_limit_counts_from_page_one (start max : Z) (browser : bot)
    (fuel : nat) :
  1 <= start -> 1 <= max -> 2 * start + max - 2 <= 1000 ->
  serves_every_page browser ->
  (Z.to_nat (max + start - 1) <= fuel)%nat ->
  fst (run fuel (IAIApplicationBot start max browser)) = Ok (Some PageLimit)
  /\ processed (trace (snd (run fuel (IAIApplicationBot start max browser))))
     = (processed (trace browser) + Z.to_nat (max + start - 1))%nat
  /\ navigations (trace (snd (run fuel (IAIApplicationBot start max browser))))
     = navigations (trace browser)
       ++ pages_from start 0 (Z.to_nat (max + start - 1)).
Proof.
  intros Hs Hm Hbound Hserves Hfuel.
  destruct (run_serving start max (Z.to_nat (max + start - 1)) PageLimit
              browser fuel Hs)
    as (b' & Hrun & Hproc & Hnav & _); [| |lia|done|].
  - apply at_limit; lia.
  - intros i Hi. split; [lia|right; lia].
  - rewrite Hrun. by repeat split.
Qed.

(** X17.  On a site that serves every page, a run without page limit
    started on page [s <= 1001] handles the pages [s] to 1001 and then
    stops by itself, for want of a next URL, the list tab on page
    1001. *)
Theorem run_ends_after_page_1001 (start max : Z) (browser : bot)
    (fuel : nat) :
  1 <= start <= 1001 -> max <= 0 ->
  serves_every_page browser ->
  (Z.to_nat (1002 - start) <= fuel)%nat ->
  fst (run fuel (IAIApplicationBot start max browser)) = Ok (Some NoNextUrl)
  /\ processed (trace (snd (run fuel (IAIApplicationBot start max browser))))
     = (processed (trace browser) + Z.to_nat (1002 - start))%nat
  /\ address (snd (run fuel (IAIApplicationBot start max browser)))
     = page_url 1001.
Proof.
  intros Hs Hm Hserves Hfuel.
  destruct (run_serving start max (Z.to_nat (1002 - start)) NoNextUrl
              browser fuel ltac:(lia))
    as (b' & Hrun & Hproc & _ & Haddr); [| |lia|done|].
  - apply at_end. lia.
  - intros i Hi. split; [lia|left; lia].
  - rewrite Hrun. split; [done|]. split; [done|].
    simpl. rewrite Haddr. f_equal. lia.
Qed.

End WithUrlLib.

(** ** With the plain URL library *)

(** A site that serves every page, the bot's list tab being new. *)
Definition endless_site : bot :=
  {| start_page := 1; max_pages := 0; main_handle := None;
     last_list_url := None; visited_urls := ∅;
     feed := fun _ =>
       {| current_url := Ok None; window_handles := Ok [];
          recaptcha_iframes := Ok 0%nat; recaptcha_boxes := Ok 0%nat;
          located := fun _ => Raise TimeoutException;
          current_window_handle := "list"; view_cost := 0 |};
     moment := 0; clock := 0; address := EmptyString;
     landing := fun _ u => u; processing := fun _ u => Ok u;
     loads := 0; trace := [] |}.

Lemma endless_site_serves : serves_every_page endless_site.
Proof. split; [done|done|]. by intros m e [= <-]. Qed.

Lemma plain_next_page (k : Z) :
  1 <= k <= 1000 ->
  @compute_next_list_url PlainUrl.plain_lib (@page_url PlainUrl.plain_lib k)
  = Some (@page_url PlainUrl.plain_lib (k + 1)).
Proof.
  intros Hk.
  assert (Hall : forallb (fun i =>
                   bool_decide
                     (@compute_next_list_url PlainUrl.plain_lib
                        (@page_url PlainUrl.plain_lib (Z.of_nat i))
                      = Some (@page_url PlainUrl.plain_lib (Z.of_nat i + 1))))
                   (seq 1 1000) = true) by (vm_compute; reflexivity).
  rewrite forallb_forall in Hall.
  specialize (Hall (Z.to_nat k)). rewrite Z2Nat.id in Hall by lia.
  eapply bool_decide_eq_true_1, Hall, in_seq. lia.
Qed.

Lemma plain_last_page :
  @compute_next_list_url PlainUrl.plain_lib (@page_url PlainUrl.plain_lib 1001)
  = None.
Proof. vm_compute. reflexivity. Qed.

Lemma plain_str_inj (j k : Z) :
  2 <= j -> 2 <= k -> PlainUrl.plain_str j = PlainUrl.plain_str k -> j = k.
Proof. intros _ _. apply pretty_Z_inj. Qed.

Lemma pages_limit_counts_from_page_one_witness :
  fst (@run PlainUrl.plain_lib 4 (IAIApplicationBot 3 2 endless_site))
    = Ok (Some PageLimit)
  /\ processed (trace (snd (@run PlainUrl.plain_lib 4
                              (IAIApplicationBot 3 2 endless_site))))
     = 4%nat
  /\ navigations (trace (snd (@run PlainUrl.plain_lib 4
                                (IAIApplicationBot 3 2 endless_site))))
     = [ "https://jobs.iai.co.il/jobs/?pr=41&pg=3";
         "https://jobs.iai.co.il/jobs/?pr=41&pg=4";
         "https://jobs.iai.co.il/jobs/?pr=41&pg=5";
         "https://jobs.iai.co.il/jobs/?pr=41&pg=6" ]%string.
Proof.
  apply (@pages_limit_counts_from_page_one PlainUrl.plain_lib
           plain_next_page plain_str_inj plain_last_page
           3 2 endless_site 4); [lia|lia|lia|apply endless_site_serves|].
  vm_compute. lia.
Defined.

Lemma run_ends_after_page_1001_witness :
  fst (@run PlainUrl.plain_lib 3 (IAIApplicationBot 1000 0 endless_site))
    = Ok (Some NoNextUrl)
  /\ processed (trace (snd (@run PlainUrl.plain_lib 3
                              (IAIApplicationBot 1000 0 endless_site))))
     = 2%nat
  /\ address (snd (@run PlainUrl.plain_lib 3
                     (IAIApplicationBot 1000 0 endless_site)))
     = "https://jobs.iai.co.il/jobs/?pr=41&pg=1001"%string.
Proof.
  apply (@run_ends_after_page_1001 PlainUrl.plain_lib
           plain_next_page plain_str_inj plain_last_page
           1000 0 endless_site 3); [lia|lia|apply endless_site_serves|].
  vm_compute. lia.
Defined.

End IAIRun.

(** * What part1_login types, and where *)

Module Login.
Import Nvidia.

Definition is_typed (e : event) : bool :=
  match e with EvType _ _ => true | _ => false end.

(** The texts a trace has sent to elements with [send_keys], in order;
    the key presses ENTER and SPACE are events of their own. *)
Definition typed (t : list event) : list event := List.filter is_typed t.

Lemma typed_app (t1 t2 : list event) : typed (t1 ++ t2) = typed t1 ++ typed t2.
Proof. apply List.filter_app. Qed.

(** A computation that types nothing, whatever it returns or raises. *)
Definition silent {A} (m : M driver A) : Prop :=
  forall d, exists new, trace (snd (m d)) = trace d ++ new /\ typed new = [].

Lemma silent_ret {A} (a : A) : silent (ret a).
Proof. intros d. exists []. by rewrite app_nil_r. Qed.

Lemma silent_raise {A} (e : exn) : silent (@raise driver A e).
Proof. intros d. exists []. by rewrite app_nil_r. Qed.

Lemma silent_get : silent (@get driver).
Proof. intros d. exists []. by rewrite app_nil_r. Qed.

Lemma silent_bind {A B} (m : M driver A) (k : A -> M driver B) :
  silent m -> (forall a, silent (k a)) -> silent (bind m k).
Proof.
  intros Hm Hk d. unfold bind. destruct (Hm d) as (n1 & Ht1 & Hq1).
  destruct (m d) as [[a|e] d1]; simpl in *.
  - destruct (Hk a d1) as (n2 & Ht2 & Hq2). exists (n1 ++ n2).
    by rewrite Ht2, Ht1, (assoc_L (++)), typed_app, Hq1, Hq2.
  - by exists n1.
Qed.

Lemma silent_try {A} (m h : M driver A) (c : exn -> bool) :
  silent m -> silent h -> silent (try_except m c h).
Proof.
  intros Hm Hh d. unfold try_except. destruct (Hm d) as (n1 & Ht1 & Hq1).
  destruct (m d) as [[a|e] d1]; simpl in *; [by exists n1|].
  destruct (c e); [|by exists n1].
  destruct (Hh d1) as (n2 & Ht2 & Hq2). exists (n1 ++ n2).
  by rewrite Ht2, Ht1, (assoc_L (++)), typed_app, Hq1, Hq2.
Qed.

Lemma silent_log (e : event) : is_typed e = false -> silent (log e).
Proof.
  intros He d. exists [e]. split; [done|]. unfold typed. simpl. by rewrite He.
Qed.

Lemma silent_set_context (c : list nat) : silent (set_context c).
Proof. intros d. exists []. by rewrite app_nil_r. Qed.

Lemma silent_outcome (o : option exn) : silent (@outcome driver o).
Proof. destruct o; [apply silent_raise|apply silent_ret]. Qed.

Local Ltac silence :=
  repeat first
    [ apply silent_ret | apply silent_raise | apply silent_get
    | apply silent_outcome | apply silent_set_context
    | apply silent_log; reflexivity
    | apply silent_try
    | apply silent_bind; [|intros ?] ].

Lemma silent_presence (loc : locator) :
  silent (presence_of_element_located loc).
Proof.
  unfold presence_of_element_located. silence.
  destruct (current_frame _) as [f|]; [|silence].
  destruct (content f loc); silence.
Qed.

Lemma silent_robust_click (el : element) : silent (robust_click el).
Proof.
  unfold robust_click, click, execute_script_scrollIntoView,
    execute_script_click, action_chain_click. silence.
Qed.

Lemma silent_find_sign_in (locs : list locator) : silent (find_sign_in locs).
Proof.
  induction locs as [|loc locs IH]; cbn [find_sign_in]; [silence|].
  apply silent_bind.
  - apply silent_try; [|silence]. apply silent_bind; [apply silent_presence|].
    intros el. destruct (el_displayed el); silence.
  - intros [el|]; [silence|exact IH].
Qed.

(** The rest of [part1_login], once the password is typed. *)
Definition after_password (pwd_el : element) : M driver unit :=
  (try (send_keys_ENTER pwd_el) except any_Exception => ret tt) ;;;
  sign_el <- find_sign_in sign_in_locators ;;
  match sign_el with
  | None => raise NoSuchElementException
  | Some sign_el =>
      clicked <- robust_click sign_el ;;
      (if clicked then ret tt
       else try (action_chain_space sign_el)
            except any_Exception => raise RuntimeError) ;;;
      (try (wait_url_changes LOGIN_URL)
       except is_TimeoutException => ret tt) ;;;
      switch_to_default_content ;;;
      driver_get ROOT_URL
  end.

Lemma silent_after_password (pwd_el : element) : silent (after_password pwd_el).
Proof.
  unfold after_password. apply silent_bind.
  { unfold send_keys_ENTER. silence. }
  intros _. apply silent_bind; [apply silent_find_sign_in|].
  intros [sign_el|]; [|silence].
  apply silent_bind; [apply silent_robust_click|]. intros clicked.
  apply silent_bind.
  { destruct clicked; [silence|]. unfold action_chain_space. silence. }
  intros _. apply silent_bind.
  { unfold wait_url_changes. silence. destruct (url_changes _); silence. }
  intros _. unfold switch_to_default_content, driver_get. silence.
Qed.

Lemma silent_cookie_banner :
  silent (try (el <- element_to_be_clickable cookie_loc ;; click el)
          except is_TimeoutException => ret tt).
Proof.
  unfold element_to_be_clickable, click. silence.
  destruct (current_frame _) as [f|]; [|silence].
  destruct (content f cookie_loc) as [el|]; [|silence].
  destruct (el_displayed el && el_enabled el); silence.
Qed.

(** The middle of [part1_login], once the driver is in the frame of the
    login form. *)
Definition enter_credentials (creds : Credentials) : M driver unit :=
  email_el <- presence_of_element_located email_loc ;;
  clear email_el ;;; send_keys email_el (email creds) ;;;
  pwd_el <- presence_of_element_located pwd_loc ;;
  clear pwd_el ;;; send_keys pwd_el (password creds) ;;;
  after_password pwd_el.

Lemma part1_login_unfold (creds : Credentials) :
  part1_login creds =
    (driver_get LOGIN_URL ;;;
     (try (el <- element_to_be_clickable cookie_loc ;; click el)
      except is_TimeoutException => ret tt) ;;;
     switch_to_frame_containing email_loc ;;;
     enter_credentials creds).
Proof. reflexivity. Qed.

Lemma presence_step {A} (loc : locator) (k : element -> M driver A)
    (d : driver) (f : frame) :
  current_frame d = Some f ->
  (el <- presence_of_element_located loc ;; k el) d
  = match content f loc with
    | Some el => k el (with_trace d (trace d ++ [EvWait (context d) loc]))
    | None =>
        (Raise TimeoutException,
         with_trace d (trace d ++ [EvWait (context d) loc]))
    end.
Proof.
  intros Hf. destruct d as [dm uc cx fd pl ck tr].
  unfold current_frame in Hf; simpl in Hf.
  unfold bind, presence_of_element_located, get, log, modify, bind,
    current_frame, with_trace, upd; simpl.
  rewrite Hf. by destruct (content f loc).
Qed.

Lemma typing_step {A} (el : element) (text : string) (k : M driver A)
    (d : driver) :
  (clear el ;;; send_keys el text ;;; k) d
  = match typing el with
    | Some e => (Raise e, with_trace d (trace d ++ [EvClear (el_id el)]))
    | None =>
        k (with_trace d (trace d ++ [EvClear (el_id el);
                                     EvType (el_id el) text]))
    end.
Proof.
  destruct d as [dm uc cx fd pl ck tr].
  unfold bind, clear, send_keys, outcome, log, modify, bind, with_trace, upd;
    simpl.
  destruct (typing el); simpl; [reflexivity|].
  by rewrite <- (assoc_L (++)).
Qed.

(** What [enter_credentials] types in a frame [f]: the e-mail into the
    element of [email_loc], then the password into the element of
    [pwd_loc]; when it stops before the second, it raises. *)
Lemma enter_credentials_run (creds : Credentials) (d : driver) (f : frame)
    (e1 : element) :
  current_frame d = Some f ->
  content f email_loc = Some e1 ->
  exists new,
    trace (snd (enter_credentials creds d)) = trace d ++ new
    /\ ((typed new = [] \/ typed new = [EvType (el_id e1) (email creds)])
        /\ (exists e, fst (enter_credentials creds d) = Raise e)
        \/ exists e2,
             content f pwd_loc = Some e2
             /\ typed new = [EvType (el_id e1) (email creds);
                             EvType (el_id e2) (password creds)]).
Proof.
  intros Hf He1. unfold enter_credentials.
  rewrite (presence_step email_loc _ d f Hf), He1.
  set (d1 := with_trace d _). rewrite typing_step.
  destruct (typing e1) as [e|].
  { eexists. split; [simpl; rewrite <- !(assoc_L (++)); reflexivity|].
    left. split; [by left|by exists e]. }
  set (d2 := with_trace d1 _).
  rewrite (presence_step pwd_loc _ d2 f Hf).
  destruct (content f pwd_loc) as [e2|].
  2: { eexists. split; [simpl; rewrite <- !(assoc_L (++)); reflexivity|].
       left. split; [by right|by eexists]. }
  set (d3 := with_trace d2 _). rewrite typing_step.
  destruct (typing e2) as [e|].
  { eexists. split; [simpl; rewrite <- !(assoc_L (++)); reflexivity|].
    left. split; [by right|by exists e]. }
  set (d4 := with_trace d3 _).
  destruct (silent_after_password e2 d4) as (rest & Ht & Hq).
  eexists. split.
  - rewrite Ht. simpl. rewrite <- !(assoc_L (++)). reflexivity.
  - right. exists e2. split; [done|].
    rewrite !typed_app, Hq. reflexivity.
Qed.

Lemma typed_probe (loc : locator) (path : list nat) :
  typed (NvidiaSpec.probe loc path) = [].
Proof.
  unfold typed, NvidiaSpec.probe. cbn [List.filter is_typed].
  rewrite List.filter_app. cbn [List.filter is_typed]. rewrite app_nil_r.
  induction path as [|i path IH]; [done|exact IH].
Qed.

Lemma typed_probes (loc : locator) (paths : list (list nat)) :
  typed (flat_map (NvidiaSpec.probe loc) paths) = [].
Proof.
  induction paths as [|p paths IH]; [done|]. cbn [flat_map].
  by rewrite typed_app, typed_probe, IH.
Qed.

Lemma part1_login_typed (creds : Credentials) (d : driver) :
  exists r d' new,
    part1_login creds d = (r, d')
    /\ trace d' = trace d ++ new
    /\ (typed new = [] /\ (exists e, r = Raise e)
        \/ exists k path f e1,
             NvidiaSpec.first_holding (dom d) email_loc
               (NvidiaSpec.search_order (dom d)) = Some (k, path)
             /\ frame_at (dom d) path = Some f
             /\ content f email_loc = Some e1
             /\ (typed new = [EvType (el_id e1) (email creds)]
                 /\ (exists e, r = Raise e)
                 \/ exists e2,
                      content f pwd_loc = Some e2
                      /\ typed new = [EvType (el_id e1) (email creds);
                                      EvType (el_id e2) (password creds)])).
Proof.
  rewrite part1_login_unfold.
  unfold bind at 1, driver_get at 1.
  set (d1 := upd d [] (trace d ++ [EvGet LOGIN_URL])).
  change ((log (EvGet LOGIN_URL) ;;; set_context []) d) with (Ok tt, d1).
  cbv beta iota. unfold bind at 1.
  destruct (Engine.cookie_banner_run d1 eq_refl) as (d2 & Hrun2 & Hdom2).
  destruct (silent_cookie_banner d1) as (new2 & Ht2 & Hq2).
  rewrite Hrun2 in *. simpl in Ht2.
  destruct (Engine.cookie_click_error d1) as [e|].
  { exists (Raise e), d2, ([EvGet LOGIN_URL] ++ new2). split; [done|]. split.
    - rewrite Ht2. by rewrite <- (assoc_L (++)).
    - left. rewrite typed_app, Hq2. split; [done|by exists e]. }
  cbv beta iota. unfold bind at 1.
  rewrite NvidiaSpec.switch_to_frame_containing_run, Hdom2.
  change (dom d1) with (dom d).
  destruct (NvidiaSpec.first_holding (dom d) email_loc
              (NvidiaSpec.search_order (dom d))) as [[k path]|] eqn:Hfind.
  2: { eexists _, _,
         ([EvGet LOGIN_URL] ++ new2
          ++ flat_map (NvidiaSpec.probe email_loc)
               (NvidiaSpec.search_order (dom d)) ++ [EvSwitchDefault]).
       split; [reflexivity|]. split.
       - unfold upd; cbn [trace]. rewrite Ht2.
         rewrite <- !(assoc_L (++)). reflexivity.
       - left. split; [|by eexists].
         rewrite !typed_app, Hq2, typed_probes. reflexivity. }
  cbv beta iota.
  pose proof Hfind as Hspec. apply find_first_Some in Hspec as (_ & Hholds & _).
  unfold NvidiaSpec.holds in Hholds.
  destruct (frame_at (dom d) path) as [f|] eqn:Hf; [|done].
  destruct (content f email_loc) as [e1|] eqn:He1; [|done].
  set (d3 := upd d2 path _).
  assert (Hcur : current_frame d3 = Some f).
  { unfold current_frame, d3; simpl. by rewrite Hdom2. }
  destruct (enter_credentials_run creds d3 f e1 Hcur He1)
    as (new4 & Ht4 & Htyped).
  destruct (enter_credentials creds d3) as [r d4]. simpl in Ht4, Htyped.
  exists r, d4,
    ([EvGet LOGIN_URL] ++ new2
     ++ flat_map (NvidiaSpec.probe email_loc)
          (take (S k) (NvidiaSpec.search_order (dom d))) ++ new4).
  split; [reflexivity|]. split.
  - rewrite Ht4. unfold d3, upd; cbn [trace]. rewrite Ht2.
    rewrite <- !(assoc_L (++)). reflexivity.
  - rewrite !typed_app, Hq2, typed_probes. cbn [app typed List.filter is_typed].
    destruct Htyped as [[[Hn|Hone] Hraise]|(e2 & He2 & Hboth)].
    + left. by split.
    + right. exists k, path, f, e1. repeat split; [done..|]. left. by split.
    + right. exists k, path, f, e1. repeat split; [done..|]. right.
      by exists e2.
Qed.

(** X18.  [part1_login] sends the credentials only to the login form:
    the e-mail address goes to the element of the e-mail locator of the
    first context (in the order of the frame search) that holds it, the
    password after it to the element of the password locator of the same
    context, each once at most, and no other text is sent with
    [send_keys] (the ENTER and SPACE key presses are not texts).  When
    nothing or only the e-mail address was sent the login raises, so a
    login that returns has sent both. *)
Theorem credentials_go_to_the_login_form (creds : Credentials) (d : driver) :
  exists new,
    trace (snd (part1_login creds d)) = trace d ++ new
    /\ (typed new = [] /\ (exists e, fst (part1_login creds d) = Raise e)
        \/ exists k path f e1,
             NvidiaSpec.first_holding (dom d) email_loc
               (NvidiaSpec.search_order (dom d)) = Some (k, path)
             /\ frame_at (dom d) path = Some f
             /\ content f email_loc = Some e1
             /\ (typed new = [EvType (el_id e1) (email creds)]
                 /\ (exists e, fst (part1_login creds d) = Raise e)
                 \/ exists e2,
                      content f pwd_loc = Some e2
                      /\ typed new = [EvType (el_id e1) (email creds);
                                      EvType (el_id e2) (password creds)])).
Proof.
  destruct (part1_login_typed creds d) as (r & d' & new & Hrun & Ht & Hcases).
  rewrite Hrun. exists new. split; [exact Ht|exact Hcases].
Qed.

(** The login form in the top-level document: both credentials are
    typed, the password into element 2. *)
Definition login_page : frame :=
  Frame (fun l => if decide (l = email_loc)
                  then Some (NvidiaSpec.plain_element 1)
                  else if decide (l = pwd_loc)
                  then Some (NvidiaSpec.plain_element 2)
                  else None) [].

Example both_credentials_typed :
  typed (trace (snd (part1_login Engine.creds (NvidiaSpec.browser login_page))))
  = [EvType 1 "YourEmail@YourEmail.com"; EvType 2 "YourPassword"].
Proof. vm_compute. reflexivity. Qed.

End Login.

(** * Which outcomes are values *)

Module Outcomes.
Import Nvidia.

(** The password field is missing from the frame of the login form: the
    wait for it (line 230) times out, and [part1_login] does not catch
    it. *)
Lemma part1_login_password_timeout (creds : Credentials) (d : driver)
    (k : nat) (path : list nat) (f : frame) (e1 : element) :
  Engine.cookie_click_error d = None ->
  NvidiaSpec.first_holding (dom d) email_loc
    (NvidiaSpec.search_order (dom d)) = Some (k, path) ->
  frame_at (dom d) path = Some f ->
  content f email_loc = Some e1 ->
  typing e1 = None ->
  content f pwd_loc = None ->
  fst (part1_login creds d) = Raise TimeoutException.
Proof.
  intros Hcookie Hfind Hf He1 Htype Hpwd.
  rewrite Login.part1_login_unfold.
  unfold bind at 1, driver_get at 1.
  set (d1 := upd d [] (trace d ++ [EvGet LOGIN_URL])).
  change ((log (EvGet LOGIN_URL) ;;; set_context []) d) with (Ok tt, d1).
  cbv beta iota. unfold bind at 1.
  destruct (Engine.cookie_banner_run d1 eq_refl) as (d2 & Hrun2 & Hdom2).
  rewrite Hrun2.
  change (Engine.cookie_click_error d1) with (Engine.cookie_click_error d).
  rewrite Hcookie. cbv beta iota. unfold bind at 1.
  rewrite NvidiaSpec.switch_to_frame_containing_run, Hdom2.
  change (dom d1) with (dom d). rewrite Hfind. cbv beta iota.
  set (d3 := upd d2 path _).
  assert (Hcur : current_frame d3 = Some f).
  { unfold current_frame, d3; simpl. by rewrite Hdom2. }
  unfold Login.enter_credentials.
  rewrite (Login.presence_step email_loc _ d3 f Hcur), He1.
  rewrite Login.typing_step, Htype.
  set (d4 := with_trace _ _).
  rewrite (Login.presence_step pwd_loc _ d4 f Hcur), Hpwd. reflexivity.
Qed.

(** C7 (amended).  The timeouts, the targets not found and the blocked
    clicks are values for [robust_click] and [safe_click] ([False]), for
    [safe_find] ([None]), for [safe_find_all] (the empty list), for the
    pagination wait ([False]) and for the thank-you wait ([False]; only
    the error of its closing window-handles query can come out of it).
    They are exceptions in the frame search, which raises
    [NoSuchElementException] when the target is in no context up to depth
    2, and in the raw presence waits, which raise [TimeoutException];
    [part1_login] catches neither, and [collect_jobs_on_current_page]
    does not catch the timeout of its wait for the job links. *)
Theorem timeouts_are_values_except_frame_search_and_raw_waits
    (el : element) (loc : locator) (before : pagination_state) (d : driver)
    (login : Credentials) (max_wait : Z) (b : IAI.bot)
    (pg : IAITools.offers) (urljoin : string -> string -> string)
    (results : JobList.listing) :
  (exists r, fst (robust_click el d) = Ok r)
  /\ fst (safe_click loc d) = Ok (NvidiaSpec.safe_click_succeeds d loc)
  /\ (NvidiaSpec.lookup_el d loc = None -> fst (safe_click loc d) = Ok false)
  /\ (IAI.located (IAI.feed b (IAI.moment b)) loc = Raise TimeoutException ->
      fst (IAI.safe_find loc b) = Ok None)
  /\ (IAITools.cards_present pg = Some TimeoutException
      \/ IAITools.cards_present pg = None
         /\ IAITools.cards pg = Raise TimeoutException ->
      IAITools.safe_find_all pg = Ok [])
  /\ (exists r, fst (wait_for_page_change before d) = Ok r)
  /\ ((exists r, fst (IAI._wait_for_thank_you_redirect max_wait b) = Ok r)
      \/ exists e mh,
           fst (IAI._wait_for_thank_you_redirect max_wait b) = Raise e
           /\ IAI.main_handle b = Some mh /\ mh <> EmptyString
           /\ IAI.window_handles
                (IAI.feed b
                   (IAI.moment
                      (snd (IAI._wait_for_thank_you_redirect max_wait b))))
              = Raise e)
  /\ (NvidiaSpec.first_holding (dom d) loc (NvidiaSpec.search_order (dom d))
      = None ->
      fst (switch_to_frame_containing loc d) = Raise NoSuchElementException)
  /\ (NvidiaSpec.first_holding (dom d) email_loc
        (NvidiaSpec.search_order (dom d)) = None ->
      fst (part1_login login d)
      = Raise (default NoSuchElementException (Engine.cookie_click_error d)))
  /\ (forall f, current_frame d = Some f -> content f loc = None ->
      fst (presence_of_element_located loc d) = Raise TimeoutException)
  /\ (forall k path f e1,
        Engine.cookie_click_error d = None ->
        NvidiaSpec.first_holding (dom d) email_loc
          (NvidiaSpec.search_order (dom d)) = Some (k, path) ->
        frame_at (dom d) path = Some f ->
        content f email_loc = Some e1 ->
        typing e1 = None ->
        content f pwd_loc = None ->
        fst (part1_login login d) = Raise TimeoutException)
  /\ (JobList.links_present results = Some TimeoutException ->
      fst (JobList.collect_jobs_on_current_page urljoin results d)
      = Raise TimeoutException).
Proof.
  split; [rewrite NvidiaSpec.robust_click_run; by eexists|].
  destruct (NvidiaSpec.safe_click_run loc d) as (new & Hsafe & _).
  split; [by rewrite Hsafe|].
  split.
  { intros Hnone. rewrite Hsafe. unfold NvidiaSpec.safe_click_succeeds.
    by rewrite Hnone. }
  split.
  { intros Hout. unfold IAI.safe_find, IAI.wait_presence, try_except, bind,
      IAI.now_view, get, bind, ret, IAI.lift; simpl. by rewrite Hout. }
  split.
  { unfold IAITools.safe_find_all. by intros [->|[-> ->]]. }
  split.
  { destruct (NvidiaSpec.wait_for_page_change_total before d)
      as [(k & Hrun & _)|(k & Hrun & _)]; rewrite Hrun; by eexists. }
  split.
  { destruct (IAISpec.wait_for_thank_you_total max_wait b)
      as [(k & t & Hrun & _)|(k & t & r & Hrun & _ & _ & _ & Hr)];
      rewrite Hrun; [left; by eexists|].
    destruct Hr as [->|(e & mh & -> & Hmh & Hne & Hhs)];
      [left; by eexists|].
    right. by exists e, mh. }
  split.
  { intros Hnone. by rewrite NvidiaSpec.switch_to_frame_containing_run, Hnone. }
  split; [apply Engine.part1_login_not_found|].
  split.
  { intros f Hf Hnone.
    pose proof (Login.presence_step loc (fun el => ret el) d f Hf) as Hstep.
    rewrite Hnone in Hstep.
    assert (Hsame : (el <- presence_of_element_located loc ;; ret el) d
                    = presence_of_element_located loc d).
    { unfold bind, ret. by destruct (presence_of_element_located loc d)
        as [[?|?] ?]. }
    by rewrite <- Hsame, Hstep. }
  split; [apply part1_login_password_timeout|].
  intros Hto. unfold JobList.collect_jobs_on_current_page.
  unfold bind at 1. by rewrite Hto.
Qed.

(** The login form without its password field, and a results page whose
    job links never show up. *)
Definition email_only : frame :=
  Frame (NvidiaSpec.only email_loc (NvidiaSpec.plain_element 1)) [].

Example raw_waits_raise_past_their_callers :
  fst (part1_login Engine.creds (NvidiaSpec.browser email_only))
    = Raise TimeoutException
  /\ fst (JobList.collect_jobs_on_current_page (fun _ href => href)
            {| JobList.links_present := Some TimeoutException;
               JobList.job_title_links := Ok [] |}
            (NvidiaSpec.browser email_only))
     = Raise TimeoutException.
Proof. vm_compute. split; reflexivity. Qed.

End Outcomes.

(** * Exceptions that are no [Exception] *)

Module Py.

(** What can leave a call: an [Exception] of the driver or of the
    library; the [UnboundLocalError] of a local variable read before any
    assignment, an [Exception] too; or a [BaseException] that is no
    [Exception], as the [KeyboardInterrupt] of a Ctrl-C at [input()]. *)
Inductive thrown : Type :=
  | Exc (e : exn)
  | Unbound (name : string)
  | Interrupt.

Global Instance thrown_eq_dec : EqDecision thrown.
Proof. solve_decision. Defined.

(** [except Exception:] *)
Definition is_Exception (t : thrown) : bool :=
  match t with
  | Interrupt => false
  | _ => true
  end.

Inductive res (A : Type) : Type :=
  | Val (a : A)
  | Thrown (t : thrown).
Arguments Val {A} a.
Arguments Thrown {A} t.

(** A computation over a state [S] that returns an [A] or is left by an
    exception. *)
Definition P (S A : Type) : Type := S -> res A * S.

Definition ret {S A} (a : A) : P S A := fun s => (Val a, s).

Definition throw {S A} (t : thrown) : P S A := fun s => (Thrown t, s).

Definition bind {S A B} (m : P S A) (k : A -> P S B) : P S B :=
  fun s =>
    match m s with
    | (Val a, s') => k a s'
    | (Thrown t, s') => (Thrown t, s')
    end.

(** [try: m  except C: h] *)
Definition try_except {S A} (m : P S A) (catches : thrown -> bool)
    (h : P S A) : P S A :=
  fun s =>
    match m s with
    | (Val a, s') => (Val a, s')
    | (Thrown t, s') => if catches t then h s' else (Thrown t, s')
    end.

(** [try: m  finally: f]: the clause [f] runs however [m] ended; an
    exception of [f] replaces the one of [m], which is raised again when
    [f] returns. *)
Definition try_finally {S A} (m : P S A) (f : P S unit) : P S A :=
  fun s =>
    match m s with
    | (r, s') =>
        match f s' with
        | (Val _, s'') => (r, s'')
        | (Thrown t, s'') => (Thrown t, s'')
        end
    end.

Definition get {S} : P S S := fun s => (Val s, s).
Definition modify {S} (f : S -> S) : P S unit := fun s => (Val tt, f s).

(** A call whose outcome is given: [None] is success. *)
Definition outcome {S} (o : option thrown) : P S unit :=
  match o with
  | None => ret tt
  | Some t => throw t
  end.

Definition lift_res {S A} (r : res A) : P S A :=
  match r with
  | Val a => ret a
  | Thrown t => throw t
  end.


End Py.

Declare Scope py_scope.
Delimit Scope py_scope with py.
Notation "x <- m ;; k" := (Py.bind m (fun x => k))
  (at level 100, m at next level, right associativity) : py_scope.
Notation "m ;;; k" := (Py.bind m (fun _ => k))
  (at level 100, right associativity) : py_scope.
Notation "'try' m 'except' c '=>' h" := (Py.try_except m c h)
  (at level 100, m at level 99, c at level 9, h at level 100) : py_scope.
Notation "'try' m 'finally' f" := (Py.try_finally m f)
  (at level 100, m at level 99, f at level 100) : py_scope.

Module IAIApply.
Import IAITools Py.
Local Open Scope py_scope.

(** ** apply_to_jobs_on_page *)

(** The loop over the offers of a page, with the four things it calls
    left open.  The local variable [success] is assigned in the [try]
    body and in its handler and read in the [finally] clause; it keeps
    its value from one turn of the loop to the next, and it is unbound
    until the first assignment. *)
Section Loop.
Context {S : Type}.
Variable open_in_new_tab : string -> P S unit.
Variable fill_and_submit_application : P S bool.
Variable input : P S unit.
Variable finish_tab : bool -> P S unit.

(** The local variable [success] beside the state of the callees. *)
Definition locals : Type := option bool.

Definition callee {A} (m : P S A) : P (locals * S) A :=
  fun st => let (r, s') := m st.2 in (r, (st.1, s')).

Definition assign_success (b : bool) : P (locals * S) unit :=
  modify (fun st => (Some b, st.2)).

Definition read_success : P (locals * S) bool :=
  st <- get ;;
  match st.1 with
  | Some b => ret b
  | None => throw (Unbound "success")
  end.

Definition apply_to_job (job : JobCard) : P (locals * S) unit :=
  if negb (IAITabs.truthy (application_url job)) then ret tt  (* continue *)
  else
    try (try (callee (open_in_new_tab
                        (default EmptyString (application_url job))) ;;;
              success <- callee fill_and_submit_application ;;
              assign_success success)
         except is_Exception =>
           (try callee input except is_Exception => ret tt) ;;;
           assign_success false)
    finally (success <- read_success ;; callee (finish_tab success)).

Fixpoint apply_to_jobs (jobs : list JobCard) : P (locals * S) unit :=
  match jobs with
  | [] => ret tt
  | job :: jobs => apply_to_job job ;;; apply_to_jobs jobs
  end.

Definition apply_to_jobs_on_page (jobs : list JobCard) : P S unit :=
  fun s => let (r, st) := apply_to_jobs jobs (None, s) in (r, st.2).





End Loop.

(** ** The loop in front of the browser's windows *)




Definition engineer : JobCard :=
  {| title := "Engineer"; application_url := Some "/apply/1"%string;
     job_url := None; description := ""; details := [] |}.


(** ** The loop in front of callees that answer as they like *)

(** What the things called answer at one call: each call reads the
    answer meant for it, and the calls are logged with their answers. *)
Record answers : Type := {
  opens : option thrown;     (* open_in_new_tab(url) *)
  fills : res bool;          (* fill_and_submit_application() *)
  inputs : option thrown;    (* input() *)
  finishes : option thrown   (* finish_tab(success) *)
}.

Inductive call : Type :=
  | OpenInNewTab (url : string) (r : option thrown)
  | FillAndSubmit (r : res bool)
  | Input (r : option thrown)
  | FinishTab (success : bool) (r : option thrown).

Record desk : Type := {
  replies : nat -> answers;  (* the answers to the k-th call *)
  calls : list call
}.

Definition answer : P desk answers :=
  d <- get ;; ret (replies d (length (calls d))).

Definition log (c : call) : P desk unit :=
  modify (fun d => {| replies := replies d; calls := calls d ++ [c] |}).

Definition open_in_new_tab (url : string) : P desk unit :=
  a <- answer ;; log (OpenInNewTab url (opens a)) ;;; outcome (opens a).

Definition fill_and_submit_application : P desk bool :=
  a <- answer ;; log (FillAndSubmit (fills a)) ;;; lift_res (fills a).

Definition input : P desk unit :=
  a <- answer ;; log (Input (inputs a)) ;;; outcome (inputs a).

Definition finish_tab (success : bool) : P desk unit :=
  a <- answer ;; log (FinishTab success (finishes a)) ;;;
  outcome (finishes a).

Definition apply_job : JobCard -> P (locals * desk) unit :=
  apply_to_job open_in_new_tab fill_and_submit_application input finish_tab.

Definition apply_jobs : list JobCard -> P (locals * desk) unit :=
  apply_to_jobs open_in_new_tab fill_and_submit_application input finish_tab.

Definition apply_all : list JobCard -> P desk unit :=
  apply_to_jobs_on_page open_in_new_tab fill_and_submit_application input
    finish_tab.

(** The application links the loop has to handle, in order. *)
Definition wanted (jobs : list JobCard) : list string :=
  omap (fun job => if IAITabs.truthy (application_url job)
                   then application_url job else None) jobs.

(** The links opened and the [finish_tab] calls of a log. *)
Definition opened (t : list call) : list string :=
  omap (fun c => match c with OpenInNewTab url _ => Some url | _ => None end)
       t.

Definition is_finish (c : call) : bool :=
  match c with FinishTab _ _ => true | _ => false end.

Definition finish_calls (t : list call) : list call := List.filter is_finish t.

(** The value [finish_tab] received last, [v] when it was not called. *)
Fixpoint last_success (v : option bool) (t : list call) : option bool :=
  match t with
  | [] => v
  | FinishTab b _ :: t' => last_success (Some b) t'
  | _ :: t' => last_success v t'
  end.

(** A call of the [try] that was left by [t], no [Exception]. *)
Definition interrupted (c : call) (t : thrown) : Prop :=
  is_Exception t = false
  /\ ((exists url, c = OpenInNewTab url (Some t))
      \/ c = FillAndSubmit (Thrown t)
      \/ c = Input (Some t)).

(** An [input()] that returned or raised an [Exception]. *)
Definition resumed (ir : option thrown) : Prop :=
  forall t, ir = Some t -> is_Exception t = true.

(** A call that did not end the loop. *)
Definition went_on (c : call) : Prop :=
  match c with
  | FinishTab _ r => r = None
  | OpenInNewTab _ r | Input r => resumed r
  | FillAndSubmit (Thrown t) => is_Exception t = true
  | FillAndSubmit (Val _) => True
  end.

(** What one turn of the loop logs before the [finally] clause, the
    value it assigns to [success], if any, and the exception that is
    pending, if any. *)
Inductive attempt (url : string)
  : list call -> option bool -> option thrown -> Prop :=
  | applied (b : bool) :
      attempt url [OpenInNewTab url None; FillAndSubmit (Val b)]
        (Some b) None
  | open_failed (t : thrown) (ir : option thrown) :
      is_Exception t = true -> resumed ir ->
      attempt url [OpenInNewTab url (Some t); Input ir] (Some false) None
  | fill_failed (t : thrown) (ir : option thrown) :
      is_Exception t = true -> resumed ir ->
      attempt url [OpenInNewTab url None; FillAndSubmit (Thrown t); Input ir]
        (Some false) None
  | open_interrupted (t : thrown) :
      is_Exception t = false ->
      attempt url [OpenInNewTab url (Some t)] None (Some t)
  | fill_interrupted (t : thrown) :
      is_Exception t = false ->
      attempt url [OpenInNewTab url None; FillAndSubmit (Thrown t)]
        None (Some t)
  | pause_interrupted_after_open (t0 t : thrown) :
      is_Exception t0 = true -> is_Exception t = false ->
      attempt url [OpenInNewTab url (Some t0); Input (Some t)] None (Some t)
  | pause_interrupted_after_fill (t0 t : thrown) :
      is_Exception t0 = true -> is_Exception t = false ->
      attempt url [OpenInNewTab url None; FillAndSubmit (Thrown t0);
                   Input (Some t)] None (Some t).

(** What the [finally] clause logs and how the turn ends, given the
    value of [success] and the pending exception. *)
Inductive finishing (p : option thrown)
  : option bool -> list call -> res unit -> Prop :=
  | success_unbound :
      finishing p None [] (Thrown (Unbound "success"))
  | finish_returned (b : bool) :
      finishing p (Some b) [FinishTab b None]
        (match p with Some t => Thrown t | None => Val tt end)
  | finish_raised (b : bool) (t : thrown) :
      finishing p (Some b) [FinishTab b (Some t)] (Thrown t).

(** One turn of the loop on a job that has an application link. *)
Definition turn (url : string) (v : option bool) (new : list call)
    (r : res unit) (v' : option bool) : Prop :=
  exists body tail o p,
    new = body ++ tail
    /\ attempt url body o p
    /\ v' = match o with Some b => Some b | None => v end
    /\ finishing p v' tail r.

Lemma apply_job_run (job : JobCard) (v : option bool) (d : desk) :
  exists r v' d' new,
    apply_job job (v, d) = (r, (v', d'))
    /\ replies d' = replies d
    /\ calls d' = calls d ++ new
    /\ if IAITabs.truthy (application_url job)
       then turn (default EmptyString (application_url job)) v new r v'
       else new = [] /\ r = Val tt /\ v' = v.
Proof.
  destruct d as [rep cs]. unfold apply_job, apply_to_job, turn.
  destruct (IAITabs.truthy (application_url job)); cbn [negb];
    [|exists (Val tt), v, {| replies := rep; calls := cs |}, [];
      by rewrite app_nil_r].
  set (url := default EmptyString (application_url job)).
  repeat first
    [ progress (unfold try_finally, try_except, bind, callee, assign_success,
                  read_success, open_in_new_tab, fill_and_submit_application,
                  input, finish_tab, answer, log, get, modify, ret, throw,
                  outcome, lift_res;
                cbn [fst snd replies calls])
    | match goal with
      | |- context [opens ?a] => destruct (opens a)
      | |- context [fills ?a] => destruct (fills a)
      | |- context [inputs ?a] => destruct (inputs a)
      | |- context [finishes ?a] => destruct (finishes a)
      | |- context [is_Exception ?t0] => destruct (is_Exception t0) eqn:?
      | |- context [match ?x with Some _ => _ | None => _ end] =>
          is_var x; destruct x
      end ].
  all: rewrite <- ?(assoc_L (++)).
  all: eexists _, _, _, _; split; [reflexivity|].
  all: split; [reflexivity|]; split; [reflexivity|].
  all: first
    [ solve [ eexists [_], [], _, _; split; [reflexivity|];
              split; [econstructor; eauto; by intros ? [= ->]|];
              split; [reflexivity|econstructor] ]
    | solve [ eexists [_; _], [], _, _; split; [reflexivity|];
              split; [econstructor; eauto; by intros ? [= ->]|];
              split; [reflexivity|econstructor] ]
    | solve [ eexists [_; _; _], [], _, _; split; [reflexivity|];
              split; [econstructor; eauto; by intros ? [= ->]|];
              split; [reflexivity|econstructor] ]
    | solve [ eexists [_], [_], _, _; split; [reflexivity|];
              split; [econstructor; eauto; by intros ? [= ->]|];
              split; [reflexivity|econstructor] ]
    | solve [ eexists [_; _], [_], _, _; split; [reflexivity|];
              split; [econstructor; eauto; by intros ? [= ->]|];
              split; [reflexivity|econstructor] ]
    | solve [ eexists [_; _; _], [_], _, _; split; [reflexivity|];
              split; [econstructor; eauto; by intros ? [= ->]|];
              split; [reflexivity|econstructor] ] ].
Qed.

(** ** What a run of the loop logs *)

Lemma wanted_cons (job : JobCard) (jobs : list JobCard) :
  wanted (job :: jobs)
  = (if IAITabs.truthy (application_url job)
     then [default EmptyString (application_url job)] else [])
    ++ wanted jobs.
Proof.
  unfold wanted. cbn [omap list_omap].
  destruct (application_url job) as [url|]; cbn [IAITabs.truthy]; [|done].
  by destruct (nonempty url).
Qed.

Lemma opened_app (t1 t2 : list call) : opened (t1 ++ t2) = opened t1 ++ opened t2.
Proof. apply omap_app. Qed.

Lemma finish_calls_app (t1 t2 : list call) :
  finish_calls (t1 ++ t2) = finish_calls t1 ++ finish_calls t2.
Proof. apply List.filter_app. Qed.

Lemma last_success_app (v : option bool) (t1 t2 : list call) :
  last_success v (t1 ++ t2) = last_success (last_success v t1) t2.
Proof.
  revert v. induction t1 as [|c t1 IH]; intros v; [done|].
  destruct c; cbn [app last_success]; apply IH.
Qed.

(** Each [finish_tab] call of a log comes right after what decided its
    argument: the [fill_and_submit_application] that returned it; for
    [False], the [input()] of the handler; or a call left by an
    exception that is no [Exception], and then the argument is the value
    [finish_tab] received the time before. *)
Definition justified (v : option bool) (t : list call) : Prop :=
  forall pre success r post,
    t = pre ++ FinishTab success r :: post ->
    (exists pre', pre = pre' ++ [FillAndSubmit (Val success)])
    \/ (success = false
        /\ exists pre' ir, resumed ir /\ pre = pre' ++ [Input ir])
    \/ (exists pre' c t0,
          interrupted c t0 /\ pre = pre' ++ [c]
          /\ last_success v pre' = Some success).

(** How a run of the loop that started with [success] at [v] is left by
    [t], having opened the links [done]. *)
Definition ended (v : option bool) (new : list call) (done : list string)
    (t : thrown) : Prop :=
  (exists pre success,
      new = pre ++ [FinishTab success (Some t)]
      /\ length (finish_calls new) = length done)
  \/ (is_Exception t = false
      /\ exists pre c success,
           interrupted c t
           /\ new = pre ++ [c; FinishTab success None]
           /\ last_success v pre = Some success
           /\ length (finish_calls new) = length done)
  \/ (t = Unbound "success"
      /\ exists pre c t',
           interrupted c t'
           /\ new = pre ++ [c]
           /\ last_success v pre = None
           /\ S (length (finish_calls new)) = length done).

Lemma justified_nil (v : option bool) : justified v [].
Proof. intros [|c pre] success r post Heq; discriminate. Qed.

Lemma justified_app (v : option bool) (t1 t2 : list call) :
  justified v t1 -> justified (last_success v t1) t2 ->
  justified v (t1 ++ t2).
Proof.
  intros H1 H2 pre success r post Heq.
  apply List.app_eq_app in Heq as [l [[-> Heq]|[-> Heq]]].
  - destruct l as [|c l].
    + cbn [app] in Heq.
      destruct (H2 [] success r post (eq_sym Heq))
        as [[pre' Hpre]|[[_ (pre' & ir & _ & Hpre)]
                        |(pre' & c & t0 & _ & Hpre & _)]];
        by destruct pre'.
    + injection Heq as <- ->. by apply (H1 pre success r l).
  - destruct (H2 l success r post Heq)
      as [[pre' ->]|[[-> (pre' & ir & Hir & ->)]
                    |(pre' & c & t0 & Hc & -> & Hlast)]].
    + left. exists (t1 ++ pre'). by rewrite (assoc_L (++)).
    + right. left. split; [done|]. exists (t1 ++ pre'), ir.
      split; [done|]. by rewrite (assoc_L (++)).
    + right. right. exists (t1 ++ pre'), c, t0. split; [done|].
      split; [by rewrite (assoc_L (++))|]. by rewrite last_success_app.
Qed.

Lemma ended_app (v : option bool) (t1 t2 : list call)
    (done1 done2 : list string) (t : thrown) :
  length (finish_calls t1) = length done1 ->
  ended (last_success v t1) t2 done2 t ->
  ended v (t1 ++ t2) (done1 ++ done2) t.
Proof.
  intros Hn [(pre & success & -> & Hlen)
            |[(Hexc & pre & c & success & Hc & -> & Hlast & Hlen)
             |(-> & pre & c & t' & Hc & -> & Hlast & Hlen)]].
  - left. exists (t1 ++ pre), success. split; [by rewrite (assoc_L (++))|].
    rewrite finish_calls_app, !length_app. lia.
  - right. left. split; [done|]. exists (t1 ++ pre), c, success.
    split; [done|]. split; [by rewrite (assoc_L (++))|].
    split; [by rewrite last_success_app|].
    rewrite finish_calls_app, !length_app. lia.
  - right. right. split; [done|]. exists (t1 ++ pre), c, t'.
    split; [done|]. split; [by rewrite (assoc_L (++))|].
    split; [by rewrite last_success_app|].
    rewrite finish_calls_app, !length_app. lia.
Qed.

(** What one turn contributes. *)
Lemma turn_facts (url : string) (v : option bool) (new : list call)
    (r : res unit) (v' : option bool) :
  turn url v new r v' ->
  opened new = [url]
  /\ justified v new
  /\ match r with
     | Val _ =>
         v' = last_success v new /\ length (finish_calls new) = 1%nat
         /\ Forall went_on new
     | Thrown t => ended v new [url] t
     end.
Proof.
  intros (body & tail & o & p & -> & Hbody & -> & Htail).
  assert (Hint : forall c t, is_Exception t = false ->
            (exists u, c = OpenInNewTab u (Some t))
            \/ c = FillAndSubmit (Thrown t) \/ c = Input (Some t) ->
            interrupted c t) by (intros c t H1 H2; by split).
  split; [by destruct Hbody; inversion Htail|].
  split.
  { intros pre success r0 post Heq.
    destruct Hbody; inversion Htail; subst.
    all: destruct pre as [|c0 [|c1 [|c2 [|c3 [|c4 pre]]]]]; simplify_eq/=.
    all: try (left; by eexists [_]).
    all: try (left; by eexists [_; _]).
    all: try (right; left; split; [done|]; by eexists [_], _).
    all: try (right; left; split; [done|]; by eexists [_; _], _).
    all: right; right.
    all: first [ eexists [], _, _; split; [|split; [reflexivity|done]]
               | eexists [_], _, _; split; [|split; [reflexivity|done]]
               | eexists [_; _], _, _; split; [|split; [reflexivity|done]] ].
    all: apply Hint; [eassumption|].
    all: first [ left; by eexists | right; left; reflexivity
               | right; right; reflexivity ]. }
  destruct Hbody; inversion Htail; subst; cbn [app].
  all: try (split; [reflexivity|]; split; [reflexivity|];
            repeat constructor; cbn;
            first [ done | assumption | by intros ? [= <-] ]).
  all: try (left; first [ by eexists [_; _], _ | by eexists [_; _; _], _
                        | by eexists [_], _ ]).
  all: try (right; left; split; [done|];
            first [ eexists [], _, _; split;
                    [|split; [reflexivity|split; [done|reflexivity]]]
                  | eexists [_], _, _; split;
                    [|split; [reflexivity|split; [done|reflexivity]]]
                  | eexists [_; _], _, _; split;
                    [|split; [reflexivity|split; [done|reflexivity]]] ];
            apply Hint; [eassumption|];
            first [ left; by eexists | right; left; reflexivity
                  | right; right; reflexivity ]).
  all: right; right; split; [done|].
  all: first [ eexists [], _, _; split;
               [|split; [reflexivity|split; [done|reflexivity]]]
             | eexists [_], _, _; split;
               [|split; [reflexivity|split; [done|reflexivity]]]
             | eexists [_; _], _, _; split;
               [|split; [reflexivity|split; [done|reflexivity]]] ].
  all: apply Hint; [eassumption|].
  all: first [ left; by eexists | right; left; reflexivity
             | right; right; reflexivity ].
Qed.

Lemma apply_jobs_run (jobs : list JobCard) (v : option bool) (d : desk) :
  exists r v' d' new done rest,
    apply_jobs jobs (v, d) = (r, (v', d'))
    /\ replies d' = replies d
    /\ calls d' = calls d ++ new
    /\ wanted jobs = done ++ rest
    /\ opened new = done
    /\ justified v new
    /\ match r with
       | Val _ =>
           rest = [] /\ v' = last_success v new
           /\ length (finish_calls new) = length done
           /\ Forall went_on new
       | Thrown t => ended v new done t
       end.
Proof.
  revert v d. induction jobs as [|job jobs IH]; intros v d.
  { exists (Val tt), v, d, [], [], []. rewrite app_nil_r.
    split_and!; first [done|apply justified_nil|constructor]. }
  unfold apply_jobs. cbn [apply_to_jobs]. unfold bind at 1.
  fold (apply_job job). fold (apply_jobs jobs).
  destruct (apply_job_run job v d) as (r1 & v1 & d1 & new1 & -> & Hr1 & Hc1 & Hj).
  rewrite wanted_cons.
  destruct (IAITabs.truthy (application_url job)).
  - set (url := default EmptyString (application_url job)) in *.
    destruct (turn_facts url v new1 r1 v1 Hj) as (Hop1 & Hjust1 & Hend1).
    destruct r1 as [[]|t].
    + destruct Hend1 as (-> & Hn1 & Hgo1).
      destruct (IH (last_success v new1) d1)
        as (r & v' & d' & new & done & rest & Hrun & Hr & Hc & Hw & Hop
            & Hjust & Hend).
      exists r, v', d', (new1 ++ new), (url :: done), rest.
      split_and!.
      * exact Hrun.
      * by rewrite Hr.
      * by rewrite Hc, Hc1, <- (assoc_L (++)).
      * by rewrite Hw.
      * by rewrite opened_app, Hop1, Hop.
      * by apply justified_app.
      * destruct r as [[]|t].
        -- destruct Hend as (-> & -> & Hn & Hgo). split_and!.
           ++ done.
           ++ by rewrite last_success_app.
           ++ rewrite finish_calls_app, length_app, Hn1, Hn. reflexivity.
           ++ by apply Forall_app.
        -- by apply (ended_app v new1 new [url] done t).
    + exists (Thrown t), v1, d1, new1, [url], (wanted jobs).
      split_and!; done.
  - destruct Hj as (-> & -> & ->).
    destruct (IH v d1)
      as (r & v' & d' & new & done & rest & Hrun & Hr & Hc & Hw & Hop
          & Hjust & Hend).
    exists r, v', d', new, done, rest.
    split_and!; [done|by rewrite Hr|by rewrite Hc, Hc1, app_nil_r|done..].
Qed.

Lemma apply_all_run (jobs : list JobCard) (d : desk) :
  exists r d' new done rest,
    apply_all jobs d = (r, d')
    /\ calls d' = calls d ++ new
    /\ wanted jobs = done ++ rest
    /\ opened new = done
    /\ justified None new
    /\ match r with
       | Val _ =>
           rest = []
           /\ length (finish_calls new) = length done
           /\ Forall went_on new
       | Thrown t => ended None new done t
       end.
Proof.
  destruct (apply_jobs_run jobs None d)
    as (r & v' & d' & new & done & rest & Hrun & _ & Hc & Hw & Hop & Hjust
        & Hend).
  exists r, d', new, done, rest.
  unfold apply_all, apply_to_jobs_on_page. unfold apply_jobs in Hrun.
  rewrite Hrun. split_and!; [done..|].
  destruct r as [[]|t]; [|done]. by destruct Hend as (-> & _ & Hn & Hgo).
Qed.

(** X20.  The applications of a page depend on each other only through
    exceptions that are no [Exception]: the loop opens the application
    links of its jobs in list order (a job without link is skipped).
    When it returns it has opened every link and called [finish_tab]
    once for each, no [finish_tab] has raised and no call was left by
    such an exception, whatever [Exception]s the applications raised.
    It ends early in three ways only: a [finish_tab] call raises; or one
    of the calls of the [try] is left by an exception that is no
    [Exception] (a [KeyboardInterrupt]), after which [finish_tab] is
    still called, with the value it received the time before, and the
    exception goes on; or, when [finish_tab] was never called before,
    the [finally] clause fails with the [UnboundLocalError] of
    [success], and no [finish_tab] is called for the link opened. *)
Theorem every_application_link_is_handled (jobs : list JobCard) (d : desk) :
  exists new done rest,
    calls (snd (apply_all jobs d)) = calls d ++ new
    /\ wanted jobs = done ++ rest
    /\ opened new = done
    /\ match fst (apply_all jobs d) with
       | Val _ =>
           rest = []
           /\ length (finish_calls new) = length done
           /\ Forall went_on new
       | Thrown t =>
           (exists pre success,
               new = pre ++ [FinishTab success (Some t)]
               /\ length (finish_calls new) = length done)
           \/ (is_Exception t = false
               /\ exists pre c success,
                    interrupted c t
                    /\ new = pre ++ [c; FinishTab success None]
                    /\ last_success None pre = Some success
                    /\ length (finish_calls new) = length done)
           \/ (t = Unbound "success"
               /\ exists pre c t',
                    interrupted c t'
                    /\ new = pre ++ [c]
                    /\ last_success None pre = None
                    /\ S (length (finish_calls new)) = length done)
       end.
Proof.
  destruct (apply_all_run jobs d)
    as (r & d' & new & done & rest & Hrun & Hc & Hw & Hop & _ & Hend).
  rewrite Hrun. exists new, done, rest. split_and!; [done..|].
  cbn [fst]. by destruct r.
Qed.

(** X21.  Where the argument of [finish_tab] comes from: every
    [finish_tab(success)] call of the loop comes right after the
    [fill_and_submit_application] call that returned [success]; or, for
    [False], right after the [input()] of the handler, which returned or
    raised an [Exception]; or right after a call that was left by an
    exception that is no [Exception] (a [KeyboardInterrupt]), and then
    [success] is the value [finish_tab] received the time before, so
    that [finish_tab(True)] can follow an application that did not
    succeed. *)
Theorem finish_tab_argument_is_returned_or_stale (jobs : list JobCard)
    (d : desk) :
  exists new,
    calls (snd (apply_all jobs d)) = calls d ++ new
    /\ forall pre success r post,
         new = pre ++ FinishTab success r :: post ->
         (exists pre', pre = pre' ++ [FillAndSubmit (Val success)])
         \/ (success = false
             /\ exists pre' ir, resumed ir /\ pre = pre' ++ [Input ir])
         \/ (exists pre' c t,
               interrupted c t /\ pre = pre' ++ [c]
               /\ last_success None pre' = Some success).
Proof.
  destruct (apply_all_run jobs d)
    as (r & d' & new & done & rest & Hrun & Hc & _ & _ & Hjust & _).
  rewrite Hrun. exists new. split; [exact Hc|exact Hjust].
Qed.

(** Three jobs: the first application raises while the form is filled,
    the second job has no link, the third application succeeds. *)
Definition technician : JobCard :=
  {| title := "Technician"; application_url := None;
     job_url := None; description := ""; details := [] |}.

Definition analyst : JobCard :=
  {| title := "Analyst"; application_url := Some "/apply/3"%string;
     job_url := None; description := ""; details := [] |}.

Definition stubborn_form : desk :=
  {| replies := fun k =>
       {| opens := None;
          fills := if (k =? 1)%nat then Thrown (Exc WebDriverException)
                   else Val true;
          inputs := None; finishes := None |};
     calls := [] |}.

Example failed_application_then_success :
  calls (snd (apply_all [engineer; technician; analyst] stubborn_form))
  = [OpenInNewTab "/apply/1" None;
     FillAndSubmit (Thrown (Exc WebDriverException));
     Input None; FinishTab false None;
     OpenInNewTab "/apply/3" None; FillAndSubmit (Val true);
     FinishTab true None].
Proof. vm_compute. reflexivity. Qed.

(** The operator presses Ctrl-C while the second form is filled: the
    tab of the second application is finished as a success, with the
    value left by the first. *)
Definition interrupted_form : desk :=
  {| replies := fun k =>
       {| opens := None;
          fills := if (k =? 4)%nat then Thrown Interrupt else Val true;
          inputs := None; finishes := None |};
     calls := [] |}.

Example interrupt_finishes_with_a_stale_success :
  apply_all [engineer; analyst] interrupted_form
  = (Thrown Interrupt,
     {| replies := replies interrupted_form;
        calls := [OpenInNewTab "/apply/1" None; FillAndSubmit (Val true);
                  FinishTab true None;
                  OpenInNewTab "/apply/3" None; FillAndSubmit (Thrown Interrupt);
                  FinishTab true None] |}).
Proof. vm_compute. reflexivity. Qed.

(** Ctrl-C at the pause of the first application: [success] is unbound
    in the [finally] clause, and [finish_tab] is not called. *)
Definition interrupted_pause : desk :=
  {| replies := fun k =>
       {| opens := Some (Exc WebDriverException);
          fills := Val true;
          inputs := Some Interrupt; finishes := None |};
     calls := [] |}.

Example interrupt_at_the_first_pause :
  apply_all [engineer; analyst] interrupted_pause
  = (Thrown (Unbound "success"),
     {| replies := replies interrupted_pause;
        calls := [OpenInNewTab "/apply/1" (Some (Exc WebDriverException));
                  Input (Some Interrupt)] |}).
Proof. vm_compute. reflexivity. Qed.

End IAIApply.

Module Part3.
Import Py.
Local Open Scope py_scope.

(** ** part3_process_each_job_and_save *)

Record SeleniumConfig : Type := {
  headless : bool;
  default_wait_s : Z;
  page_load_timeout_s : Z;
  pause_on_error : bool
}.

(** The dict [extract_job_page_details] returns. *)
Record details : Type := {
  d_title : string;
  d_location : string;
  d_req_id : string;
  d_description : string
}.

(** What [input()] does: it returns, it raises [EOFError], or it is left
    by something else, as the [KeyboardInterrupt] of a Ctrl-C. *)
Inductive line : Type :=
  | Entered
  | EOFError
  | Failed (t : thrown).

(** What the browser, the two functions called on a job page and the
    operator answer at one call; each call reads the answer meant for
    it.  Any call can be left by an [Exception] or by an exception that
    is none: [apply_flow_for_current_job] pauses on [input()] itself. *)
Record answers : Type := {
  current_window_handle : res string;
  switch_to_window : string -> option thrown;
  window_open : option thrown;    (* execute_script("window.open(...)") *)
  second_window : option thrown;  (* the wait for len(window_handles) >= 2 *)
  window_handles : res (list string);
  extract_job_page_details : res details;
  apply_flow_for_current_job : res bool;
  input : line;
  close : option thrown
}.

Inductive call : Type :=
  | CurrentWindowHandle
  | SwitchTo (h : string)
  | WindowOpen (url : string)
  | WaitSecondWindow
  | WindowHandles
  | ExtractDetails
  | ApplyFlow
  | Input
  | Sleep (ms : Z)
  | Close.

Record desk : Type := {
  replies : nat -> answers;       (* the answers to the k-th call *)
  calls : list call
}.

(** A call is logged and reads its answers. *)
Definition ask (c : call) : P desk answers :=
  d <- get ;;
  modify (fun d => {| replies := replies d; calls := calls d ++ [c] |}) ;;;
  ret (replies d (length (calls d))).

Definition driver_current_window_handle : P desk string :=
  a <- ask CurrentWindowHandle ;; lift_res (current_window_handle a).

Definition driver_switch_to_window (h : string) : P desk unit :=
  a <- ask (SwitchTo h) ;; outcome (switch_to_window a h).

Definition execute_script_window_open (url : string) : P desk unit :=
  a <- ask (WindowOpen url) ;; outcome (window_open a).

Definition wait_second_window : P desk unit :=
  a <- ask WaitSecondWindow ;; outcome (second_window a).

Definition driver_window_handles : P desk (list string) :=
  a <- ask WindowHandles ;; lift_res (window_handles a).

Definition extract_details : P desk details :=
  a <- ask ExtractDetails ;; lift_res (extract_job_page_details a).

Definition apply_flow : P desk bool :=
  a <- ask ApplyFlow ;; lift_res (apply_flow_for_current_job a).

Definition driver_close : P desk unit :=
  a <- ask Close ;; outcome (close a).

Definition time_sleep (ms : Z) : P desk unit := ask (Sleep ms) ;;; ret tt.

(** [debug_pause]: only [EOFError] is caught around [input()]. *)
Definition debug_pause (cfg : SeleniumConfig) : P desk unit :=
  if pause_on_error cfg then
    a <- ask Input ;;
    match input a with
    | Entered => ret tt
    | EOFError => time_sleep 5000
    | Failed t => throw t
    end
  else ret tt.

(** [[h for h in handles if h != base_tab][-1]] *)
Definition last_other (base_tab : string) (hs : list string) : res string :=
  match last (List.filter (fun h => negb (String.eqb h base_tab)) hs) with
  | Some h => Val h
  | None => Thrown (Exc IndexError)
  end.

(** [f"job_{idx:02d}"] *)
Definition job_nn (idx : nat) : string :=
  "job_" +:+ (if (idx <? 10)%nat then "0" +:+ pretty idx else pretty idx).

Fixpoint join_with (sep : string) (bits : list string) : string :=
  match bits with
  | [] => ""
  | [b] => b
  | b :: rest => b +:+ sep +:+ join_with sep rest
  end.

(** The file name the loop computes from the details; the dict of a job
    has no location, so [job.get("location", "")] is empty. *)
Definition base_name (idx : nat) (job : JobList.job) (d : details) : string :=
  let title := if nonempty (d_title d) then d_title d
               else JobList.title job in
  let bits := (if nonempty title then [NvidiaTools.clean_slug title] else [])
              ++ (if nonempty (d_req_id d) then [d_req_id d] else []) in
  let bits := match bits with [] => [job_nn idx] | _ => bits end in
  "motivation_Job_" +:+ join_with "_" bits +:+ ".txt".

(** The body of the loop for a job that has a URL; it answers the new
    [applied_count].  The file name is computed and not used. *)
Definition process_job (cfg : SeleniumConfig) (base_tab : string)
    (idx applied_count : nat) (job : JobList.job) : P desk nat :=
  driver_switch_to_window base_tab ;;;
  execute_script_window_open (JobList.url job) ;;;
  wait_second_window ;;;
  hs <- driver_window_handles ;;
  new_tab <- lift_res (last_other base_tab hs) ;;
  driver_switch_to_window new_tab ;;;
  (try (details <- extract_details ;;
        let name := base_name idx job details in
        ret tt)
   except is_Exception => debug_pause cfg) ;;;
  applied_count <-
    (try (did_apply <- apply_flow ;;
          ret (if did_apply then S applied_count else applied_count))
     except is_Exception => debug_pause cfg ;;; ret applied_count) ;;
  (try driver_close except is_Exception => ret tt) ;;;
  driver_switch_to_window base_tab ;;;
  ret applied_count.

Fixpoint process_jobs (cfg : SeleniumConfig) (base_tab : string)
    (idx applied_count : nat) (jobs : list JobList.job) : P desk unit :=
  match jobs with
  | [] => ret tt
  | job :: rest =>
      if negb (nonempty (JobList.url job))
      then process_jobs cfg base_tab (S idx) applied_count rest  (* continue *)
      else
        applied_count <- process_job cfg base_tab idx applied_count job ;;
        if (20 <=? idx)%nat || (20 <=? applied_count)%nat
        then ret tt                                              (* break *)
        else process_jobs cfg base_tab (S idx) applied_count rest
  end.

(** [PROFILE_DOCS_DIR] is [None], so [read_profile_corpus] returns the
    empty text without touching the disk. *)
Definition part3_process_each_job_and_save (cfg : SeleniumConfig)
    (jobs : list JobList.job) : P desk unit :=
  base_tab <- driver_current_window_handle ;;
  process_jobs cfg base_tab 1 0 jobs.

(** ** What a log shows *)

(** The URLs given to [window.open], in order. *)
Definition opened (t : list call) : list string :=
  omap (fun c => match c with WindowOpen url => Some url | _ => None end) t.

Definition is_tab_call (c : call) : bool :=
  match c with WindowOpen _ | Close => true | _ => false end.

(** The openings and closings of tabs in a log. *)
Definition tabs (t : list call) : list call := List.filter is_tab_call t.

(** Job tabs opened and closed one after the other. *)
Definition visits (urls : list string) : list call :=
  flat_map (fun url => [WindowOpen url; Close]) urls.

(** The calls whose [Exception]s the loop lets through. *)
Definition unguarded (c : call) : bool :=
  match c with
  | ExtractDetails | ApplyFlow | Close | Sleep _ => false
  | _ => true
  end.

(** The URLs of the jobs that have one. *)
Definition wanted (jobs : list JobList.job) : list string :=
  List.filter nonempty (map JobList.url jobs).

(** The jobs the loop gets to: those with a URL among the first 19, and
    the first one with a URL from the 20th on. *)
Definition within_limit (jobs : list JobList.job) : list string :=
  wanted (take 19 jobs) ++ take 1 (wanted (drop 19 jobs)).

(** ** One job *)

Lemma last_other_Exception (base_tab : string) (hs : list string)
    (t : thrown) :
  last_other base_tab hs = Thrown t -> t = Exc IndexError.
Proof. unfold last_other. destruct (last _); by intros [= <-]. Qed.

Lemma process_job_run (cfg : SeleniumConfig) (base_tab : string)
    (idx applied_count : nat) (job : JobList.job) (d : desk) :
  exists r d' new,
    process_job cfg base_tab idx applied_count job d = (r, d')
    /\ replies d' = replies d
    /\ calls d' = calls d ++ new
    /\ match r with
       | Val n =>
           tabs new = [WindowOpen (JobList.url job); Close]
           /\ last new = Some (SwitchTo base_tab)
           /\ (n = applied_count \/ n = S applied_count)
       | Thrown t =>
           (tabs new = [] \/ tabs new = [WindowOpen (JobList.url job)]
            \/ tabs new = [WindowOpen (JobList.url job); Close])
           /\ exists c, last new = Some c
                        /\ (unguarded c = true \/ is_Exception t = false)
       end.
Proof.
  destruct d as [rep cs]. destruct cfg as [hl dw pl pause].
  unfold process_job.
  repeat first
    [ progress (unfold bind, try_except, driver_switch_to_window,
                  execute_script_window_open, wait_second_window,
                  driver_window_handles, extract_details, apply_flow,
                  driver_close, time_sleep, debug_pause, ask, get, modify,
                  ret, outcome, lift_res, throw;
                cbn [replies calls pause_on_error])
    | match goal with
      | |- context [switch_to_window ?a ?h] => destruct (switch_to_window a h)
      | |- context [window_open ?a] => destruct (window_open a)
      | |- context [second_window ?a] => destruct (second_window a)
      | |- context [window_handles ?a] => destruct (window_handles a)
      | |- context [last_other ?b ?hs] =>
          let H := fresh "Hlast" in
          destruct (last_other b hs) eqn:H;
          [|apply last_other_Exception in H; subst]
      | |- context [extract_job_page_details ?a] =>
          destruct (extract_job_page_details a)
      | |- context [apply_flow_for_current_job ?a] =>
          destruct (apply_flow_for_current_job a)
      | |- context [input ?a] => destruct (input a)
      | |- context [close ?a] => destruct (close a)
      | |- context [is_Exception ?t0] => destruct (is_Exception t0) eqn:?
      | |- context [if ?b then _ else _] => destruct b
      end ].
  all: rewrite <- ?(assoc_L (++)).
  all: eexists _, _, _; split; [reflexivity|].
  all: split; [reflexivity|]; split; [reflexivity|].
  all: cbn [app tabs List.filter is_tab_call last].
  all: split_and?; try done.
  all: try (by left).
  all: try (by right).
  all: try (by right; left).
  all: try (by right; right).
  all: try (eexists; split; [reflexivity|]; first [by left|by right]).
Qed.

(** ** The loop *)

(** The jobs the loop gets to from position [idx] on: the test on
    [applied_count] plays no part. *)
Fixpoint handled (idx : nat) (jobs : list JobList.job) : list string :=
  match jobs with
  | [] => []
  | job :: rest =>
      if nonempty (JobList.url job)
      then JobList.url job
           :: (if (20 <=? idx)%nat then [] else handled (S idx) rest)
      else handled (S idx) rest
  end.

Lemma wanted_urls_cons (job : JobList.job) (jobs : list JobList.job) :
  wanted (job :: jobs)
  = if nonempty (JobList.url job) then JobList.url job :: wanted jobs
    else wanted jobs.
Proof. reflexivity. Qed.

Lemma handled_from_20 (idx : nat) (jobs : list JobList.job) :
  (20 <= idx)%nat -> handled idx jobs = take 1 (wanted jobs).
Proof.
  revert idx. induction jobs as [|job jobs IH]; intros idx Hidx; [done|].
  cbn [handled]. rewrite wanted_urls_cons.
  destruct (nonempty (JobList.url job)).
  - apply Nat.leb_le in Hidx. by rewrite Hidx.
  - apply IH. lia.
Qed.

Lemma handled_limit (idx : nat) (jobs : list JobList.job) :
  (idx <= 20)%nat ->
  handled idx jobs
  = wanted (take (20 - idx) jobs) ++ take 1 (wanted (drop (20 - idx) jobs)).
Proof.
  revert idx. induction jobs as [|job jobs IH]; intros idx Hidx.
  { by rewrite take_nil, drop_nil. }
  destruct (decide (idx = 20%nat)) as [->|Hne].
  { by rewrite handled_from_20. }
  replace (20 - idx)%nat with (S (20 - S idx)) by lia.
  cbn [handled take drop]. rewrite wanted_urls_cons.
  assert (Hlt : (20 <=? idx)%nat = false) by (apply Nat.leb_gt; lia).
  rewrite Hlt, (IH (S idx)) by lia.
  by destruct (nonempty (JobList.url job)).
Qed.

Lemma handled_within_limit (jobs : list JobList.job) :
  handled 1 jobs = within_limit jobs.
Proof. by rewrite handled_limit by lia. Qed.

Lemma wanted_length (jobs : list JobList.job) :
  (length (wanted jobs) <= length jobs)%nat.
Proof.
  unfold wanted. etrans; [apply List.filter_length_le|].
  by rewrite length_map.
Qed.

Lemma within_limit_length (jobs : list JobList.job) :
  (length (within_limit jobs) <= 20)%nat.
Proof.
  unfold within_limit. rewrite length_app, length_take.
  pose proof (wanted_length (take 19 jobs)) as Hw.
  rewrite length_take in Hw. lia.
Qed.

Lemma opened_pages_app (t1 t2 : list call) :
  opened (t1 ++ t2) = opened t1 ++ opened t2.
Proof. apply omap_app. Qed.

Lemma tabs_app (t1 t2 : list call) : tabs (t1 ++ t2) = tabs t1 ++ tabs t2.
Proof. apply List.filter_app. Qed.

Lemma opened_tabs (t : list call) : opened (tabs t) = opened t.
Proof.
  induction t as [|c t IH]; [done|].
  destruct c; cbn [tabs List.filter is_tab_call]; fold (tabs t);
    cbn [opened omap list_omap]; fold (opened t); fold (opened (tabs t));
    by rewrite ?IH.
Qed.

Lemma opened_visits (urls : list string) : opened (visits urls) = urls.
Proof.
  induction urls as [|url urls IH]; [done|].
  cbn [visits flat_map app]. fold (visits urls).
  cbn [opened omap list_omap]. fold (opened (visits urls)). by rewrite IH.
Qed.

(** What a run of the loop leaves in the log. *)
Definition loop_log (base_tab : string) (todo : list string)
    (r : res unit) (new : list call) : Prop :=
  exists done rest,
    tabs new = visits done ++ rest
    /\ (rest = [] \/ exists url, rest = [WindowOpen url])
    /\ (done ++ opened rest) `prefix_of` todo
    /\ match r with
       | Val _ =>
           rest = [] /\ done = todo
           /\ (new = [] \/ last new = Some (SwitchTo base_tab))
       | Thrown t =>
           exists c, last new = Some c
                     /\ (unguarded c = true \/ is_Exception t = false)
       end.

Lemma process_jobs_run (cfg : SeleniumConfig) (base_tab : string)
    (jobs : list JobList.job) (idx applied_count : nat) (d : desk) :
  (applied_count < idx)%nat ->
  exists r d' new,
    process_jobs cfg base_tab idx applied_count jobs d = (r, d')
    /\ replies d' = replies d
    /\ calls d' = calls d ++ new
    /\ loop_log base_tab (handled idx jobs) r new.
Proof.
  revert idx applied_count d.
  induction jobs as [|job jobs IH]; intros idx n d Hn.
  { exists (Val tt), d, []. rewrite app_nil_r. split_and!; [done..|].
    exists [], []. split_and!; [done|by left|done|done|done|by left]. }
  cbn [process_jobs handled].
  destruct (nonempty (JobList.url job)); cbn [negb].
  { unfold bind at 1.
    destruct (process_job_run cfg base_tab idx n job d)
      as (r1 & d1 & new1 & -> & Hr1 & Hc1 & Hjob).
    set (url := JobList.url job) in *.
    destruct r1 as [n1|e].
    - destruct Hjob as (Htabs & Hlast & Hn1).
      destruct (20 <=? idx)%nat eqn:Hidx; cbn [orb].
      + exists (Val tt), d1, new1. split_and!; [done..|].
        exists [url], []. split_and!; [done|by left|done|done|done|by right].
      + apply Nat.leb_gt in Hidx.
        assert (Hcount : (20 <=? n1)%nat = false)
          by (apply Nat.leb_gt; lia).
        rewrite Hcount.
        destruct (IH (S idx) n1 d1)
          as (r & d' & new & Hrun & Hr & Hc & Hlog); [lia|].
        rewrite Hrun. exists r, d', (new1 ++ new).
        split_and!; [done|by rewrite Hr|by rewrite Hc, Hc1,
                                          <- (assoc_L (++))|].
        destruct Hlog as (done & rest & Ht & Hrest & Hpre & Hres).
        exists (url :: done), rest. split_and!.
        * by rewrite tabs_app, Htabs, Ht.
        * done.
        * by apply prefix_cons.
        * destruct r as [[]|e].
          -- destruct Hres as (-> & -> & Hend). split_and!; [done..|].
             right. rewrite last_app.
             destruct Hend as [-> | Hend]; [exact Hlast|by rewrite Hend].
          -- destruct Hres as (c & Hc' & Hun). exists c.
             by rewrite last_app, Hc'.
    - destruct Hjob as (Htabs & c & Hlast & Hun).
      exists (Thrown e), d1, new1. split_and!; [done..|].
      destruct Htabs as [Ht|[Ht|Ht]].
      + exists [], []. split_and!; [done|by left|apply prefix_nil|by exists c].
      + exists [], [WindowOpen url].
        split_and!; [done|right; by exists url| |by exists c].
        apply prefix_cons, prefix_nil.
      + exists [url], []. split_and!; [done|by left| |by exists c].
        apply prefix_cons, prefix_nil. }
  apply IH. lia.
Qed.

Lemma part3_run (cfg : SeleniumConfig) (jobs : list JobList.job) (d : desk) :
  exists r d' new,
    part3_process_each_job_and_save cfg jobs d = (r, d')
    /\ calls d' = calls d ++ new
    /\ exists done rest,
         tabs new = visits done ++ rest
         /\ (rest = [] \/ exists url, rest = [WindowOpen url])
         /\ (done ++ opened rest) `prefix_of` within_limit jobs
         /\ match r with
            | Val _ =>
                rest = [] /\ done = within_limit jobs
                /\ exists base_tab,
                     current_window_handle (replies d (length (calls d)))
                     = Val base_tab
                     /\ (new = [CurrentWindowHandle]
                         \/ last new = Some (SwitchTo base_tab))
            | Thrown t =>
                exists c, last new = Some c
                          /\ (unguarded c = true \/ is_Exception t = false)
            end.
Proof.
  destruct d as [rep cs].
  unfold part3_process_each_job_and_save, driver_current_window_handle, ask,
    bind, get, modify, ret, lift_res, throw; cbn [replies calls].
  destruct (current_window_handle (rep (length cs))) as [base_tab|e];
    unfold ret, throw.
  - destruct (process_jobs_run cfg base_tab jobs 1 0
                {| replies := rep; calls := cs ++ [CurrentWindowHandle] |})
      as (r & d' & new & Hrun & Hr & Hc & Hlog); [lia|].
    rewrite Hrun. exists r, d', ([CurrentWindowHandle] ++ new).
    cbn [calls] in Hc.
    split_and!; [done|by rewrite Hc, <- (assoc_L (++))|].
    destruct Hlog as (done & rest & Ht & Hrest & Hpre & Hres).
    rewrite handled_within_limit in *.
    exists done, rest. split_and!; [by rewrite tabs_app, Ht|done..|].
    destruct r as [[]|e].
    + destruct Hres as (-> & -> & Hend). split_and!; [done..|].
      exists base_tab. split; [done|].
      destruct Hend as [->|Hlast]; [by left|right].
      by rewrite last_app, Hlast.
    + destruct Hres as (c & Hlast & Hun). exists c.
      by rewrite last_app, Hlast.
  - exists (Thrown e),
      {| replies := rep; calls := cs ++ [CurrentWindowHandle] |},
      [CurrentWindowHandle].
    split_and!; [done..|]. exists [], [].
    split_and!; [done|by left|apply prefix_nil|].
    exists CurrentWindowHandle. split; [done|by left].
Qed.

(** X22.  [part3_process_each_job_and_save] opens at most 20 job pages:
    it calls [window.open] for the jobs that have a URL, in list order,
    up to the ones among the first 19 jobs and the first one from the
    20th job on, whatever happens on the job pages; when it returns it
    has opened exactly those. *)
Theorem at_most_twenty_job_pages (cfg : SeleniumConfig)
    (jobs : list JobList.job) (d : desk) :
  exists new,
    calls (snd (part3_process_each_job_and_save cfg jobs d)) = calls d ++ new
    /\ opened new `prefix_of` within_limit jobs
    /\ (length (opened new) <= 20)%nat
    /\ (fst (part3_process_each_job_and_save cfg jobs d) = Val tt ->
        opened new = within_limit jobs).
Proof.
  destruct (part3_run cfg jobs d)
    as (r & d' & new & Hrun & Hc & done & rest & Ht & _ & Hpre & Hres).
  rewrite Hrun. exists new. split; [exact Hc|].
  assert (Hop : opened new = done ++ opened rest).
  { by rewrite <- opened_tabs, Ht, opened_pages_app, opened_visits. }
  rewrite Hop. split_and!.
  - exact Hpre.
  - etrans; [apply (prefix_length _ _ Hpre)|apply within_limit_length].
  - cbn [fst]. intros ->. destruct Hres as (-> & -> & _).
    by rewrite app_nil_r.
Qed.

(** X23.  One job tab at a time: in the calls of
    [part3_process_each_job_and_save] every [window.open] is followed by
    a [close()] before the next [window.open], only the last one may
    lack it, and then the function has raised; when the function returns,
    every page opened was closed and the last call has switched back to
    the tab the function started in. *)
Theorem one_job_tab_at_a_time (cfg : SeleniumConfig)
    (jobs : list JobList.job) (d : desk) :
  exists new done rest,
    calls (snd (part3_process_each_job_and_save cfg jobs d)) = calls d ++ new
    /\ tabs new = visits done ++ rest
    /\ (rest = [] \/ exists url, rest = [WindowOpen url])
    /\ (fst (part3_process_each_job_and_save cfg jobs d) = Val tt ->
        rest = []
        /\ exists base_tab,
             current_window_handle (replies d (length (calls d)))
             = Val base_tab
             /\ (new = [CurrentWindowHandle]
                 \/ last new = Some (SwitchTo base_tab))).
Proof.
  destruct (part3_run cfg jobs d)
    as (r & d' & new & Hrun & Hc & done & rest & Ht & Hrest & _ & Hres).
  rewrite Hrun. exists new, done, rest. split_and!; [done..|].
  cbn [fst]. intros ->. by destruct Hres as (-> & _ & Hbase).
Qed.

(** X24.  No [Exception] of a job page stops
    [part3_process_each_job_and_save]: when the function is left by an
    [Exception], its last call was a window operation
    ([current_window_handle], [switch_to.window], [window.open], the wait
    for the second window, [window_handles]) or the [input()] of a
    pause, never [extract_job_page_details],
    [apply_flow_for_current_job], [close()] or a sleep.  Only an
    exception that is no [Exception], as the [KeyboardInterrupt] of a
    Ctrl-C at a pause inside [apply_flow_for_current_job], comes out of
    those. *)
Theorem job_page_errors_do_not_stop_part3 (cfg : SeleniumConfig)
    (jobs : list JobList.job) (d : desk) (t : thrown) :
  fst (part3_process_each_job_and_save cfg jobs d) = Thrown t ->
  exists new c,
    calls (snd (part3_process_each_job_and_save cfg jobs d)) = calls d ++ new
    /\ last new = Some c
    /\ (unguarded c = true \/ is_Exception t = false).
Proof.
  destruct (part3_run cfg jobs d)
    as (r & d' & new & Hrun & Hc & done & rest & _ & _ & _ & Hres).
  rewrite Hrun. cbn [fst snd]. intros ->.
  destruct Hres as (c & Hlast & Hun). by exists new, c.
Qed.

(** A browser whose windows behave, in front of job pages on which
    nothing works. *)
Definition hard_pages : answers :=
  {| current_window_handle := Val "results"%string;
     switch_to_window := fun _ => None;
     window_open := None;
     second_window := None;
     window_handles := Val ["results"; "job"]%string;
     extract_job_page_details := Thrown (Exc TimeoutException);
     apply_flow_for_current_job := Thrown (Exc WebDriverException);
     input := Entered;
     close := Some (Exc WebDriverException) |}.

Definition patient_browser : desk :=
  {| replies := fun _ => hard_pages; calls := [] |}.

(** A browser in which the new tab never shows up. *)
Definition no_second_window : desk :=
  {| replies := fun _ =>
       {| current_window_handle := Val "results"%string;
          switch_to_window := fun _ => None;
          window_open := None;
          second_window := Some (Exc TimeoutException);
          window_handles := Val ["results"%string];
          extract_job_page_details := Thrown (Exc TimeoutException);
          apply_flow_for_current_job := Val true;
          input := Entered;
          close := None |};
     calls := [] |}.

(** Ctrl-C at a pause inside the application of the first job. *)
Definition interrupted_application : desk :=
  {| replies := fun _ =>
       {| current_window_handle := Val "results"%string;
          switch_to_window := fun _ => None;
          window_open := None;
          second_window := None;
          window_handles := Val ["results"; "job"]%string;
          extract_job_page_details := Thrown (Exc TimeoutException);
          apply_flow_for_current_job := Thrown Interrupt;
          input := Entered;
          close := None |};
     calls := [] |}.

Definition pausing : SeleniumConfig :=
  {| headless := false; default_wait_s := 20; page_load_timeout_s := 60;
     pause_on_error := true |}.

Definition offer (n : nat) : JobList.job :=
  {| JobList.title := "Engineer"; JobList.url := "/job/" +:+ pretty n |}.

Definition no_link : JobList.job :=
  {| JobList.title := "Engineer"; JobList.url := "" |}.

Lemma job_page_errors_do_not_stop_part3_witness :
  exists new c,
    calls (snd (part3_process_each_job_and_save pausing [offer 1]
                  no_second_window))
    = calls no_second_window ++ new
    /\ last new = Some c
    /\ (unguarded c = true \/ is_Exception (Exc TimeoutException) = false).
Proof.
  apply (job_page_errors_do_not_stop_part3 pausing [offer 1] no_second_window
           (Exc TimeoutException)).
  vm_compute. reflexivity.
Defined.

(** The 20th job has no link: the 21st is still handled, and the loop
    stops after it. *)
Example job_21_is_handled :
  opened (calls (snd (part3_process_each_job_and_save pausing
                        (map offer (seq 1 19) ++ [no_link] ++
                         map offer (seq 21 5))
                        patient_browser)))
  = map (fun n => "/job/" +:+ pretty n) (seq 1 19 ++ [21%nat]).
Proof. vm_compute. reflexivity. Qed.

(** The interrupt leaves the function with the job tab open, right
    after the call of the application flow. *)
Example interrupt_leaves_the_job_tab_open :
  part3_process_each_job_and_save pausing [offer 1; offer 2]
    interrupted_application
  = (Thrown Interrupt,
     {| replies := replies interrupted_application;
        calls := [CurrentWindowHandle; SwitchTo "results";
                  WindowOpen "/job/1"; WaitSecondWindow; WindowHandles;
                  SwitchTo "job"; ExtractDetails; Input; ApplyFlow] |}).
Proof. vm_compute. reflexivity. Qed.

End Part3.

Module IAIForm.

(** ** _fill_text_field_by_id and the text fields of the form *)

(** The candidate's data, module constants of the script. *)
Record candidate : Type := {
  FIRST_NAME : string;
  LAST_NAME : string;
  ID_NUMBER : string;
  EMAIL : string;
  PHONE : string
}.

(** What the page answers at one call; elements are named by numbers. *)
Record answers : Type := {
  presence : result nat;       (* the wait for the element's presence *)
  script : option exn;         (* driver.execute_script(...) *)
  clears : option exn;         (* el.clear() *)
  keys : option exn            (* el.send_keys(...) *)
}.

(** The calls, logged with what they answered. *)
Inductive call : Type :=
  | Find (loc : locator) (r : result nat)
  | ScrollIntoView (el : nat) (r : option exn)
  | Sleep (ms : Z)
  | Clear (el : nat) (r : option exn)
  | SendKeys (el : nat) (text : string) (r : option exn)
  | DispatchEvents (el : nat) (r : option exn).

Record desk : Type := {
  replies : nat -> answers;    (* the answers to the k-th call *)
  calls : list call
}.

Definition answer : M desk answers :=
  d <- get ;; ret (replies d (length (calls d))).

Definition log (c : call) : M desk unit :=
  modify (fun d => {| replies := replies d; calls := calls d ++ [c] |}).

(** Selenium's exceptions are subclasses of [WebDriverException]. *)
Definition is_WebDriverException (e : exn) : bool :=
  match e with
  | TimeoutException | NoSuchElementException | WebDriverException => true
  | _ => false
  end.

Definition wait_presence (loc : locator) : M desk nat :=
  a <- answer ;; log (Find loc (presence a)) ;;; lift_result (presence a).

Definition safe_find (loc : locator) : M desk (option nat) :=
  try (el <- wait_presence loc ;; ret (Some el))
  except is_TimeoutException => ret None.

Definition time_sleep (ms : Z) : M desk unit := log (Sleep ms).

Definition scroll_into_view (el : nat) : M desk unit :=
  try (a <- answer ;; log (ScrollIntoView el (script a)) ;;;
       outcome (script a) ;;; time_sleep 400)
  except is_WebDriverException => ret tt.

Definition clear (el : nat) : M desk unit :=
  a <- answer ;; log (Clear el (clears a)) ;;; outcome (clears a).

Definition send_keys (el : nat) (text : string) : M desk unit :=
  a <- answer ;; log (SendKeys el text (keys a)) ;;; outcome (keys a).

(** The script that fires the input, change and blur events and clears
    the invalid state of the element. *)
Definition dispatch_events (el : nat) : M desk unit :=
  a <- answer ;; log (DispatchEvents el (script a)) ;;; outcome (script a).

Definition _fill_text_field_by_id (field_id value : string) : M desk unit :=
  el <- safe_find (ID, field_id) ;;
  match el with
  | None => ret tt
  | Some el =>
      try (scroll_into_view el ;;; clear el ;;; send_keys el value ;;;
           dispatch_events el)
      except any_Exception => ret tt
  end.

(** The first five statements of [fill_and_submit_application]. *)
Definition fill_text_fields (c : candidate) : M desk unit :=
  _fill_text_field_by_id "firstName" (FIRST_NAME c) ;;;
  _fill_text_field_by_id "lastName" (LAST_NAME c) ;;;
  _fill_text_field_by_id "idNumber" (ID_NUMBER c) ;;;
  _fill_text_field_by_id "email" (EMAIL c) ;;;
  _fill_text_field_by_id "phone" (PHONE c).

(** ** What a log shows *)

(** The scroll lets the filling go on: its script returned, or raised a
    [WebDriverException], which [scroll_into_view] swallows. *)
Definition scroll_passed (r : option exn) : bool :=
  match r with
  | None => true
  | Some e => is_WebDriverException e
  end.

Definition returned (r : option exn) : bool :=
  match r with None => true | Some _ => false end.

(** The calls on the element found for a field, given what the scroll
    script, [clear()], [send_keys] and the event script answer: scroll,
    pause, clear, type, events, cut after the first call that keeps the
    next one from being made; the pause is made only when the scroll
    script returned. *)
Definition steps (el : nat) (value : string) (r1 r2 r3 r4 : option exn)
  : list call :=
  ScrollIntoView el r1
  :: (if returned r1 then [Sleep 400] else [])
  ++ (if scroll_passed r1 then
        Clear el r2
        :: (if returned r2 then
              SendKeys el value r3
              :: (if returned r3 then [DispatchEvents el r4] else [])
            else [])
      else []).

(** The texts typed, with the elements they went to. *)
Definition sends (t : list call) : list (nat * string) :=
  omap (fun c => match c with
                 | SendKeys el text _ => Some (el, text)
                 | _ => None
                 end) t.

(** The answers the calls of one [_fill_text_field_by_id] get, started
    after [k] calls: the scroll script at the call after the wait;
    [clear()] after the scroll and its pause, if any; then [send_keys]
    and the event script. *)
Definition scroll_answer (rep : nat -> answers) (k : nat) : option exn :=
  script (rep (k + 1)%nat).

Definition clear_at (rep : nat -> answers) (k : nat) : nat :=
  if returned (scroll_answer rep k) then (k + 3)%nat else (k + 2)%nat.

(** The calls of one [_fill_text_field_by_id] started after [k] calls:
    the wait for the field, and, when it found an element, the steps on
    that element. *)
Definition field_calls (rep : nat -> answers) (k : nat)
    (field : string * string) : list call :=
  Find (ID, fst field) (presence (rep k))
  :: match presence (rep k) with
     | Ok el =>
         steps el (snd field) (scroll_answer rep k)
           (clears (rep (clear_at rep k)))
           (keys (rep (clear_at rep k + 1)%nat))
           (script (rep (clear_at rep k + 2)%nat))
     | Raise _ => []
     end.

(** What one [_fill_text_field_by_id] returns: only an error of the wait
    that is not a timeout comes out of it. *)
Definition field_result (r : result nat) : result unit :=
  match r with
  | Ok _ => Ok tt
  | Raise e => if is_TimeoutException e then Ok tt else Raise e
  end.

(** The value typed for a field: into the element found, when the scroll
    let the filling go on and [clear()] returned. *)
Definition field_sends (rep : nat -> answers) (k : nat)
    (field : string * string) : list (nat * string) :=
  match presence (rep k) with
  | Ok el =>
      if scroll_passed (scroll_answer rep k)
         && returned (clears (rep (clear_at rep k)))
      then [(el, snd field)] else []
  | Raise _ => []
  end.

Definition fields (c : candidate) : list (string * string) :=
  [("firstName", FIRST_NAME c); ("lastName", LAST_NAME c);
   ("idNumber", ID_NUMBER c); ("email", EMAIL c); ("phone", PHONE c)]%string.

(** [runs] are the calls of the fields [fs], handled one after the other
    from the [k]-th call on. *)
Fixpoint runs_from (rep : nat -> answers) (k : nat)
    (fs : list (string * string)) (runs : list (list call)) : Prop :=
  match fs, runs with
  | [], [] => True
  | f :: fs, t :: runs =>
      t = field_calls rep k f /\ runs_from rep (k + length t) fs runs
  | _, _ => False
  end.

Fixpoint fill_fields (fs : list (string * string)) : M desk unit :=
  match fs with
  | [] => ret tt
  | f :: rest => _fill_text_field_by_id (fst f) (snd f) ;;; fill_fields rest
  end.

(** A form without the lastName field and with a phone field that
    cannot be cleared. *)
Definition someone : candidate :=
  {| FIRST_NAME := "Ada"; LAST_NAME := "Lovelace"; ID_NUMBER := "1815";
     EMAIL := "ada@example.org"; PHONE := "0101" |}.

Definition patchy_form : desk :=
  {| replies := fun k =>
       {| presence := if (k =? 6)%nat then Raise TimeoutException
                      else Ok k;
          script := None;
          clears := if (20 <=? k)%nat then Some WebDriverException else None;
          keys := None |};
     calls := [] |}.

(** ** One field *)

(** The value is typed, once and into the element found, exactly when
    the scroll let the filling go on and [clear()] returned. *)
Lemma sends_steps (el : nat) (value : string) (r1 r2 r3 r4 : option exn) :
  sends (steps el value r1 r2 r3 r4)
  = if scroll_passed r1 && returned r2 then [(el, value)] else [].
Proof.
  unfold steps. destruct r1 as [e1|]; cbn [returned scroll_passed].
  - destruct (is_WebDriverException e1); [|done].
    destruct r2; [done|]. by destruct r3.
  - destruct r2; [done|]. by destruct r3.
Qed.

Lemma length_snoc {A} (l : list A) (x : A) :
  length (l ++ [x]) = (length l + 1)%nat.
Proof. by rewrite length_app. Qed.

Lemma fill_field_run (field_id value : string) (d : desk) :
  exists r d' rest,
    _fill_text_field_by_id field_id value d = (r, d')
    /\ replies d' = replies d
    /\ calls d'
       = calls d
         ++ Find (ID, field_id) (presence (replies d (length (calls d))))
            :: rest
    /\ match presence (replies d (length (calls d))) with
       | Ok el =>
           r = Ok tt
           /\ rest = steps el value
                       (scroll_answer (replies d) (length (calls d)))
                       (clears
                          (replies d (clear_at (replies d) (length (calls d)))))
                       (keys
                          (replies d
                             (clear_at (replies d) (length (calls d)) + 1)))
                       (script
                          (replies d
                             (clear_at (replies d) (length (calls d)) + 2)))
       | Raise e =>
           rest = [] /\ r = if is_TimeoutException e then Ok tt else Raise e
       end.
Proof.
  destruct d as [rep cs]. cbn [replies calls].
  destruct (presence (rep (length cs))) as [el|e] eqn:Hfound.
  - remember (steps el value (scroll_answer rep (length cs)) _ _ _)
      as expected eqn:Hexp.
    unfold _fill_text_field_by_id.
    repeat first
      [ progress (unfold bind, try_except, safe_find, wait_presence,
                    scroll_into_view, clear, send_keys, dispatch_events,
                    time_sleep, answer, log, get, modify, ret, outcome,
                    lift_result, raise, any_Exception;
                  cbn [replies calls])
      | progress (rewrite ?length_snoc, <- ?Nat.add_assoc; cbn [Nat.add])
      | rewrite Hfound
      | match goal with
        | |- context [script ?a] => destruct (script a) eqn:?
        | |- context [clears ?a] => destruct (clears a) eqn:?
        | |- context [keys ?a] => destruct (keys a) eqn:?
        | |- context [is_WebDriverException ?e0] =>
            destruct (is_WebDriverException e0) eqn:?
        end ].
    all: rewrite <- ?(assoc_L (++)).
    all: eexists _, _, _; split; [reflexivity|].
    all: split; [reflexivity|]; split; [reflexivity|].
    all: split; [reflexivity|].
    all: subst expected; unfold steps, clear_at, scroll_answer;
           cbn [replies calls].
    all: repeat first
           [ progress (rewrite <- ?Nat.add_assoc; cbn [Nat.add])
           | match goal with
             | H : ?l = _ |- context [?l] => rewrite H
             end
           | progress cbn [returned scroll_passed app] ].
    all: reflexivity.
  - unfold _fill_text_field_by_id.
    repeat first
      [ progress (unfold bind, try_except, safe_find, wait_presence,
                    answer, log, get, modify, ret, lift_result, raise;
                  cbn [replies calls fst snd])
      | rewrite Hfound ].
    destruct (is_TimeoutException e); by eexists _, _, [].
Qed.

Lemma fill_field_calls (field_id value : string) (d : desk) :
  exists d',
    _fill_text_field_by_id field_id value d
    = (field_result (presence (replies d (length (calls d)))), d')
    /\ replies d' = replies d
    /\ calls d'
       = calls d
         ++ field_calls (replies d) (length (calls d)) (field_id, value).
Proof.
  destruct (fill_field_run field_id value d)
    as (r & d' & rest & Hrun & Hr & Hc & Hres).
  exists d'. unfold field_calls, field_result. cbn [fst snd].
  destruct (presence (replies d (length (calls d)))) as [el|e].
  - destruct Hres as [-> <-]. by rewrite Hrun.
  - destruct Hres as [-> ->]. by rewrite Hrun.
Qed.

Lemma sends_app (t1 t2 : list call) : sends (t1 ++ t2) = sends t1 ++ sends t2.
Proof. apply omap_app. Qed.

Lemma sends_field_calls (rep : nat -> answers) (k : nat)
    (field : string * string) :
  sends (field_calls rep k field) = field_sends rep k field.
Proof.
  unfold field_calls, field_sends.
  change (sends (?c :: ?t)) with (sends ([c] ++ t)). rewrite sends_app.
  destruct (presence (rep k)) as [el|e]; [|done].
  by rewrite sends_steps.
Qed.

(** X25.  [_fill_text_field_by_id] types the value only into the element
    found by the id.  Its calls are the wait for the field and, when an
    element was found, scroll, pause, clear, type and events on that
    element, each with the answer the page gave, cut exactly after the
    first call whose failure keeps the next one from being made: the
    scroll script raising something else than a [WebDriverException],
    [clear()] raising, [send_keys] raising (the pause is left out when the
    scroll script raised).  So the value is typed, once and into the
    element found, exactly when the scroll let the filling go on and
    [clear()] returned.  A field that does not show up in time is left
    alone, and only an error of the wait that is not a timeout comes out
    of the function. *)
Theorem field_value_goes_to_the_field_found (field_id value : string)
    (d : desk) :
  calls (snd (_fill_text_field_by_id field_id value d))
  = calls d ++ field_calls (replies d) (length (calls d)) (field_id, value)
  /\ sends (calls (snd (_fill_text_field_by_id field_id value d)))
     = sends (calls d)
       ++ field_sends (replies d) (length (calls d)) (field_id, value)
  /\ fst (_fill_text_field_by_id field_id value d)
     = field_result (presence (replies d (length (calls d)))).
Proof.
  destruct (fill_field_calls field_id value d) as (d' & Hrun & _ & Hc).
  rewrite Hrun. cbn [fst snd]. split_and!; [done| |done].
  by rewrite Hc, sends_app, sends_field_calls.
Qed.

(** ** The five text fields *)

Lemma then_ret_tt {S} (m : M S unit) (s : S) : (m ;;; ret tt) s = m s.
Proof. unfold bind, ret. by destruct (m s) as [[[]|e] s']. Qed.

Lemma bind_ext {S A B} (m : M S A) (k1 k2 : A -> M S B) (s : S) :
  (forall a s', k1 a s' = k2 a s') -> bind m k1 s = bind m k2 s.
Proof. intros Hk. unfold bind. by destruct (m s) as [[a|e] s']. Qed.

Lemma fill_text_fields_eq (c : candidate) (d : desk) :
  fill_text_fields c d = fill_fields (fields c) d.
Proof.
  unfold fill_text_fields, fields. cbn [fill_fields fst snd].
  do 4 (apply bind_ext; intros _ ?). by rewrite then_ret_tt.
Qed.

Lemma last_field_calls (rep : nat -> answers) (k : nat)
    (field : string * string) (e : exn) :
  presence (rep k) = Raise e ->
  last (field_calls rep k field) = Some (Find (ID, fst field) (Raise e)).
Proof. intros H. unfold field_calls. by rewrite H. Qed.

Lemma fill_fields_run (fs : list (string * string)) (d : desk) :
  exists r d' runs,
    fill_fields fs d = (r, d')
    /\ replies d' = replies d
    /\ calls d' = calls d ++ concat runs
    /\ runs_from (replies d) (length (calls d)) (take (length runs) fs) runs
    /\ match r with
       | Ok _ => length runs = length fs
       | Raise e =>
           is_TimeoutException e = false
           /\ exists loc, last (concat runs) = Some (Find loc (Raise e))
       end.
Proof.
  revert d. induction fs as [|[field_id value] fs IH]; intros d.
  { exists (Ok tt), d, []. cbn [concat]. rewrite app_nil_r.
    by split_and!. }
  cbn [fill_fields fst snd]. unfold bind at 1.
  destruct (fill_field_calls field_id value d) as (d1 & -> & Hr1 & Hc1).
  set (run1 := field_calls (replies d) (length (calls d)) (field_id, value))
    in *.
  destruct (presence (replies d (length (calls d)))) as [el|e] eqn:Hfound;
    cbn [field_result].
  2: destruct (is_TimeoutException e) eqn:Ht.
  1, 2: destruct (IH d1) as (r & d' & runs & Hrun & Hr & Hc & Hruns & Hend);
    rewrite Hrun; exists r, d', (run1 :: runs);
    (split_and!; [done|by rewrite Hr| | |]);
    [ cbn [concat]; by rewrite Hc, Hc1, <- (assoc_L (++))
    | cbn [length take runs_from]; split; [done|];
      by rewrite Hr1, Hc1, length_app in Hruns
    | destruct r as [[]|e'];
      [ cbn [length]; by rewrite Hend
      | destruct Hend as (Ht' & loc & Hlast); split; [done|];
        exists loc; cbn [concat]; by rewrite last_app, Hlast ] ].
  exists (Raise e), d1, [run1]. cbn [concat length take runs_from].
  rewrite app_nil_r. split_and!; [done..|].
  exists (ID, field_id). subst run1. by rewrite (last_field_calls _ _ _ e).
Qed.

(** X26.  The text fields do not depend on each other:
    [fill_and_submit_application] handles firstName, lastName, idNumber,
    email and phone in this order, each with one
    [_fill_text_field_by_id] that makes all its calls, whatever happened
    to the fields before it: the wait for its own id and, when that finds
    an element, the steps on it up to the first of its own calls that
    fails, typing the candidate's value for that field into that element
    when the scroll let the filling go on and [clear()] returned.  A field
    that is absent or on which a call fails does not keep the following
    ones from being filled.  The sequence ends early only when a wait for
    a field raises something other than a timeout, with that
    exception. *)
Theorem text_fields_are_filled_in_order (c : candidate) (d : desk) :
  exists runs,
    calls (snd (fill_text_fields c d)) = calls d ++ concat runs
    /\ runs_from (replies d) (length (calls d))
         (take (length runs) (fields c)) runs
    /\ sends (calls (snd (fill_text_fields c d)))
       = sends (calls d) ++ concat (map sends runs)
    /\ match fst (fill_text_fields c d) with
       | Ok _ => length runs = 5%nat
       | Raise e =>
           is_TimeoutException e = false
           /\ exists loc, last (concat runs) = Some (Find loc (Raise e))
       end.
Proof.
  rewrite fill_text_fields_eq.
  destruct (fill_fields_run (fields c) d)
    as (r & d' & runs & Hrun & _ & Hc & Hruns & Hend).
  rewrite Hrun. cbn [fst snd]. exists runs. split_and!; [done..| |exact Hend].
  rewrite Hc, sends_app. f_equal. clear.
  induction runs as [|t runs IH]; [done|].
  cbn [concat map]. by rewrite sends_app, IH.
Qed.

(** On [patchy_form] the other three values are typed, each into the
    element found for its field. *)
Example three_of_five_fields_typed :
  fst (fill_text_fields someone patchy_form) = Ok tt
  /\ sends (calls (snd (fill_text_fields someone patchy_form)))
     = [(0%nat, "Ada"); (7%nat, "1815"); (13%nat, "ada@example.org")]%string
  /\ calls (snd (fill_text_fields someone patchy_form))
     = [Find (ID, "firstName") (Ok 0%nat); ScrollIntoView 0 None; Sleep 400;
        Clear 0 None; SendKeys 0 "Ada" None; DispatchEvents 0 None;
        Find (ID, "lastName") (Raise TimeoutException);
        Find (ID, "idNumber") (Ok 7%nat); ScrollIntoView 7 None; Sleep 400;
        Clear 7 None; SendKeys 7 "1815" None; DispatchEvents 7 None;
        Find (ID, "email") (Ok 13%nat); ScrollIntoView 13 None; Sleep 400;
        Clear 13 None; SendKeys 13 "ada@example.org" None;
        DispatchEvents 13 None;
        Find (ID, "phone") (Ok 19%nat); ScrollIntoView 19 None; Sleep 400;
        Clear 19 (Some WebDriverException)]%string.
Proof. vm_compute. repeat split. Qed.

End IAIForm.
